(** * npm-dep-tree-analyzer: resolution and hoisting engine

    A shallow embedding of [NpmDepTreeAnalyzer] (the analyzer class of the
    repository) and the properties of its version resolver, tree builder
    and hoist planner.

    Conventions of the embedding.
    - A JavaScript [Map] is an insertion-ordered association list
      ([JsMap]): [set] on a present key replaces the value in place, on an
      absent key appends.  A JSON object is the list of its own
      properties; [obj[key]] on the [versions] object finds them and,
      failing that, the members inherited from [Object.prototype]
      ([readMember]).  [Object.entries] and [Object.keys] enumerate the own
      properties.
    - A thrown value is a [JsError]; code that may throw returns [exc].
    - The [semver] package is an interface ([Semver]); every operation may
      throw, as the source guards some of its calls with try/catch.
    - The registry is a function from the request URL to what [fetch]
      yields; the analyzer state carries the cache and the list of
      requests issued so far.
    - [getPackageInfo] is written in two halves, before and after its
      [await]; a resolution that nothing interleaves with runs one after
      the other.  The sibling builds that [buildDependencyTree] starts
      together and awaits as a group ([Promise.all]) are run in one
      schedule, left to right and each to completion: the order of the
      request log and of the flat index, and which of several failing
      siblings surfaces, are those of this schedule.  The recursion is
      bounded by a depth ([fuel]), and [None] stands for a build that does
      not return. *)

From Stdlib Require Import String Ascii List Bool Arith ZArith Lia DecimalString.
Import ListNotations.
Open Scope list_scope.
Open Scope string_scope.

Set Implicit Arguments.
Set Warnings "-register-all,-abstract-large-number".

(** ** JavaScript truthiness of the values the source tests *)

Definition truthy_string (s : string) : bool := negb (String.eqb s "").

(** [string | null | undefined] *)
Definition truthy (o : option string) : bool :=
  match o with
  | Some s => truthy_string s
  | None => false
  end.

(** ** Insertion-ordered maps and sets *)

Module JsMap.

Section Ops.
Variable V : Type.

Definition t := list (string * V).

Definition empty : t := [].

Fixpoint get (m : t) (k : string) : option V :=
  match m with
  | [] => None
  | (k', v) :: rest => if String.eqb k' k then Some v else get rest k
  end.

Definition has (m : t) (k : string) : bool :=
  match get m k with
  | Some _ => true
  | None => false
  end.

Fixpoint set (m : t) (k : string) (v : V) : t :=
  match m with
  | [] => [(k, v)]
  | (k', v') :: rest =>
      if String.eqb k' k then (k', v) :: rest else (k', v') :: set rest k v
  end.

Definition keys (m : t) : list string := map fst m.

(** [new Map(entries)] *)
Definition of_entries (l : list (string * V)) : t :=
  fold_left (fun m kv => set m (fst kv) (snd kv)) l empty.

Definition size (m : t) : nat := length m.
End Ops.

Arguments empty {V}.

End JsMap.

Module JsSet.

Definition t := list string.

Definition has (s : t) (x : string) : bool := existsb (String.eqb x) s.

Definition add (s : t) (x : string) : t :=
  if has s x then s else (s ++ [x])%list.

End JsSet.

(** ** Plain objects

    A property read [o[k]] on an object parsed from JSON finds an own key
    of [o] and, where [o] has none, a member that every plain object
    inherits from [Object.prototype]. *)

(** The members of [Object.prototype], each with the value of its own
    [name] property.  They are functions, named as the member, but
    [constructor], which is the function [Object], and [__proto__], which
    reads as [Object.prototype] itself, an object without a [name].  None
    of them has a property [dependencies], [devDependencies] or
    [peerDependencies], and all of them are truthy. *)
Definition objectPrototype : JsMap.t (option string) :=
  [("constructor", Some "Object");
   ("__defineGetter__", Some "__defineGetter__");
   ("__defineSetter__", Some "__defineSetter__");
   ("hasOwnProperty", Some "hasOwnProperty");
   ("__lookupGetter__", Some "__lookupGetter__");
   ("__lookupSetter__", Some "__lookupSetter__");
   ("isPrototypeOf", Some "isPrototypeOf");
   ("propertyIsEnumerable", Some "propertyIsEnumerable");
   ("toString", Some "toString");
   ("valueOf", Some "valueOf");
   ("__proto__", None);
   ("toLocaleString", Some "toLocaleString")].

(** What [o[k]] reads. *)
Inductive Member (V : Type) : Type :=
| Own (v : V)
| Inherited (memberName : option string)
| Missing.

Arguments Own {V} v.
Arguments Inherited {V} memberName.
Arguments Missing {V}.

Definition readMember {V : Type} (o : JsMap.t V) (k : string) : Member V :=
  match JsMap.get o k with
  | Some v => Own v
  | None =>
      match JsMap.get objectPrototype k with
      | Some memberName => Inherited memberName
      | None => Missing
      end
  end.

(** [o[k]] as a condition, for an object whose own values are objects. *)
Definition hasMember {V : Type} (o : JsMap.t V) (k : string) : bool :=
  match readMember o k with
  | Own _ | Inherited _ => true
  | Missing => false
  end.

(** ** Errors *)

(** [Error] stands for [Error] and its built-in subclasses ([TypeError],
    [SyntaxError], the abort error of a timed-out request); the second
    constructor is the class [PackageNotFoundError] of the source. *)
Inductive JsError : Type :=
| Error (msg : string)
| PackageNotFoundError (packageName version : string) (cause : option JsError).

Fixpoint message (e : JsError) : string :=
  match e with
  | Error msg => msg
  | PackageNotFoundError packageName version cause =>
      "Package not found: " ++ packageName ++ "@" ++ version ++ ", " ++
      match cause with
      | Some c => message c
      | None => "undefined"
      end
  end.

Definition cause (e : JsError) : option JsError :=
  match e with
  | Error _ => None
  | PackageNotFoundError _ _ c => c
  end.

Inductive exc (A : Type) : Type :=
| Throw (e : JsError)
| Ret (a : A).

Arguments Throw {A} e.
Arguments Ret {A} a.

Definition bind {A B : Type} (c : exc A) (k : A -> exc B) : exc B :=
  match c with
  | Throw e => Throw e
  | Ret a => k a
  end.

Declare Scope exc_scope.
Delimit Scope exc_scope with exc.
Notation "x <- c ;; k" := (bind c (fun x => k))
  (at level 100, c at next level, right associativity) : exc_scope.
Open Scope exc_scope.

(** ** The semver interface *)

Class Semver : Type := {
  valid : string -> exc (option string);
  validRange : string -> exc (option string);
  satisfies : string -> string -> exc bool;
  maxSatisfying : list string -> string -> exc (option string)
}.

(** ** Data model *)

(** [Object.entries] of a JSON object whose values are strings. *)
Definition Entries := list (string * string).

Record PackageInfo : Type := {
  pi_name : option string;
  pi_version : string;
  pi_dependencies : Entries;
  pi_devDependencies : Entries;
  pi_peerDependencies : Entries
}.

Inductive DependencyNode : Type :=
  mkDependencyNode {
    dn_name : string;
    dn_version : string;
    dn_dependencies : list (string * DependencyNode);
    dn_peerDependencies : JsMap.t string
  }.

Record FlatDependency : Type := {
  fd_name : string;
  fd_version : string;
  fd_requiredBy : JsSet.t
}.

Definition FlatDeps := JsMap.t FlatDependency.

Record HoistedDependency : Type := {
  hd_name : string;
  hd_version : string;
  hd_dependencies : JsMap.t string;
  hd_peerDependencies : JsMap.t string;
  hd_parent : option string
}.

Record HoistedTree : Type := {
  root : JsMap.t HoistedDependency;
  nested : JsMap.t (JsMap.t HoistedDependency)
}.

(** [number]: a finite value [numerator / denominator], an infinity, or
    [NaN]. *)
Inductive JsNumber : Type :=
| NaN
| Infinity (negative : bool)
| Finite (numerator : Z) (denominator : positive).

(** [0], [-0] and [NaN] are falsy. *)
Definition truthy_number (n : JsNumber) : bool :=
  match n with
  | NaN => false
  | Infinity _ => true
  | Finite numerator _ => negb (Z.eqb numerator 0)
  end.

Record NpmRegistryConfig : Type := {
  registry : option string;
  timeout : option JsNumber;
  headers : option Entries
}.

(** [Required<NpmRegistryConfig>] *)
Record Config : Type := {
  cfg_registry : string;
  cfg_timeout : JsNumber;
  cfg_headers : JsMap.t string
}.

Record PackageRequest : Type := {
  pr_name : string;
  pr_version : string
}.

Record AnalysisResult : Type := {
  dependencyTree : DependencyNode;
  hoistedTree : HoistedTree;
  flatDependencies : FlatDeps
}.

Record Combined : Type := {
  co_hoistedTree : HoistedTree;
  co_flatDependencies : FlatDeps
}.

Record MultiPackageAnalysisResult : Type := {
  individual : JsMap.t AnalysisResult;
  combined : Combined
}.

(** *** The registry document and what a request yields *)

Record VersionRecord : Type := {
  vr_name : string;
  vr_dependencies : option Entries;
  vr_devDependencies : option Entries;
  vr_peerDependencies : option Entries
}.

Record Metadata : Type := {
  md_versions : option (JsMap.t VersionRecord);
  md_dist_tags : option (JsMap.t string)
}.

(** What [await fetch(url, ...)] followed by [response.json()] yields:
    the request is rejected (transport failure, or abort at the timeout),
    or a response arrives with its [ok] flag and a body that parses or
    throws. *)
Inductive FetchOutcome : Type :=
| Rejected (e : JsError)
| Responded (ok : bool) (body : exc Metadata).

Definition Registry := string -> FetchOutcome.

(** The analyzer object: its cache, and the requests it has issued. *)
Record Analyzer : Type := {
  packageCache : JsMap.t PackageInfo;
  requests : list string
}.

Definition newAnalyzer : Analyzer :=
  {| packageCache := JsMap.empty; requests := [] |}.

(** *** Constructor *)

Definition defaultRegistry : string := "https://registry.npmjs.org".
Definition defaultTimeout : JsNumber := Finite 30000 1.

Definition makeConfig (config : NpmRegistryConfig) : Config :=
  {| cfg_registry :=
       if truthy (registry config)
       then match registry config with Some r => r | None => defaultRegistry end
       else defaultRegistry;
     cfg_timeout :=
       match timeout config with
       | Some t => if truthy_number t then t else defaultTimeout
       | None => defaultTimeout
       end;
     cfg_headers :=
       fold_left (fun m kv => JsMap.set m (fst kv) (snd kv))
         (match headers config with Some h => h | None => [] end)
         [("Accept", "application/json")] |}.

(** ** Version resolver: [getPackageInfo] *)

Definition cacheKey (name version : string) : string :=
  name ++ "@" ++ version.

Definition orEmpty (o : option Entries) : Entries :=
  match o with
  | Some e => e
  | None => []
  end.

Section Resolver.
Context {sv : Semver}.
Variable config : Config.
Variable reg : Registry.

(** The address of the metadata request. *)
Definition requestUrl (name : string) : string :=
  cfg_registry config ++ "/" ++ name.

(** The selection of [matchedVersion].  [versions[version]] finds the
    inherited members as well as the own keys; where it finds nothing,
    [version] names no inherited member, and the read of [dist-tags]
    finds an own key or nothing. *)
Definition matchVersion (metadata : Metadata) (version : string)
  : exc (option string) :=
  let versions :=
    match md_versions metadata with Some vs => vs | None => JsMap.empty end in
  if hasMember versions version then Ret (Some version)
  else
    let tag :=
      match md_dist_tags metadata with
      | Some tags => JsMap.get tags version
      | None => None
      end in
    if truthy tag then Ret tag
    else
      r <- validRange version ;;
      if truthy r then maxSatisfying (JsMap.keys versions) version
      else Ret None.

(** [metadata.versions[matchedVersion]] and the record built from it; for
    an inherited member the name is the member's [name] and the three
    dependency fields, which it does not have, are read as [{}]. *)
Definition readVersion (metadata : Metadata) (matchedVersion : string)
  : exc PackageInfo :=
  match md_versions metadata with
  | None =>
      Throw (Error ("Cannot read properties of undefined (reading '"
                    ++ matchedVersion ++ "')"))
  | Some vs =>
      match readMember vs matchedVersion with
      | Missing =>
          Throw (Error "Cannot read properties of undefined (reading 'name')")
      | Own vr =>
          Ret {| pi_name := Some (vr_name vr);
                 pi_version := matchedVersion;
                 pi_dependencies := orEmpty (vr_dependencies vr);
                 pi_devDependencies := orEmpty (vr_devDependencies vr);
                 pi_peerDependencies := orEmpty (vr_peerDependencies vr) |}
      | Inherited memberName =>
          Ret {| pi_name := memberName;
                 pi_version := matchedVersion;
                 pi_dependencies := [];
                 pi_devDependencies := [];
                 pi_peerDependencies := [] |}
      end
  end.

(** The body of the [try] block once the request has settled. *)
Definition resolveResponse (name version : string) (out : FetchOutcome)
  : exc PackageInfo :=
  match out with
  | Rejected e => Throw e
  | Responded ok body =>
      if negb ok then Throw (PackageNotFoundError name version None)
      else
        metadata <- body ;;
        matchedVersion <- matchVersion metadata version ;;
        match matchedVersion with
        | Some mv =>
            if truthy_string mv then readVersion metadata mv
            else Throw (PackageNotFoundError name version
                          (Some (Error "No matching version found")))
        | None =>
            Throw (PackageNotFoundError name version
                     (Some (Error "No matching version found")))
        end
  end.

(** [getPackageInfo] suspends once, at [await fetch(...)].  The part
    before the suspension either answers from the cache or issues the
    request; the part after it runs when the request has settled. *)
Definition getPackageInfo_begin (a : Analyzer) (name version : string)
  : Analyzer * (PackageInfo + string) :=
  match JsMap.get (packageCache a) (cacheKey name version) with
  | Some info => (a, inl info)
  | None =>
      let url := requestUrl name in
      ({| packageCache := packageCache a;
          requests := (requests a ++ [url])%list |}, inr url)
  end.

Definition getPackageInfo_settle (a : Analyzer) (name version : string)
    (out : FetchOutcome) : Analyzer * exc PackageInfo :=
  match resolveResponse name version out with
  | Ret packageInfo =>
      ({| packageCache :=
            JsMap.set (packageCache a) (cacheKey name version) packageInfo;
          requests := requests a |}, Ret packageInfo)
  | Throw error =>
      (a, Throw (PackageNotFoundError name version (Some error)))
  end.

(** A resolution that nothing interleaves with. *)
Definition getPackageInfo (a : Analyzer) (name version : string)
  : Analyzer * exc PackageInfo :=
  match getPackageInfo_begin a name version with
  | (a', inl info) => (a', Ret info)
  | (a', inr url) => getPackageInfo_settle a' name version (reg url)
  end.

(** ** Tree builder: [buildDependencyTree] *)

Definition orRoot (parentPath : string) : string :=
  if truthy_string parentPath then parentPath else "root".

Definition registerFlat (flatDeps : FlatDeps) (name version parentPath : string)
  : FlatDeps :=
  let key := name ++ "@" ++ version in
  match JsMap.get flatDeps key with
  | None =>
      JsMap.set flatDeps key
        {| fd_name := name; fd_version := version;
           fd_requiredBy := [orRoot parentPath] |}
  | Some dep =>
      JsMap.set flatDeps key
        {| fd_name := fd_name dep; fd_version := fd_version dep;
           fd_requiredBy := JsSet.add (fd_requiredBy dep) (orRoot parentPath) |}
  end.

Definition pathOf (parentPath name version : string) : string :=
  if truthy_string parentPath
  then parentPath ++ " > " ++ name ++ "@" ++ version
  else name ++ "@" ++ version.

Definition BuildState : Type := Analyzer * FlatDeps.

(** The builds of the declared dependencies, awaited as a group.  The
    source starts them together; here they run in one schedule, left to
    right and each to completion, and the first failure met is the failure
    of the group.  [None] stands for a build that does not return. *)
Fixpoint buildAll
    (build : string -> string -> BuildState -> option (BuildState * exc DependencyNode))
    (deps : Entries) (s : BuildState)
  : option (BuildState * exc (list (string * DependencyNode))) :=
  match deps with
  | [] => Some (s, Ret [])
  | (depName, depVersion) :: rest =>
      match build depName depVersion s with
      | None => None
      | Some (s1, Throw e) => Some (s1, Throw e)
      | Some (s1, Ret depNode) =>
          match buildAll build rest s1 with
          | None => None
          | Some (s2, Throw e) => Some (s2, Throw e)
          | Some (s2, Ret results) => Some (s2, Ret ((depName, depNode) :: results))
          end
      end
  end.

Fixpoint buildDependencyTree (fuel : nat) (name version : string)
    (parentPath : string) (s : BuildState)
  : option (BuildState * exc DependencyNode) :=
  match fuel with
  | O => None
  | S fuel' =>
      let (a1, r) := getPackageInfo (fst s) name version in
      match r with
      | Throw e => Some ((a1, snd s), Throw e)
      | Ret packageInfo =>
          let currentPath := pathOf parentPath name (pi_version packageInfo) in
          let flatDeps :=
            registerFlat (snd s) name (pi_version packageInfo) parentPath in
          match buildAll
                  (fun depName depVersion =>
                     buildDependencyTree fuel' depName depVersion currentPath)
                  (pi_dependencies packageInfo) (a1, flatDeps) with
          | None => None
          | Some (s2, Throw e) => Some (s2, Throw e)
          | Some (s2, Ret results) =>
              Some (s2, Ret {| dn_name := name;
                               dn_version := pi_version packageInfo;
                               dn_dependencies := JsMap.of_entries results;
                               dn_peerDependencies :=
                                 JsMap.of_entries (pi_peerDependencies packageInfo) |})
          end
      end
  end.

End Resolver.

(** ** Hoist planner: [convertToHoistedTree] *)

(** [a || b] on strings *)
Definition orElse (a : option string) (b : string) : string :=
  match a with
  | Some s => if truthy_string s then s else b
  | None => b
  end.

Definition emptyTree : HoistedTree :=
  {| root := JsMap.empty; nested := JsMap.empty |}.

Section Planner.
Context {sv : Semver}.

Definition convertToHoistedDep (node : DependencyNode) (parent : option string)
  : HoistedDependency :=
  {| hd_name := dn_name node;
     hd_version := dn_version node;
     hd_dependencies :=
       JsMap.of_entries
         (map (fun nd => (fst nd, dn_version (snd nd))) (dn_dependencies node));
     hd_peerDependencies := dn_peerDependencies node;
     hd_parent := parent |}.

Definition hasVersionConflict (dep1 : HoistedDependency) (dep2 : DependencyNode)
  : bool :=
  if String.eqb (hd_version dep1) (dn_version dep2) then false
  else
    match
      (r1 <- validRange (hd_version dep1) ;;
       r2 <- validRange (dn_version dep2) ;;
       let range1 := orElse r1 (hd_version dep1) in
       let range2 := orElse r2 (dn_version dep2) in
       version1 <- valid (hd_version dep1) ;;
       version2 <- valid (dn_version dep2) ;;
       if truthy version1 && truthy version2
       then Ret (negb (String.eqb (orElse version1 "") (orElse version2 "")))
       else if truthy version1
       then ok <- satisfies (orElse version1 "") range2 ;; Ret (negb ok)
       else if truthy version2
       then ok <- satisfies (orElse version2 "") range1 ;; Ret (negb ok)
       else Ret true)
    with
    | Ret conflict => conflict
    | Throw _ => true
    end.

(** First loop of [canBeHoisted]: the peers that root entries declare
    on the candidate's name. *)
Fixpoint rootPeersAccept (entries : list (string * HoistedDependency))
    (dep : DependencyNode) : exc bool :=
  match entries with
  | [] => Ret true
  | (_, hoistedDep) :: rest =>
      match JsMap.get (hd_peerDependencies hoistedDep) (dn_name dep) with
      | Some requiredVersion =>
          ok <- satisfies (dn_version dep) requiredVersion ;;
          if ok then rootPeersAccept rest dep else Ret false
      | None => rootPeersAccept rest dep
      end
  end.

(** Second loop: the candidate's own peers against the root. *)
Fixpoint ownPeersSatisfied (rootMap : JsMap.t HoistedDependency)
    (peers : list (string * string)) : exc bool :=
  match peers with
  | [] => Ret true
  | (peerName, peerVersion) :: rest =>
      match JsMap.get rootMap peerName with
      | Some hoistedPeer =>
          ok <- satisfies (hd_version hoistedPeer) peerVersion ;;
          if ok then ownPeersSatisfied rootMap rest else Ret false
      | None => ownPeersSatisfied rootMap rest
      end
  end.

Definition canBeHoisted (t : HoistedTree) (dep : DependencyNode) : exc bool :=
  ok <- rootPeersAccept (root t) dep ;;
  if ok then ownPeersSatisfied (root t) (dn_peerDependencies dep)
  else Ret false.

(** [hoistedTree.root.set(node.name, convertToHoistedDep(node))] *)
Definition hoist (t : HoistedTree) (node : DependencyNode) : HoistedTree :=
  {| root := JsMap.set (root t) (dn_name node) (convertToHoistedDep node None);
     nested := nested t |}.

(** Placement into [nested[parentPath]], creating the bucket if absent. *)
Definition nest (t : HoistedTree) (node : DependencyNode) (parentPath : string)
  : HoistedTree :=
  let bucket :=
    match JsMap.get (nested t) parentPath with
    | Some b => b
    | None => JsMap.empty
    end in
  {| root := root t;
     nested :=
       JsMap.set (nested t) parentPath
         (JsMap.set bucket (dn_name node)
            (convertToHoistedDep node (Some parentPath))) |}.

(** The placement decision of [processNode] for a node that is not the
    root of the logical tree. *)
Definition placeNode (t : HoistedTree) (node : DependencyNode)
    (parentPath : string) : exc HoistedTree :=
  match JsMap.get (root t) (dn_name node) with
  | None =>
      ok <- canBeHoisted t node ;;
      Ret (if ok then hoist t node else nest t node parentPath)
  | Some existingDep =>
      if hasVersionConflict existingDep node
      then Ret (nest t node parentPath)
      else
        ok <- canBeHoisted t node ;;
        Ret (if ok then t else nest t node parentPath)
  end.

Fixpoint processNode (t : HoistedTree) (node : DependencyNode)
    (parentPath : string) (isRoot : bool) : exc HoistedTree :=
  match node with
  | mkDependencyNode name version deps _ =>
      let nodeKey := name ++ "@" ++ version in
      let processDeps :=
        fix processDeps (t : HoistedTree) (deps : list (string * DependencyNode))
          : exc HoistedTree :=
          match deps with
          | [] => Ret t
          | (_, depNode) :: rest =>
              t' <- processNode t depNode nodeKey false ;;
              processDeps t' rest
          end in
      if isRoot then processDeps (hoist t node) deps
      else
        t' <- placeNode t node parentPath ;;
        processDeps t' deps
  end.

Definition convertToHoistedTree (node : DependencyNode) : exc HoistedTree :=
  processNode emptyTree node "" true.

End Planner.

(** ** Analyzer *)

Definition virtualRoot (deps : list (string * DependencyNode)) : DependencyNode :=
  {| dn_name := "virtual-root";
     dn_version := "0.0.0";
     dn_dependencies := deps;
     dn_peerDependencies := JsMap.empty |}.

(** The merge of one analysis' flat map into the combined one. *)
Definition mergeFlat (combinedFlatDeps flat : FlatDeps) : FlatDeps :=
  fold_left
    (fun c kd =>
       match JsMap.get c (fst kd) with
       | None =>
           JsMap.set c (fst kd)
             {| fd_name := fd_name (snd kd);
                fd_version := fd_version (snd kd);
                fd_requiredBy := fd_requiredBy (snd kd) |}
       | Some e =>
           JsMap.set c (fst kd)
             {| fd_name := fd_name e;
                fd_version := fd_version e;
                fd_requiredBy :=
                  fold_left JsSet.add (fd_requiredBy (snd kd)) (fd_requiredBy e) |}
       end)
    flat combinedFlatDeps.

Inductive AnalyzeOutput : Type :=
| SingleOutput (r : AnalysisResult)
| MultiOutput (r : MultiPackageAnalysisResult).

Section Analyzer.
Context {sv : Semver}.
Variable config : Config.
Variable reg : Registry.

Definition analyzeSingle (fuel : nat) (a : Analyzer) (packageName version : string)
  : option (Analyzer * exc AnalysisResult) :=
  match buildDependencyTree config reg fuel packageName version ""
          (a, JsMap.empty) with
  | None => None
  | Some ((a', _), Throw e) => Some (a', Throw e)
  | Some ((a', flatDeps), Ret tree) =>
      Some (a',
            (hoisted <- convertToHoistedTree tree ;;
             Ret {| dependencyTree := tree;
                    hoistedTree := hoisted;
                    flatDependencies := flatDeps |}))
  end.

(** The first loop of [analyzeMultiple]. *)
Fixpoint analyzeEach (fuel : nat) (a : Analyzer) (packages : list PackageRequest)
    (individual : JsMap.t AnalysisResult)
  : option (Analyzer * exc (JsMap.t AnalysisResult)) :=
  match packages with
  | [] => Some (a, Ret individual)
  | pkg :: rest =>
      match analyzeSingle fuel a (pr_name pkg) (pr_version pkg) with
      | None => None
      | Some (a1, Throw e) => Some (a1, Throw e)
      | Some (a1, Ret result) =>
          analyzeEach fuel a1 rest
            (JsMap.set individual (pr_name pkg ++ "@" ++ pr_version pkg) result)
      end
  end.

Definition analyzeMultiple (fuel : nat) (a : Analyzer) (packages : list PackageRequest)
  : option (Analyzer * exc MultiPackageAnalysisResult) :=
  match analyzeEach fuel a packages JsMap.empty with
  | None => None
  | Some (a', Throw e) => Some (a', Throw e)
  | Some (a', Ret individual) =>
      let merged :=
        fold_left
          (fun acc kr =>
             (JsMap.set (fst acc) (fst kr) (dependencyTree (snd kr)),
              mergeFlat (snd acc) (flatDependencies (snd kr))))
          individual (JsMap.empty, JsMap.empty) in
      Some (a',
            (combinedHoistedTree <- convertToHoistedTree (virtualRoot (fst merged)) ;;
             Ret {| individual := individual;
                    combined :=
                      {| co_hoistedTree := combinedHoistedTree;
                         co_flatDependencies := snd merged |} |}))
  end.

Definition analyze (fuel : nat) (a : Analyzer)
    (packageName : string + list PackageRequest) (version : option string)
  : option (Analyzer * exc AnalyzeOutput) :=
  match packageName with
  | inr packages =>
      match analyzeMultiple fuel a packages with
      | None => None
      | Some (a', r) => Some (a', (x <- r ;; Ret (MultiOutput x)))
      end
  | inl name =>
      if truthy version then
        match analyzeSingle fuel a name (orElse version "") with
        | None => None
        | Some (a', r) => Some (a', (x <- r ;; Ret (SingleOutput x)))
        end
      else
        Some (a, Throw (Error
          "Invalid arguments: When analyzing a single package, both name and version are required"))
  end.

End Analyzer.

(** ** Printing: [printDependencyTree], [printFlatDependencies],
    [printHoistedTree]

    The console is the list of the lines logged, in order. *)

Definition newline : string := String "010"%char EmptyString.

(** [printDependencyTree(node, prefix)].  [isLast] is [index ===
    entries.length - 1]: the entry has no entry after it.  The source
    computes a [childPrefix] as well and does not use it. *)
Fixpoint printDependencyTree (node : DependencyNode) (prefix : string)
  : list string :=
  match node with
  | mkDependencyNode name version deps peers =>
      let printChildren :=
        fix printChildren (entries : list (string * DependencyNode)) : list string :=
          match entries with
          | [] => []
          | (_, dep) :: rest =>
              let isLast := match rest with [] => true | _ :: _ => false end in
              let newPrefix := prefix ++ (if isLast then "└── " else "├── ") in
              (printDependencyTree dep newPrefix ++ printChildren rest)%list
          end in
      ((prefix ++ name ++ "@" ++ version)%string
       :: (if Nat.ltb 0 (JsMap.size peers)
           then (prefix ++ "├── [peer dependencies]")%string
                :: map (fun nv =>
                          (prefix ++ "│   └── " ++ fst nv ++ "@" ++ snd nv)%string)
                     peers
           else [])
       ++ printChildren deps)%list
  end.

(** The loop over the dependencies of a node printed under [prefix]. *)
Definition printChildren (prefix : string)
  : list (string * DependencyNode) -> list string :=
  fix printChildren (entries : list (string * DependencyNode)) : list string :=
    match entries with
    | [] => []
    | (_, dep) :: rest =>
        let isLast := match rest with [] => true | _ :: _ => false end in
        let newPrefix := prefix ++ (if isLast then "└── " else "├── ") in
        (printDependencyTree dep newPrefix ++ printChildren rest)%list
    end.

(** [printFlatDependencies(flatDeps)] *)
Definition printFlatDependencies (flatDeps : FlatDeps) : list string :=
  ((newline ++ "Flat Dependencies:")%string
   :: flat_map
        (fun kd =>
           (newline ++ fst kd ++ ":")%string
           :: (if Nat.ltb 0 (length (fd_requiredBy (snd kd)))
               then "  Required by:"%string
                    :: map (fun parent => ("    - " ++ parent)%string)
                         (fd_requiredBy (snd kd))
               else []))
        flatDeps)%list.

(** A printing function that can fail: the lines logged until it returned
    or threw, and how it ended. *)
Definition Console (A : Type) : Type := (list string * exc A)%type.

Definition log (line : string) : Console unit := ([line], Ret tt).

Definition nothing : Console unit := ([], Ret tt).

Definition andThen {A B : Type} (c : Console A) (k : A -> Console B) : Console B :=
  match snd c with
  | Throw e => (fst c, Throw e)
  | Ret a => ((fst c ++ fst (k a))%list, snd (k a))
  end.

Definition evaluate {A : Type} (x : exc A) : Console A := ([], x).

Fixpoint forEach {A : Type} (l : list A) (body : A -> Console unit) : Console unit :=
  match l with
  | [] => nothing
  | x :: rest => andThen (body x) (fun _ => forEach rest body)
  end.

Section Printing.
Context {sv : Semver}.

Definition peerStatus (isSatisfied : bool) : string :=
  if isSatisfied then "✓" else "✗ (unsatisfied)".

(** [rootPeer && semver.satisfies(rootPeer.version, peerVersion)], as a
    condition. *)
Definition satisfiedBy (entries : JsMap.t HoistedDependency)
    (peerName peerVersion : string) : exc bool :=
  match JsMap.get entries peerName with
  | Some peer => satisfies (hd_version peer) peerVersion
  | None => Ret false
  end.

(** The check of a peer of a root entry. *)
Definition rootPeerSatisfied (hoistedTree : HoistedTree)
    (peerName peerVersion : string) : exc bool :=
  satisfiedBy (root hoistedTree) peerName peerVersion.

(** The check of a peer of an entry nested under [parent]: at the root
    first, then in the bucket of [parent]. *)
Definition nestedPeerSatisfied (hoistedTree : HoistedTree) (parent : string)
    (peerName peerVersion : string) : exc bool :=
  atRoot <- satisfiedBy (root hoistedTree) peerName peerVersion ;;
  if atRoot then Ret true
  else
    match JsMap.get (nested hoistedTree) parent with
    | Some parentNestedDeps => satisfiedBy parentNestedDeps peerName peerVersion
    | None => Ret false
    end.

(** The lines of one entry; the two loops of the source print an entry in
    the same way and differ in the check of its peers. *)
Definition printEntry (check : string -> string -> exc bool)
    (name : string) (dep : HoistedDependency) : Console unit :=
  andThen (log ("├── " ++ name ++ "@" ++ hd_version dep)) (fun _ =>
  andThen
    (if Nat.ltb 0 (JsMap.size (hd_dependencies dep))
     then andThen (log "│   ├── dependencies:") (fun _ =>
            forEach (hd_dependencies dep) (fun dv =>
              log ("│   │   ├── " ++ fst dv ++ "@" ++ snd dv)))
     else nothing) (fun _ =>
  if Nat.ltb 0 (JsMap.size (hd_peerDependencies dep))
  then andThen (log "│   ├── peer dependencies:") (fun _ =>
         forEach (hd_peerDependencies dep) (fun pv =>
           andThen (evaluate (check (fst pv) (snd pv))) (fun isSatisfied =>
             log ("│   │   ├── " ++ fst pv ++ "@" ++ snd pv ++ " "
                  ++ peerStatus isSatisfied))))
  else nothing)).

(** [printHoistedTree(hoistedTree)] *)
Definition printHoistedTree (hoistedTree : HoistedTree) : Console unit :=
  andThen
    (log (newline ++ "Hoisted Dependency Tree (similar to node_modules structure):"))
    (fun _ =>
  andThen (log (newline ++ "node_modules/")) (fun _ =>
  andThen
    (forEach (root hoistedTree) (fun nd =>
       printEntry (rootPeerSatisfied hoistedTree) (fst nd) (snd nd))) (fun _ =>
  if Nat.ltb 0 (JsMap.size (nested hoistedTree))
  then
    andThen
      (log (newline ++ "Nested dependencies (could not be hoisted due to version conflicts or peer dependency constraints):"))
      (fun _ =>
    forEach (nested hoistedTree) (fun pd =>
      andThen (log (newline ++ fst pd ++ "/node_modules/")) (fun _ =>
      forEach (snd pd) (fun nd =>
        printEntry (nestedPeerSatisfied hoistedTree (fst pd)) (fst nd) (snd nd)))))
  else nothing))).

End Printing.

(** ** A reference [Semver] instance

    Enough of node-semver to evaluate the engine on concrete registries:
    versions are plain [x.y.z] triples; ranges are [*], an exact version,
    a caret range [^x.y.z], and the canonical form [>=a.b.c <d.e.f-0] that
    [validRange] prints for a caret range.  Any other string is rejected.
    None of its operations throws. *)

Module MiniSemver.

Local Open Scope nat_scope.

Definition Version : Type := nat * nat * nat.

Definition digit (c : ascii) : option nat :=
  let n := nat_of_ascii c in
  if (48 <=? n) && (n <=? 57) then Some (n - 48) else None.

Fixpoint digits (s : string) (acc : nat) : option nat :=
  match s with
  | EmptyString => Some acc
  | String c rest =>
      match digit c with
      | Some d => digits rest (10 * acc + d)
      | None => None
      end
  end.

(** A numeric identifier: digits, no leading zero. *)
Definition numeral (s : string) : option nat :=
  match s with
  | EmptyString => None
  | String "0"%char EmptyString => Some 0
  | String "0"%char _ => None
  | _ => digits s 0
  end.

Fixpoint split (sep : ascii) (s : string) : list string :=
  match s with
  | EmptyString => [EmptyString]
  | String c rest =>
      if Ascii.eqb c sep then EmptyString :: split sep rest
      else
        match split sep rest with
        | [] => [String c EmptyString]
        | h :: t => String c h :: t
        end
  end.

Definition parseVersion (s : string) : option Version :=
  match split "."%char s with
  | [a; b; c] =>
      match numeral a, numeral b, numeral c with
      | Some x, Some y, Some z => Some (x, y, z)
      | _, _, _ => None
      end
  | _ => None
  end.

Definition showNat (n : nat) : string :=
  NilEmpty.string_of_uint (Nat.to_uint n).

Definition showVersion (v : Version) : string :=
  let '(x, y, z) := v in
  showNat x ++ "." ++ showNat y ++ "." ++ showNat z.

Definition eqbV (v w : Version) : bool :=
  let '(a, b, c) := v in
  let '(x, y, z) := w in
  (a =? x) && (b =? y) && (c =? z).

Definition ltbV (v w : Version) : bool :=
  let '(a, b, c) := v in
  let '(x, y, z) := w in
  (a <? x) || ((a =? x) && ((b <? y) || ((b =? y) && (c <? z)))).

Definition lebV (v w : Version) : bool := negb (ltbV w v).

Inductive Range : Type :=
| Any
| Exact (v : Version)
| Caret (v : Version)
| Between (lo hi : Version).

Definition caretUpper (v : Version) : Version :=
  let '(x, y, z) := v in
  if x =? 0 then (if y =? 0 then (0, 0, z + 1) else (0, y + 1, 0))
  else (x + 1, 0, 0).

Definition parseRange (s : string) : option Range :=
  match s with
  | "" => Some Any
  | "*" => Some Any
  | String "^"%char rest => option_map Caret (parseVersion rest)
  | String ">"%char (String "="%char rest) =>
      match split " "%char rest with
      | [lo; String "<"%char hi] =>
          match split "-"%char hi with
          | [hiv; "0"] =>
              match parseVersion lo, parseVersion hiv with
              | Some l, Some h => Some (Between l h)
              | _, _ => None
              end
          | _ => None
          end
      | _ => None
      end
  | _ => option_map Exact (parseVersion s)
  end.

Definition showRange (r : Range) : string :=
  match r with
  | Any => "*"
  | Exact v => showVersion v
  | Caret v => ">=" ++ showVersion v ++ " <" ++ showVersion (caretUpper v) ++ "-0"
  | Between lo hi => ">=" ++ showVersion lo ++ " <" ++ showVersion hi ++ "-0"
  end.

Definition test (r : Range) (v : Version) : bool :=
  match r with
  | Any => true
  | Exact e => eqbV e v
  | Caret c => lebV c v && ltbV v (caretUpper c)
  | Between lo hi => lebV lo v && ltbV v hi
  end.

Definition best (r : Range) (acc : option (Version * string)) (s : string)
  : option (Version * string) :=
  match parseVersion s with
  | Some v =>
      if test r v then
        match acc with
        | Some (b, _) => if ltbV b v then Some (v, s) else acc
        | None => Some (v, s)
        end
      else acc
  | None => acc
  end.

#[export] Instance semver : Semver := {
  valid s := Ret (option_map showVersion (parseVersion s));
  validRange s := Ret (option_map showRange (parseRange s));
  satisfies v r :=
    Ret (match parseVersion v, parseRange r with
         | Some v', Some r' => test r' v'
         | _, _ => false
         end);
  maxSatisfying vs r :=
    Ret (match parseRange r with
         | Some r' => option_map snd (fold_left (best r') vs None)
         | None => None
         end)
}.

End MiniSemver.

(** A semver whose parsers throw on what they cannot read, as the
    constructors of node-semver's [SemVer] and [Range] classes do. *)
Module StrictSemver.

#[export] Instance semver : Semver := {
  valid s :=
    match @valid MiniSemver.semver s with
    | Ret None => Throw (Error ("Invalid Version: " ++ s))
    | r => r
    end;
  validRange s :=
    match @validRange MiniSemver.semver s with
    | Ret None => Throw (Error ("Invalid SemVer Range: " ++ s))
    | r => r
    end;
  satisfies := @satisfies MiniSemver.semver;
  maxSatisfying := @maxSatisfying MiniSemver.semver
}.

End StrictSemver.

(** ** Vocabulary of the properties *)

Section ResolverVocabulary.
Context {sv : Semver}.

Definition versionsOf (metadata : Metadata) : JsMap.t VersionRecord :=
  match md_versions metadata with Some vs => vs | None => JsMap.empty end.

Definition tagOf (metadata : Metadata) (descriptor : string) : option string :=
  match md_dist_tags metadata with
  | Some tags => JsMap.get tags descriptor
  | None => None
  end.

(** The descriptor is neither a property of [versions] nor a dist-tag
    with a non-empty target: it is read as a range. *)
Definition Unlisted (metadata : Metadata) (descriptor : string) : Prop :=
  hasMember (versionsOf metadata) descriptor = false
  /\ truthy (tagOf metadata descriptor) = false.

(** [selected] is the non-empty string that [matchedVersion] holds: the
    descriptor itself when it is a property of [versions], own or
    inherited; otherwise the target of the dist-tag of that name;
    otherwise, for a valid range, the version that [maxSatisfying]
    chooses among the own keys of [versions]. *)
Inductive Selects (metadata : Metadata) (descriptor : string) : string -> Prop :=
| selects_member :
    hasMember (versionsOf metadata) descriptor = true ->
    descriptor <> "" ->
    Selects metadata descriptor descriptor
| selects_tag target :
    hasMember (versionsOf metadata) descriptor = false ->
    tagOf metadata descriptor = Some target ->
    target <> "" ->
    Selects metadata descriptor target
| selects_range r best :
    Unlisted metadata descriptor ->
    validRange descriptor = Ret r ->
    truthy r = true ->
    maxSatisfying (JsMap.keys (versionsOf metadata)) descriptor = Ret (Some best) ->
    best <> "" ->
    Selects metadata descriptor best.

(** [matchedVersion] is left falsy: the descriptor is the empty string,
    or it is read as a range and is not a valid one, or no version
    satisfies it. *)
Inductive SelectsNothing (metadata : Metadata) (descriptor : string) : Prop :=
| nothing_for_the_empty_string :
    hasMember (versionsOf metadata) descriptor = true ->
    descriptor = "" ->
    SelectsNothing metadata descriptor
| nothing_for_an_invalid_range r :
    Unlisted metadata descriptor ->
    validRange descriptor = Ret r ->
    truthy r = false ->
    SelectsNothing metadata descriptor
| nothing_satisfies r best :
    Unlisted metadata descriptor ->
    validRange descriptor = Ret r ->
    truthy r = true ->
    maxSatisfying (JsMap.keys (versionsOf metadata)) descriptor = Ret best ->
    truthy best = false ->
    SelectsNothing metadata descriptor.

(** A semver operation throws [e] while the descriptor is read as a range. *)
Inductive SelectionThrows (metadata : Metadata) (descriptor : string)
  : JsError -> Prop :=
| throws_in_validRange e :
    Unlisted metadata descriptor ->
    validRange descriptor = Throw e ->
    SelectionThrows metadata descriptor e
| throws_in_maxSatisfying r e :
    Unlisted metadata descriptor ->
    validRange descriptor = Ret r ->
    truthy r = true ->
    maxSatisfying (JsMap.keys (versionsOf metadata)) descriptor = Throw e ->
    SelectionThrows metadata descriptor e.

(** [metadata.versions[selected]] cannot be read, or reads [undefined]:
    the document has no [versions], or [versions] has no property
    [selected], own or inherited. *)
Definition Unreadable (metadata : Metadata) (selected : string) : Prop :=
  match md_versions metadata with
  | None => True
  | Some vs => hasMember vs selected = false
  end.

(** What makes the [try] block throw, given what the request yields. *)
Inductive ResolutionFails (version : string) : FetchOutcome -> Prop :=
| fails_transport e :
    ResolutionFails version (Rejected e)
| fails_status body :
    ResolutionFails version (Responded false body)
| fails_parse e :
    ResolutionFails version (Responded true (Throw e))
| fails_selecting metadata e :
    SelectionThrows metadata version e ->
    ResolutionFails version (Responded true (Ret metadata))
| fails_no_selection metadata :
    SelectsNothing metadata version ->
    ResolutionFails version (Responded true (Ret metadata))
| fails_reading metadata selected :
    Selects metadata version selected ->
    Unreadable metadata selected ->
    ResolutionFails version (Responded true (Ret metadata)).

(** The failure causes as the specification lists them: a non-2xx
    status, a body that does not parse, a transport failure or timeout,
    or no version selected for the descriptor. *)
Definition ListedFailure (version : string) (out : FetchOutcome) : Prop :=
  (exists body, out = Responded false body)
  \/ (exists e, out = Responded true (Throw e))
  \/ (exists e, out = Rejected e)
  \/ (exists metadata,
        out = Responded true (Ret metadata) /\ SelectsNothing metadata version).

End ResolverVocabulary.

Section PlannerVocabulary.
Context {sv : Semver}.

(** [v] parses as the concrete version [parsed]. *)
Definition isConcrete (v parsed : string) : Prop :=
  valid v = Ret (Some parsed) /\ parsed <> "".

(** [v] is not a concrete version but a range, [canonical] in canonical form. *)
Definition isRange (v canonical : string) : Prop :=
  (exists o, valid v = Ret o /\ truthy o = false)
  /\ validRange v = Ret (Some canonical) /\ canonical <> "".

(** One of the parsing calls on [v] throws. *)
Definition parsingThrows (v : string) : Prop :=
  (exists e, valid v = Throw e) \/ (exists e, validRange v = Throw e).

End PlannerVocabulary.

Section WalkVocabulary.
Context {sv : Semver}.

(** The loop of [processNode] over the dependencies of a node whose key is
    [nodeKey]. *)
Definition processDeps (nodeKey : string)
  : HoistedTree -> list (string * DependencyNode) -> exc HoistedTree :=
  fix processDeps (t : HoistedTree) (deps : list (string * DependencyNode))
    : exc HoistedTree :=
    match deps with
    | [] => Ret t
    | (_, depNode) :: rest =>
        t' <- processNode t depNode nodeKey false ;;
        processDeps t' rest
    end.

(** The root entry for [peerName], when there is one, satisfies [peerRange]. *)
Definition peerHolds (t : HoistedTree) (peerName peerRange : string) : Prop :=
  forall e, JsMap.get (root t) peerName = Some e ->
            satisfies (hd_version e) peerRange = Ret true.

(** The peer-satisfaction property of the root level. *)
Definition PeerSatisfaction (t : HoistedTree) : Prop :=
  forall k r peerName peerRange,
    JsMap.get (root t) k = Some r ->
    JsMap.get (hd_peerDependencies r) peerName = Some peerRange ->
    peerHolds t peerName peerRange.

(** The same, for the peers an entry declares on other packages. *)
Definition PeerSatisfactionOfOthers (t : HoistedTree) : Prop :=
  forall k r peerName peerRange,
    JsMap.get (root t) k = Some r ->
    JsMap.get (hd_peerDependencies r) peerName = Some peerRange ->
    peerName <> hd_name r ->
    peerHolds t peerName peerRange.

(** Root entries sit under their own name. *)
Definition RootKeyed (t : HoistedTree) : Prop :=
  forall k r, JsMap.get (root t) k = Some r -> hd_name r = k.

Definition RootInvariant (t : HoistedTree) : Prop :=
  RootKeyed t /\ PeerSatisfactionOfOthers t.

(** The root already holds an entry for the candidate's name, in a version
    that conflicts with the candidate's. *)
Definition conflictsAtRoot (t : HoistedTree) (d : DependencyNode) : Prop :=
  exists existing,
    JsMap.get (root t) (dn_name d) = Some existing /\
    hasVersionConflict existing d = true.

(** [d] sits in the bucket of [parentPath]. *)
Definition nestedUnder (t : HoistedTree) (parentPath : string) (d : DependencyNode)
  : Prop :=
  exists bucket,
    JsMap.get (nested t) parentPath = Some bucket /\
    JsMap.get bucket (dn_name d) = Some (convertToHoistedDep d (Some parentPath)).

End WalkVocabulary.


(** *** Occurrences in the logical tree and the flat index *)

(** [OccursAt tree p d q]: in the tree [tree] built under the parent path
    [p], the node [d] occurs, built under the parent path [q]. *)
Inductive OccursAt : DependencyNode -> string -> DependencyNode -> string -> Prop :=
| occurs_here tree p :
    OccursAt tree p tree p
| occurs_below tree p key child d q :
    In (key, child) (dn_dependencies tree) ->
    OccursAt child (pathOf p (dn_name tree) (dn_version tree)) d q ->
    OccursAt tree p d q.

(** The flat index holds [d] under its key, required by the path [q]
    (by ["root"] when [q] is empty). *)
Definition requiredAt (flatDeps : FlatDeps) (d : DependencyNode) (q : string) : Prop :=
  exists e,
    JsMap.get flatDeps (dn_name d ++ "@" ++ dn_version d) = Some e
    /\ In (orRoot q) (fd_requiredBy e).

Definition flatGrows (f f' : FlatDeps) : Prop :=
  forall k e, JsMap.get f k = Some e ->
    exists e', JsMap.get f' k = Some e' /\ incl (fd_requiredBy e) (fd_requiredBy e').

(** *** The cache over time *)

Definition cacheExtends (a a' : Analyzer) : Prop :=
  forall k info,
    JsMap.get (packageCache a) k = Some info ->
    JsMap.get (packageCache a') k = Some info.

(** *** Well-founded declarations *)

Section Ranking.
Context {sv : Semver}.
Variable config : Config.
Variable reg : Registry.
Variable rank : string -> nat.
Variable Reach : string -> Prop.

(** Every dependency that [info] declares has a key within reach, of
    smaller rank than [key]. *)
Definition Decreasing (key : string) (info : PackageInfo) : Prop :=
  forall depName depVersion,
    In (depName, depVersion) (pi_dependencies info) ->
    Reach (cacheKey depName depVersion)
    /\ rank (cacheKey depName depVersion) < rank key.

(** What the registry answers for a key within reach is decreasing;
    nothing is asked of its answers for other keys. *)
Definition RegistryRanked : Prop :=
  forall name version info,
    Reach (cacheKey name version) ->
    resolveResponse name version (reg (requestUrl config name)) = Ret info ->
    Decreasing (cacheKey name version) info.

(** The same, for what the cache holds. *)
Definition CacheRanked (a : Analyzer) : Prop :=
  forall k info,
    Reach k -> JsMap.get (packageCache a) k = Some info -> Decreasing k info.

End Ranking.

(** [Chain a n key]: the cache of [a] holds a chain of [n] declared
    dependencies that starts at [key]. *)
Inductive Chain (a : Analyzer) : nat -> string -> Prop :=
| chain_end key :
    Chain a 0 key
| chain_step key info depName depVersion n :
    JsMap.get (packageCache a) key = Some info ->
    In (depName, depVersion) (pi_dependencies info) ->
    Chain a n (cacheKey depName depVersion) ->
    Chain a (S n) key.


(** *** Interleaved resolutions *)

(** What the analyzer does in one turn of the event loop on behalf of a
    resolution: the first half of [getPackageInfo] (up to its [await]), or
    the second half once the request has settled. *)
Inductive Turn : Type :=
| Begins (name version : string)
| Settles (name version : string).

Section Schedules.
Context {sv : Semver}.
Variable config : Config.
Variable reg : Registry.

Definition turn (a : Analyzer) (t : Turn) : Analyzer :=
  match t with
  | Begins name version => fst (getPackageInfo_begin config a name version)
  | Settles name version =>
      fst (getPackageInfo_settle a name version (reg (requestUrl config name)))
  end.

Definition runTurns (turns : list Turn) (a : Analyzer) : Analyzer :=
  fold_left turn turns a.

End Schedules.


(** *** The analyzer over time *)

(** From [a] to [a']: what was cached is still cached, unchanged, and the
    requests issued so far are still the first of the log. *)
Definition analyzerGrows (a a' : Analyzer) : Prop :=
  cacheExtends a a'
  /\ exists more, requests a' = (requests a ++ more)%list.


(** *** Nodes of the logical tree and where the planner puts them *)

Definition nodeKey (d : DependencyNode) : string :=
  dn_name d ++ "@" ++ dn_version d.

(** [ChildOf tree d parentKey]: [d] is a node of [tree] other than its
    root, a dependency of a node whose key is [parentKey]. *)
Inductive ChildOf : DependencyNode -> DependencyNode -> string -> Prop :=
| child_direct tree k d :
    In (k, d) (dn_dependencies tree) ->
    ChildOf tree d (nodeKey tree)
| child_deeper tree k c d parentKey :
    In (k, c) (dn_dependencies tree) ->
    ChildOf c d parentKey ->
    ChildOf tree d parentKey.

Definition InTree (tree d : DependencyNode) : Prop :=
  d = tree \/ exists parentKey, ChildOf tree d parentKey.

(** No node of the tree declares a peer. *)
Definition PeerFree (tree : DependencyNode) : Prop :=
  forall d, InTree tree d -> dn_peerDependencies d = [].

(** Nodes of the same name have the same version. *)
Definition OneVersionPerName (tree : DependencyNode) : Prop :=
  forall d1 d2, InTree tree d1 -> InTree tree d2 ->
    dn_name d1 = dn_name d2 -> dn_version d1 = dn_version d2.

(** Every entry sits under its own name; a root entry has no parent, an
    entry of a bucket has the bucket's path as parent. *)
Definition WellFormedPlan (t : HoistedTree) : Prop :=
  (forall k e, JsMap.get (root t) k = Some e ->
     hd_name e = k /\ hd_parent e = None)
  /\ (forall p bucket k e,
        JsMap.get (nested t) p = Some bucket ->
        JsMap.get bucket k = Some e ->
        hd_name e = k /\ hd_parent e = Some p).

(** The name of [d] has an entry at the root, or in the bucket of
    [parentKey]. *)
Definition placedSomewhere (t : HoistedTree) (d : DependencyNode) (parentKey : string)
  : Prop :=
  JsMap.has (root t) (dn_name d) = true
  \/ exists bucket,
       JsMap.get (nested t) parentKey = Some bucket
       /\ JsMap.has bucket (dn_name d) = true.

(** Every entry of the plan is the record of a node of [tree]: a root
    entry of any node, an entry of a bucket of a dependency of a node with
    the bucket's key. *)
Definition PlanFromTree (tree : DependencyNode) (t : HoistedTree) : Prop :=
  (forall k e, In (k, e) (root t) ->
     exists d, InTree tree d /\ k = dn_name d /\ e = convertToHoistedDep d None)
  /\ (forall p bucket k e,
        In (p, bucket) (nested t) -> In (k, e) bucket ->
        exists d, ChildOf tree d p /\ k = dn_name d
                  /\ e = convertToHoistedDep d (Some p)).


(** [c] and every node below it have a place in the plan. *)
Definition Covered (t : HoistedTree) (c : DependencyNode) (parentKey : string) : Prop :=
  placedSomewhere t c parentKey
  /\ forall x q, ChildOf c x q -> placedSomewhere t x q.

(** No entry of the root declares a peer. *)
Definition RootPeerFree (t : HoistedTree) : Prop :=
  forall k e, In (k, e) (root t) -> hd_peerDependencies e = [].

(** Nothing is nested, and every entry of the root is free of peers and
    carries the version of a node of [tree] of that name. *)
Definition FlatPlanOf (tree : DependencyNode) (t : HoistedTree) : Prop :=
  nested t = []
  /\ forall k e, In (k, e) (root t) ->
       hd_peerDependencies e = []
       /\ exists d, InTree tree d /\ dn_name d = k /\ hd_version e = dn_version d.


(** *** Requests of a multi-package analysis *)

Definition requestKey (pkg : PackageRequest) : string :=
  pr_name pkg ++ "@" ++ pr_version pkg.


(** *** Entries of the flat index *)

(** The entry sits under the key made of its own name and version, and is
    required by at least one path, none of them empty and none of them
    listed twice. *)
Definition EntryWellFormed (k : string) (e : FlatDependency) : Prop :=
  k = fd_name e ++ "@" ++ fd_version e
  /\ fd_requiredBy e <> []
  /\ NoDup (fd_requiredBy e)
  /\ ~ In "" (fd_requiredBy e).

Definition FlatWellFormed (flatDeps : FlatDeps) : Prop :=
  forall k e, In (k, e) flatDeps -> EntryWellFormed k e.


(** *** Where the requirers of the flat index come from *)

(** Every requirer of an entry of [f'] is a requirer of the entry of [f]
    under the same key, or is accounted for by [occ]. *)
Definition RequirersFrom (occ : string -> string -> Prop) (f f' : FlatDeps) : Prop :=
  forall k e' p,
    JsMap.get f' k = Some e' -> In p (fd_requiredBy e') ->
    (exists e, JsMap.get f k = Some e /\ In p (fd_requiredBy e)) \/ occ k p.

(** [k] is the key of a node of [tree], a tree built under [parentPath],
    and [p] is the requirer that node is registered with. *)
Definition occursUnder (tree : DependencyNode) (parentPath : string)
    (k p : string) : Prop :=
  exists d q, OccursAt tree parentPath d q /\ k = nodeKey d /\ p = orRoot q.

(** Every cached package declares each of its dependencies once, as the
    keys of the [dependencies] object of a registry document do. *)
Definition UniqueDeclarations (a : Analyzer) : Prop :=
  forall key info,
    JsMap.get (packageCache a) key = Some info ->
    NoDup (map fst (pi_dependencies info)).


(** *** Depth in the logical tree, indentation on the console *)

(** [AtDepth tree n d]: [d] is a node of [tree], [n] levels below it. *)
Inductive AtDepth : DependencyNode -> nat -> DependencyNode -> Prop :=
| at_top tree :
    AtDepth tree 0 tree
| at_child tree k child n d :
    In (k, child) (dn_dependencies tree) ->
    AtDepth child n d ->
    AtDepth tree (S n) d.

(** [Markers n indent]: [indent] is made of [n] branch markers, and of
    nothing else. *)
Inductive Markers : nat -> string -> Prop :=
| markers_none :
    Markers 0 ""
| markers_more n indent m :
    m = "├── " \/ m = "└── " ->
    Markers n indent ->
    Markers (S n) (m ++ indent).


(** *** Entries of a nested bucket over time *)

(** The bucket of [q] holds an entry under [k]: [e], or the record of a
    node of that name nested under [q] after [e]. *)
Definition NestedSince (t : HoistedTree) (q k : string) (e : HoistedDependency)
  : Prop :=
  exists b e',
    JsMap.get (nested t) q = Some b
    /\ JsMap.get b k = Some e'
    /\ (e' = e
        \/ exists later,
             dn_name later = k /\ e' = convertToHoistedDep later (Some q)).

(** ** Concrete registries used to evaluate the engine *)

Module Fixtures.

Definition npmjs : Config := makeConfig {| registry := None; timeout := None; headers := None |}.

Definition plainRecord (name : string) (deps peers : Entries) : VersionRecord :=
  {| vr_name := name;
     vr_dependencies := Some deps;
     vr_devDependencies := None;
     vr_peerDependencies := Some peers |}.

Definition document (versions : JsMap.t VersionRecord) (tags : JsMap.t string)
  : FetchOutcome :=
  Responded true (Ret {| md_versions := Some versions; md_dist_tags := Some tags |}).

Definition notFound : FetchOutcome :=
  Responded false (Throw (Error "Unexpected token N in JSON at position 0")).

(** One package, [express], with two published versions. *)
Definition expressRegistry : Registry := fun url =>
  if String.eqb url "https://registry.npmjs.org/express" then
    document [("4.17.0", plainRecord "express" [] []);
              ("4.18.2", plainRecord "express" [] [])]
             [("latest", "4.18.2")]
  else notFound.

(** A package whose [next] tag names a version that is not published. *)
Definition danglingRegistry : Registry := fun url =>
  if String.eqb url "https://registry.npmjs.org/pkg" then
    document [("1.0.0", plainRecord "pkg" [] [])]
             [("latest", "1.0.0"); ("next", "2.0.0")]
  else notFound.

Definition leaf (name version : string) (peers : JsMap.t string) : DependencyNode :=
  {| dn_name := name; dn_version := version;
     dn_dependencies := []; dn_peerDependencies := peers |}.

Definition placed (name version : string) : HoistedDependency :=
  {| hd_name := name; hd_version := version;
     hd_dependencies := JsMap.empty; hd_peerDependencies := JsMap.empty;
     hd_parent := None |}.

(** A package that declares a peer on its own name. *)
Definition selfPeer : DependencyNode :=
  leaf "a" "1.0.0" [("a", "^2.0.0")].

(** Scenario S7: A declares the peer react@^18, B depends on react@17.0.2,
    and both are analysed together. *)
Definition scenarioS7 : DependencyNode :=
  virtualRoot
    [("A@1.0.0", leaf "A" "1.0.0" [("react", "^18.0.0")]);
     ("B@1.0.0",
      {| dn_name := "B"; dn_version := "1.0.0";
         dn_dependencies := [("react", leaf "react" "17.0.2" [])];
         dn_peerDependencies := [] |})].

Definition planOf (node : DependencyNode) : HoistedTree :=
  match convertToHoistedTree (sv := MiniSemver.semver) node with
  | Ret t => t
  | Throw _ => emptyTree
  end.

(** The tree of S7 once A and B have been placed. *)
Definition beforeReact : HoistedTree :=
  planOf (virtualRoot
            [("A@1.0.0", leaf "A" "1.0.0" [("react", "^18.0.0")]);
             ("B@1.0.0", leaf "B" "1.0.0" [])]).

(** [app] depends on [a] and [b]; both depend on [c]. *)
Definition diamondRegistry : Registry := fun url =>
  if String.eqb url "https://registry.npmjs.org/app" then
    document [("1.0.0", plainRecord "app" [("a", "^1.0.0"); ("b", "^1.0.0")] [])]
             [("latest", "1.0.0")]
  else if String.eqb url "https://registry.npmjs.org/a" then
    document [("1.0.0", plainRecord "a" [("c", "^1.0.0")] [])] [("latest", "1.0.0")]
  else if String.eqb url "https://registry.npmjs.org/b" then
    document [("1.0.0", plainRecord "b" [("c", "^1.0.0")] [])] [("latest", "1.0.0")]
  else if String.eqb url "https://registry.npmjs.org/c" then
    document [("1.0.0", plainRecord "c" [] []); ("1.1.0", plainRecord "c" [] [])]
             [("latest", "1.1.0")]
  else notFound.

Definition diamondBuild : option (BuildState * exc DependencyNode) :=
  buildDependencyTree (sv := MiniSemver.semver) npmjs diamondRegistry 3
    "app" "1.0.0" "" (newAnalyzer, JsMap.empty).

Definition diamondAnalyzer : Analyzer :=
  Eval vm_compute in
    match diamondBuild with
    | Some ((a, _), _) => a
    | None => newAnalyzer
    end.

Definition diamondFlat : FlatDeps :=
  Eval vm_compute in
    match diamondBuild with
    | Some ((_, flatDeps), _) => flatDeps
    | None => JsMap.empty
    end.

Definition diamondTree : DependencyNode :=
  Eval vm_compute in
    match diamondBuild with
    | Some (_, Ret tree) => tree
    | _ => leaf "" "" []
    end.

Definition diamondRank (key : string) : nat :=
  if String.prefix "app@" key then 2
  else if String.prefix "a@" key then 1
  else if String.prefix "b@" key then 1
  else 0.

(** [ping] depends on [pong] and [pong] on [ping]. *)
Definition cyclicRegistry : Registry := fun url =>
  if String.eqb url "https://registry.npmjs.org/ping" then
    document [("1.0.0", plainRecord "ping" [("pong", "1.0.0")] [])] [("latest", "1.0.0")]
  else if String.eqb url "https://registry.npmjs.org/pong" then
    document [("1.0.0", plainRecord "pong" [("ping", "1.0.0")] [])] [("latest", "1.0.0")]
  else notFound.

Definition diamondOutput : AnalyzeOutput :=
  Eval vm_compute in
    match analyze (sv := MiniSemver.semver) npmjs diamondRegistry 3 newAnalyzer
            (inl "app") (Some "1.0.0") with
    | Some (_, Ret out) => out
    | _ => MultiOutput
             {| individual := JsMap.empty;
                combined := {| co_hoistedTree := emptyTree;
                               co_flatDependencies := JsMap.empty |} |}
    end.

Definition pingInfo : PackageInfo :=
  {| pi_name := Some "ping"; pi_version := "1.0.0";
     pi_dependencies := [("pong", "1.0.0")];
     pi_devDependencies := []; pi_peerDependencies := [] |}.

Definition pongInfo : PackageInfo :=
  {| pi_name := Some "pong"; pi_version := "1.0.0";
     pi_dependencies := [("ping", "1.0.0")];
     pi_devDependencies := []; pi_peerDependencies := [] |}.

(** The cache holds nothing else under the two keys of the cycle than what
    the registry answers. *)
Definition PingPongCache (a : Analyzer) : Prop :=
  (JsMap.get (packageCache a) "ping@1.0.0" = None \/
   JsMap.get (packageCache a) "ping@1.0.0" = Some pingInfo)
  /\ (JsMap.get (packageCache a) "pong@1.0.0" = None \/
      JsMap.get (packageCache a) "pong@1.0.0" = Some pongInfo).

Definition expressRequest : list PackageRequest :=
  [{| pr_name := "express"; pr_version := "4.18.2" |}].

Definition expressMulti : option (Analyzer * exc MultiPackageAnalysisResult) :=
  Eval vm_compute in
    analyzeMultiple (sv := MiniSemver.semver) npmjs expressRegistry 1 newAnalyzer
      expressRequest.

Definition expressMultiAnalyzer : Analyzer :=
  Eval vm_compute in
    match expressMulti with
    | Some (a, _) => a
    | None => newAnalyzer
    end.

Definition expressMultiResult : MultiPackageAnalysisResult :=
  Eval vm_compute in
    match expressMulti with
    | Some (_, Ret r) => r
    | _ => {| individual := JsMap.empty;
              combined := {| co_hoistedTree := emptyTree;
                             co_flatDependencies := JsMap.empty |} |}
    end.

(** [analyze("app", "1.0.0")] on the diamond when every request takes the
    same time: the builds of [a] and [b] start together, their responses
    arrive together, and each build then resolves [c@^1.0.0] before the
    request of the other for [c] has settled. *)
Definition diamondOverlap : list Turn :=
  [Begins "app" "1.0.0"; Settles "app" "1.0.0";
   Begins "a" "^1.0.0"; Begins "b" "^1.0.0";
   Settles "a" "^1.0.0"; Begins "c" "^1.0.0";
   Settles "b" "^1.0.0"; Begins "c" "^1.0.0";
   Settles "c" "^1.0.0"; Settles "c" "^1.0.0"].

(** A package whose dist-tag [*] names an old version. *)
Definition starTagged : Metadata :=
  {| md_versions := Some [("1.0.0", plainRecord "pkg" [] []);
                          ("1.1.0", plainRecord "pkg" [] [])];
     md_dist_tags := Some [("*", "1.0.0")] |}.

(** [app] with dependencies [a] and [b], which both depend on the same
    version of [c]; no peers anywhere. *)
Definition sharedTree : DependencyNode :=
  {| dn_name := "app"; dn_version := "1.0.0";
     dn_dependencies :=
       [("a", {| dn_name := "a"; dn_version := "1.0.0";
                 dn_dependencies := [("c", leaf "c" "1.1.0" [])];
                 dn_peerDependencies := [] |});
        ("b", {| dn_name := "b"; dn_version := "1.0.0";
                 dn_dependencies := [("c", leaf "c" "1.1.0" [])];
                 dn_peerDependencies := [] |})];
     dn_peerDependencies := [] |}.

(** A semver every operation of which throws. *)
Definition brokenSemver : Semver :=
  {| valid := fun _ => Throw (Error "broken");
     validRange := fun _ => Throw (Error "broken");
     satisfies := fun _ _ => Throw (Error "broken");
     maxSatisfying := fun _ _ => Throw (Error "broken") |}.

Definition twoRequests : list PackageRequest :=
  [{| pr_name := "a"; pr_version := "^1.0.0" |};
   {| pr_name := "b"; pr_version := "^1.0.0" |}].

Definition twoMulti : option (Analyzer * exc MultiPackageAnalysisResult) :=
  Eval vm_compute in
    analyzeMultiple (sv := MiniSemver.semver) npmjs diamondRegistry 2 newAnalyzer
      twoRequests.

Definition twoMultiAnalyzer : Analyzer :=
  Eval vm_compute in
    match twoMulti with
    | Some (a, _) => a
    | None => newAnalyzer
    end.

Definition twoMultiResult : MultiPackageAnalysisResult :=
  Eval vm_compute in
    match twoMulti with
    | Some (_, Ret r) => r
    | _ => {| individual := JsMap.empty;
              combined := {| co_hoistedTree := emptyTree;
                             co_flatDependencies := JsMap.empty |} |}
    end.

Definition mirrorConfig : NpmRegistryConfig :=
  {| registry := Some "https://registry.npmmirror.com";
     timeout := Some (Finite 5000 1);
     headers := Some [("User-Agent", "npm-dependency-analyzer-test");
                      ("Accept", "application/vnd.npm.install-v1+json")] |}.

(** The analyzer after [a] and [b] were analysed together and [app] was
    analysed next. *)
Definition afterTwoAnalyzer : Analyzer :=
  Eval vm_compute in
    match analyze (sv := MiniSemver.semver) npmjs diamondRegistry 3 twoMultiAnalyzer
            (inl "app") (Some "1.0.0") with
    | Some (a, _) => a
    | None => twoMultiAnalyzer
    end.

Definition aloneEach : option (Analyzer * exc (JsMap.t AnalysisResult)) :=
  Eval vm_compute in
    analyzeEach (sv := MiniSemver.semver) npmjs diamondRegistry 2 newAnalyzer
      [{| pr_name := "a"; pr_version := "^1.0.0" |}] JsMap.empty.

(** The analyzer and the individual results after [a] alone was analysed. *)
Definition aloneAnalyzer : Analyzer :=
  Eval vm_compute in
    match aloneEach with
    | Some (a, _) => a
    | None => newAnalyzer
    end.

Definition aloneIndividual : JsMap.t AnalysisResult :=
  Eval vm_compute in
    match aloneEach with
    | Some (_, Ret individual) => individual
    | _ => JsMap.empty
    end.

(** An application with [react@18.2.0] and a package [A] that declares the
    peer [react@^18.0.0]. *)
Definition reactApp : DependencyNode :=
  {| dn_name := "app"; dn_version := "1.0.0";
     dn_dependencies :=
       [("react", leaf "react" "18.2.0" []);
        ("A", leaf "A" "1.0.0" [("react", "^18.0.0")])];
     dn_peerDependencies := [] |}.

(** [app] depends on [lodash]; [ping] and [pong], which [app] does not
    reach, depend on each other. *)
Definition tangledRegistry : Registry := fun url =>
  if String.eqb url "https://registry.npmjs.org/app" then
    document [("1.0.0", plainRecord "app" [("lodash", "^4.0.0")] [])]
             [("latest", "1.0.0")]
  else if String.eqb url "https://registry.npmjs.org/lodash" then
    document [("4.17.21", plainRecord "lodash" [] [])] [("latest", "4.17.21")]
  else if String.eqb url "https://registry.npmjs.org/ping" then
    document [("1.0.0", plainRecord "ping" [("pong", "1.0.0")] [])] [("latest", "1.0.0")]
  else if String.eqb url "https://registry.npmjs.org/pong" then
    document [("1.0.0", plainRecord "pong" [("ping", "1.0.0")] [])] [("latest", "1.0.0")]
  else notFound.

(** The keys the build of [app] can come to, and their ranks. *)
Definition tangledReach (key : string) : Prop :=
  String.prefix "app@" key = true \/ String.prefix "lodash@" key = true.

Definition tangledRank (key : string) : nat :=
  if String.prefix "app@" key then 1 else 0.

(** The plan of [react@16.14.0] and [react@17.0.2] analysed together: the
    first is at the root, the second in the bucket of the virtual root. *)
Definition twoReacts : HoistedTree :=
  planOf (virtualRoot
            [("react@16.14.0", leaf "react" "16.14.0" []);
             ("react@17.0.2", leaf "react" "17.0.2" [])]).

End Fixtures.

(** * Properties *)

(** ** Maps *)

Module JsMapFacts.
Section Facts.
Variable V : Type.
Implicit Types (m : JsMap.t V) (k : string) (v : V).

Lemma get_set_same m k v : JsMap.get (JsMap.set m k v) k = Some v.
Proof.
  induction m as [|[k' v'] m IH]; simpl.
  - now rewrite String.eqb_refl.
  - destruct (String.eqb k' k) eqn:E; simpl; rewrite E; auto.
Qed.

Lemma get_set_other m k k' v :
  k <> k' -> JsMap.get (JsMap.set m k v) k' = JsMap.get m k'.
Proof.
  intros Hne. induction m as [|[k0 v0] m IH]; simpl.
  - destruct (String.eqb k k') eqn:E; auto.
    apply String.eqb_eq in E. contradiction.
  - destruct (String.eqb k0 k) eqn:E; simpl.
    + apply String.eqb_eq in E. subst k0.
      destruct (String.eqb k k') eqn:E'; auto.
      apply String.eqb_eq in E'. contradiction.
    + destruct (String.eqb k0 k'); auto.
Qed.

Lemma get_set m k k' v :
  JsMap.get (JsMap.set m k v) k' =
  if String.eqb k k' then Some v else JsMap.get m k'.
Proof.
  destruct (String.eqb k k') eqn:E.
  - apply String.eqb_eq in E. subst. apply get_set_same.
  - apply String.eqb_neq in E. now apply get_set_other.
Qed.

Lemma has_true m k : JsMap.has m k = true <-> exists v, JsMap.get m k = Some v.
Proof.
  unfold JsMap.has. destruct (JsMap.get m k); split; eauto; try discriminate.
  intros [v Hv]. discriminate.
Qed.

Lemma has_false m k : JsMap.has m k = false <-> JsMap.get m k = None.
Proof.
  unfold JsMap.has. destruct (JsMap.get m k); split; auto; discriminate.
Qed.

Lemma get_In m k v : JsMap.get m k = Some v -> In (k, v) m.
Proof.
  induction m as [|[k' v'] m IH]; simpl; [discriminate|].
  destruct (String.eqb k' k) eqn:E.
  - apply String.eqb_eq in E. intros [= ->]. subst. now left.
  - intros H. right. auto.
Qed.

Lemma In_set m k v k' v' :
  In (k', v') (JsMap.set m k v) -> (k' = k /\ v' = v) \/ In (k', v') m.
Proof.
  induction m as [|[k0 v0] m IH]; simpl.
  - intros [[= <- <-]|[]]. now left.
  - destruct (String.eqb k0 k) eqn:E; simpl.
    + apply String.eqb_eq in E. subst k0.
      intros [[= <- <-]|H]; auto.
    + intros [H|H]; auto. destruct (IH H); auto.
Qed.

Lemma In_of_entries_acc (l : list (string * V)) m k v :
  In (k, v) (fold_left (fun m kv => JsMap.set m (fst kv) (snd kv)) l m) ->
  In (k, v) l \/ In (k, v) m.
Proof.
  revert m. induction l as [|[k0 v0] l IH]; simpl; intros m H; auto.
  destruct (IH _ H) as [H'|H']; auto.
  destruct (In_set _ _ _ _ _ H') as [[-> ->]|H'']; auto.
Qed.

Lemma In_of_entries (l : list (string * V)) k v :
  In (k, v) (JsMap.of_entries l) -> In (k, v) l.
Proof.
  intros H. destruct (In_of_entries_acc _ _ _ _ H) as [H'|[]]; auto.
Qed.
End Facts.
End JsMapFacts.

(** ** Version resolver *)

Section ResolverFacts.
Context {sv : Semver}.
Variable config : Config.
Variable reg : Registry.

(** *** The order of selection *)

Lemma truthy_string_true s : truthy_string s = true <-> s <> "".
Proof.
  unfold truthy_string. destruct (String.eqb s "") eqn:E; simpl.
  - apply String.eqb_eq in E. split; [discriminate | intros H; now elim H].
  - apply String.eqb_neq in E. tauto.
Qed.

Lemma truthy_string_false s : truthy_string s = false <-> s = "".
Proof.
  unfold truthy_string. destruct (String.eqb s "") eqn:E; simpl.
  - apply String.eqb_eq in E. tauto.
  - apply String.eqb_neq in E. split; [discriminate | tauto].
Qed.

(** What [matchVersion] returns, case by case. *)
Lemma matchVersion_outcome metadata descriptor :
  match matchVersion metadata descriptor with
  | Throw e => SelectionThrows metadata descriptor e
  | Ret (Some selected) =>
      if truthy_string selected then Selects metadata descriptor selected
      else SelectsNothing metadata descriptor
  | Ret None => SelectsNothing metadata descriptor
  end.
Proof.
  unfold matchVersion. fold (versionsOf metadata). fold (tagOf metadata descriptor).
  destruct (hasMember (versionsOf metadata) descriptor) eqn:Hm.
  - destruct (truthy_string descriptor) eqn:Hd.
    + apply selects_member; [exact Hm | now apply truthy_string_true].
    + apply nothing_for_the_empty_string; [exact Hm | now apply truthy_string_false].
  - destruct (truthy (tagOf metadata descriptor)) eqn:Ht.
    + destruct (tagOf metadata descriptor) as [target|] eqn:Htag; [|discriminate].
      simpl in Ht. rewrite Ht.
      apply selects_tag; [exact Hm | exact Htag | now apply truthy_string_true].
    + assert (Hu : Unlisted metadata descriptor) by (split; assumption).
      destruct (validRange descriptor) as [e|r] eqn:Hr; simpl.
      * now apply throws_in_validRange.
      * destruct (truthy r) eqn:Htr.
        -- destruct (maxSatisfying (JsMap.keys (versionsOf metadata)) descriptor)
             as [e|[best|]] eqn:Hbest.
           ++ eapply throws_in_maxSatisfying; eauto.
           ++ destruct (truthy_string best) eqn:Hb.
              ** eapply selects_range; eauto. now apply truthy_string_true.
              ** eapply nothing_satisfies; eauto.
           ++ eapply nothing_satisfies; eauto.
        -- eapply nothing_for_an_invalid_range; eauto.
Qed.

Lemma matchVersion_selects metadata descriptor selected :
  Selects metadata descriptor selected ->
  matchVersion metadata descriptor = Ret (Some selected)
  /\ truthy_string selected = true.
Proof.
  unfold matchVersion. fold (versionsOf metadata). fold (tagOf metadata descriptor).
  intros [Hm Hne|target Hm Htag Hne|r best [Hm Ht] Hr Htr Hbest Hne].
  - rewrite Hm. split; [reflexivity | now apply truthy_string_true].
  - apply truthy_string_true in Hne. rewrite Hm, Htag. simpl. now rewrite Hne.
  - rewrite Hm, Ht, Hr. simpl. rewrite Htr.
    split; [exact Hbest | now apply truthy_string_true].
Qed.

Lemma matchVersion_selects_nothing metadata descriptor :
  SelectsNothing metadata descriptor ->
  exists mv, matchVersion metadata descriptor = Ret mv /\ truthy mv = false.
Proof.
  unfold matchVersion. fold (versionsOf metadata). fold (tagOf metadata descriptor).
  intros [Hm He|r [Hm Ht] Hr Htr|r best [Hm Ht] Hr Htr Hbest Hb].
  - rewrite Hm. eexists. split; [reflexivity|]. simpl.
    now apply truthy_string_false.
  - rewrite Hm, Ht, Hr. simpl. rewrite Htr. eexists. split; reflexivity.
  - rewrite Hm, Ht, Hr. simpl. rewrite Htr. eauto.
Qed.

Lemma matchVersion_throws metadata descriptor e :
  SelectionThrows metadata descriptor e ->
  matchVersion metadata descriptor = Throw e.
Proof.
  unfold matchVersion. fold (versionsOf metadata). fold (tagOf metadata descriptor).
  intros [e0 [Hm Ht] Hr|r e0 [Hm Ht] Hr Htr Hbest].
  - rewrite Hm, Ht, Hr. reflexivity.
  - rewrite Hm, Ht, Hr. simpl. now rewrite Htr.
Qed.

(** What [readVersion] returns. *)
Lemma readVersion_outcome metadata selected :
  match readVersion metadata selected with
  | Throw _ => Unreadable metadata selected
  | Ret info =>
      exists vs,
        md_versions metadata = Some vs
        /\ pi_version info = selected
        /\ match readMember vs selected with
           | Own vr =>
               pi_name info = Some (vr_name vr)
               /\ pi_dependencies info = orEmpty (vr_dependencies vr)
               /\ pi_devDependencies info = orEmpty (vr_devDependencies vr)
               /\ pi_peerDependencies info = orEmpty (vr_peerDependencies vr)
           | Inherited memberName =>
               pi_name info = memberName
               /\ pi_dependencies info = []
               /\ pi_devDependencies info = []
               /\ pi_peerDependencies info = []
           | Missing => False
           end
  end.
Proof.
  unfold readVersion, Unreadable, hasMember.
  destruct (md_versions metadata) as [vs|]; [|exact I].
  destruct (readMember vs selected) as [vr|memberName|] eqn:E; [| |reflexivity];
    exists vs; rewrite E; simpl; repeat split.
Qed.

Lemma readVersion_unreadable metadata selected :
  Unreadable metadata selected -> exists e, readVersion metadata selected = Throw e.
Proof.
  unfold readVersion, Unreadable, hasMember.
  destruct (md_versions metadata) as [vs|]; [|eauto].
  destruct (readMember vs selected); try discriminate. eauto.
Qed.

(** *** Cache hit and miss *)

Lemma getPackageInfo_hit a name version info :
  JsMap.get (packageCache a) (cacheKey name version) = Some info ->
  getPackageInfo config reg a name version = (a, Ret info).
Proof.
  intros H. unfold getPackageInfo, getPackageInfo_begin.
  now rewrite H.
Qed.

Lemma getPackageInfo_miss a name version :
  JsMap.get (packageCache a) (cacheKey name version) = None ->
  getPackageInfo config reg a name version =
  getPackageInfo_settle
    {| packageCache := packageCache a;
       requests := (requests a ++ [requestUrl config name])%list |}
    name version (reg (requestUrl config name)).
Proof.
  intros H. unfold getPackageInfo, getPackageInfo_begin.
  now rewrite H.
Qed.

Lemma settle_requests a name version out :
  requests (fst (getPackageInfo_settle a name version out)) = requests a.
Proof.
  unfold getPackageInfo_settle.
  destruct (resolveResponse name version out); reflexivity.
Qed.

Lemma settle_throw a name version out e :
  snd (getPackageInfo_settle a name version out) = Throw e <->
  exists c, resolveResponse name version out = Throw c /\
            e = PackageNotFoundError name version (Some c).
Proof.
  unfold getPackageInfo_settle.
  destruct (resolveResponse name version out) as [c|info]; simpl; split.
  - intros [= <-]. eauto.
  - intros (c' & [= <-] & ->). reflexivity.
  - discriminate.
  - intros (c' & Hc & _). discriminate.
Qed.

(** Whatever is thrown inside the [try] block, a missing selection
    included, passes through the [catch] clause and is wrapped there. *)
Lemma getPackageInfo_no_selection a name version metadata mv :
  JsMap.get (packageCache a) (cacheKey name version) = None ->
  reg (requestUrl config name) = Responded true (Ret metadata) ->
  matchVersion metadata version = Ret mv ->
  truthy mv = false ->
  snd (getPackageInfo config reg a name version) =
  Throw (PackageNotFoundError name version
           (Some (PackageNotFoundError name version
                    (Some (Error "No matching version found"))))).
Proof.
  intros Hmiss Hreg Hmatch Hfalsy.
  rewrite (getPackageInfo_miss _ _ _ Hmiss).
  unfold getPackageInfo_settle, resolveResponse.
  rewrite Hreg. simpl. rewrite Hmatch. simpl.
  destruct mv as [s|]; simpl in *; [rewrite Hfalsy|]; reflexivity.
Qed.

(** *** When resolution fails *)

Lemma resolveResponse_throw name version out :
  (exists e, resolveResponse name version out = Throw e) <->
  ResolutionFails version out.
Proof.
  split.
  - intros [e He]. destruct out as [e0|[|] [e0|metadata]]; simpl in He;
      try (now constructor).
    pose proof (matchVersion_outcome metadata version) as Hm.
    destruct (matchVersion metadata version) as [e1|[selected|]]; simpl in He.
    + now apply fails_selecting with (e := e1).
    + destruct (truthy_string selected).
      * apply fails_reading with (selected := selected); [exact Hm|].
        pose proof (readVersion_outcome metadata selected) as Hr.
        rewrite He in Hr. exact Hr.
      * now apply fails_no_selection.
    + now apply fails_no_selection.
  - intros [e|body|e|metadata e Hs|metadata Hn|metadata selected Hs Hu]; simpl; eauto.
    + rewrite (matchVersion_throws Hs). simpl. eauto.
    + destruct (matchVersion_selects_nothing Hn) as (mv & -> & Hf). simpl.
      destruct mv as [s0|]; simpl in *; [rewrite Hf|]; eauto.
    + destruct (matchVersion_selects Hs) as [Hmv Hts]. rewrite Hmv. simpl.
      rewrite Hts. now apply readVersion_unreadable.
Qed.

Lemma resolveResponse_rejected name version e :
  resolveResponse name version (Rejected e) = Throw e.
Proof. reflexivity. Qed.

Lemma resolveResponse_unparsed name version e :
  resolveResponse name version (Responded true (Throw e)) = Throw e.
Proof. reflexivity. Qed.

End ResolverFacts.

Section ResolverClaims.
Context {sv : Semver}.
Variable config : Config.
Variable reg : Registry.

(** C10, as the code has it: on a cache miss the one request issued goes
    to the registry base, a slash, and the package name exactly as it was
    given; no character of the name is percent-encoded. *)
Theorem request_path_is_the_name_as_given a name version :
  JsMap.get (packageCache a) (cacheKey name version) = None ->
  requests (fst (getPackageInfo config reg a name version)) =
  (requests a ++ [(cfg_registry config ++ "/" ++ name)%string])%list.
Proof.
  intros Hmiss. rewrite (getPackageInfo_miss _ _ _ _ _ Hmiss).
  now rewrite settle_requests.
Qed.


End ResolverClaims.

Lemma request_path_is_the_name_as_given_witness :
  requests (fst (getPackageInfo (sv := MiniSemver.semver) Fixtures.npmjs
                   Fixtures.expressRegistry newAnalyzer "@scope/pkg" "1.0.0")) =
  ["https://registry.npmjs.org/@scope/pkg"].
Proof.
  apply (request_path_is_the_name_as_given (sv := MiniSemver.semver)
           Fixtures.npmjs Fixtures.expressRegistry newAnalyzer "@scope/pkg" "1.0.0").
  reflexivity.
Defined.

(** C10 fails on the code: the request for [@scope/pkg] goes to
    [{registry}/@scope/pkg], with the slash as it is. *)
Lemma scoped_name_is_not_percent_encoded :
  requests (fst (getPackageInfo (sv := MiniSemver.semver) Fixtures.npmjs
                   Fixtures.expressRegistry newAnalyzer "@scope/pkg" "1.0.0")) =
  ["https://registry.npmjs.org/@scope/pkg"]
  /\ requestUrl Fixtures.npmjs "@scope/pkg" <> "https://registry.npmjs.org/@scope%2Fpkg".
Proof.
  split; [reflexivity | discriminate].
Qed.

(** C1 at [analyze("express", "invalid-version")]: no version is selected,
    and the error that reaches the caller is the [PackageNotFoundError]
    thrown in the [try] block wrapped in a second one by the [catch]
    clause.  Its cause is not an error with the message
    'No matching version found' but a [PackageNotFoundError]; the error
    with that message is the cause of the cause. *)
Theorem no_match_error_is_wrapped_twice :
  matchVersion (sv := MiniSemver.semver)
    {| md_versions := Some [("4.17.0", Fixtures.plainRecord "express" [] []);
                            ("4.18.2", Fixtures.plainRecord "express" [] [])];
       md_dist_tags := Some [("latest", "4.18.2")] |} "invalid-version" = Ret None
  /\ exists surfaced inner,
       snd (getPackageInfo (sv := MiniSemver.semver) Fixtures.npmjs
              Fixtures.expressRegistry newAnalyzer "express" "invalid-version")
       = Throw surfaced
       /\ cause surfaced = Some inner
       /\ inner = PackageNotFoundError "express" "invalid-version"
                    (Some (Error "No matching version found"))
       /\ message inner <> "No matching version found"
       /\ message surfaced =
          "Package not found: express@invalid-version, Package not found: express@invalid-version, No matching version found".
Proof.
  split; [reflexivity|].
  eexists _, _. split; [reflexivity|]. split; [reflexivity|].
  split; [reflexivity|]. split; [discriminate | reflexivity].
Qed.



(** ** Hoist planner: the conflict predicate *)

Section ConflictFacts.
Context {sv : Semver}.

Lemma truthy_some s : s <> "" -> truthy (Some s) = true.
Proof.
  intros H. simpl. unfold truthy_string.
  apply String.eqb_neq in H. now rewrite H.
Qed.

Lemma orElse_some s d : s <> "" -> orElse (Some s) d = s.
Proof.
  intros H. unfold orElse, truthy_string.
  apply String.eqb_neq in H. now rewrite H.
Qed.

Lemma conflict_same dep1 dep2 :
  hd_version dep1 = dn_version dep2 -> hasVersionConflict dep1 dep2 = false.
Proof.
  intros H. unfold hasVersionConflict. rewrite H, String.eqb_refl. reflexivity.
Qed.

Lemma conflict_both_concrete dep1 dep2 a b :
  isConcrete (hd_version dep1) a -> isConcrete (dn_version dep2) b ->
  a <> b -> hasVersionConflict dep1 dep2 = true.
Proof.
  intros [Ha Hae] [Hb Hbe] Hab. unfold hasVersionConflict.
  destruct (String.eqb (hd_version dep1) (dn_version dep2)) eqn:E.
  - apply String.eqb_eq in E. rewrite E in Ha. congruence.
  - destruct (validRange (hd_version dep1)); cbn [bind]; auto.
    destruct (validRange (dn_version dep2)); cbn [bind]; auto.
    rewrite Ha, Hb. cbn [bind].
    rewrite !(truthy_some Hae), !(truthy_some Hbe). cbn [andb].
    rewrite (orElse_some _ Hae), (orElse_some _ Hbe).
    apply String.eqb_neq in Hab. now rewrite Hab.
Qed.

Lemma conflict_concrete_vs_range dep1 dep2 a r1 rb ok :
  isConcrete (hd_version dep1) a -> validRange (hd_version dep1) = Ret r1 ->
  isRange (dn_version dep2) rb ->
  satisfies a rb = Ret ok ->
  hasVersionConflict dep1 dep2 = negb ok.
Proof.
  intros [Ha Hae] Hr1 [(o & Hb & Hbo) [Hrb Hrbe]] Hs. unfold hasVersionConflict.
  destruct (String.eqb (hd_version dep1) (dn_version dep2)) eqn:E.
  - apply String.eqb_eq in E. rewrite E in Ha. rewrite Ha in Hb.
    injection Hb as <-. rewrite (truthy_some Hae) in Hbo. discriminate.
  - rewrite Hr1, Hrb. cbn [bind]. rewrite Ha, Hb. cbn [bind].
    rewrite !(truthy_some Hae), Hbo. cbn [andb bind].
    rewrite (orElse_some _ Hae), (orElse_some _ Hrbe), Hs. reflexivity.
Qed.

Lemma conflict_range_vs_concrete dep1 dep2 ra b r2 ok :
  isRange (hd_version dep1) ra ->
  isConcrete (dn_version dep2) b -> validRange (dn_version dep2) = Ret r2 ->
  satisfies b ra = Ret ok ->
  hasVersionConflict dep1 dep2 = negb ok.
Proof.
  intros [(o & Ha & Hao) [Hra Hrae]] [Hb Hbe] Hr2 Hs. unfold hasVersionConflict.
  destruct (String.eqb (hd_version dep1) (dn_version dep2)) eqn:E.
  - apply String.eqb_eq in E. rewrite <- E in Hb. rewrite Hb in Ha.
    injection Ha as <-. rewrite (truthy_some Hbe) in Hao. discriminate.
  - rewrite Hra, Hr2. cbn [bind]. rewrite Ha, Hb. cbn [bind].
    rewrite Hao, (truthy_some Hbe). cbn [andb bind].
    rewrite (orElse_some _ Hbe), (orElse_some _ Hrae), Hs. reflexivity.
Qed.

Lemma conflict_neither_concrete dep1 dep2 o1 o2 :
  hd_version dep1 <> dn_version dep2 ->
  valid (hd_version dep1) = Ret o1 -> truthy o1 = false ->
  valid (dn_version dep2) = Ret o2 -> truthy o2 = false ->
  hasVersionConflict dep1 dep2 = true.
Proof.
  intros Hne Ha Hao Hb Hbo. unfold hasVersionConflict.
  apply String.eqb_neq in Hne. rewrite Hne.
  destruct (validRange (hd_version dep1)); cbn [bind]; auto.
  destruct (validRange (dn_version dep2)); cbn [bind]; auto.
  rewrite Ha, Hb. cbn [bind]. rewrite Hao, Hbo. reflexivity.
Qed.

Lemma conflict_parsing_throws dep1 dep2 :
  hd_version dep1 <> dn_version dep2 ->
  parsingThrows (hd_version dep1) \/ parsingThrows (dn_version dep2) ->
  hasVersionConflict dep1 dep2 = true.
Proof.
  intros Hne H. unfold hasVersionConflict.
  apply String.eqb_neq in Hne. rewrite Hne.
  destruct (validRange (hd_version dep1)) as [e1|r1] eqn:R1; simpl; auto.
  destruct (validRange (dn_version dep2)) as [e2|r2] eqn:R2; simpl; auto.
  destruct (valid (hd_version dep1)) as [e3|v1] eqn:V1; simpl; auto.
  destruct (valid (dn_version dep2)) as [e4|v2] eqn:V2; simpl; auto.
  destruct H as [[[e He]|[e He]]|[[e He]|[e He]]]; congruence.
Qed.

(** C2. The conflict predicate on a root entry of version A and a
    candidate of version B: no conflict when the strings are equal;
    conflict when both parse as concrete versions that differ; when one
    parses as a concrete version and the other is a range, conflict exactly
    when the parsed version does not satisfy the range (in the canonical
    form [validRange] gives); conflict when the strings differ and both are
    ranges; conflict when the strings differ and parsing either throws. *)
Theorem hasVersionConflict_cases dep1 dep2 :
  let A := hd_version dep1 in
  let B := dn_version dep2 in
  (A = B -> hasVersionConflict dep1 dep2 = false)
  /\ (forall a b, isConcrete A a -> isConcrete B b -> a <> b ->
      hasVersionConflict dep1 dep2 = true)
  /\ (forall a r1 rb ok,
      isConcrete A a -> validRange A = Ret r1 -> isRange B rb ->
      satisfies a rb = Ret ok ->
      (hasVersionConflict dep1 dep2 = true <-> ok = false))
  /\ (forall ra b r2 ok,
      isRange A ra -> isConcrete B b -> validRange B = Ret r2 ->
      satisfies b ra = Ret ok ->
      (hasVersionConflict dep1 dep2 = true <-> ok = false))
  /\ (forall ra rb, A <> B -> isRange A ra -> isRange B rb ->
      hasVersionConflict dep1 dep2 = true)
  /\ (A <> B -> parsingThrows A \/ parsingThrows B ->
      hasVersionConflict dep1 dep2 = true).
Proof.
  intros A B. subst A B.
  split; [apply conflict_same|].
  split; [intros a b; apply conflict_both_concrete|].
  split.
  { intros a r1 rb ok Ha Hr1 Hb Hs.
    rewrite (conflict_concrete_vs_range _ _ Ha Hr1 Hb Hs).
    destruct ok; simpl; split; congruence. }
  split.
  { intros ra b r2 ok Ha Hb Hr2 Hs.
    rewrite (conflict_range_vs_concrete _ _ Ha Hb Hr2 Hs).
    destruct ok; simpl; split; congruence. }
  split.
  { intros ra rb Hne [(o1 & Ha & Hao) _] [(o2 & Hb & Hbo) _].
    eapply conflict_neither_concrete; eauto. }
  apply conflict_parsing_throws.
Qed.

End ConflictFacts.

Lemma hasVersionConflict_cases_witness :
  hasVersionConflict (sv := MiniSemver.semver)
    (Fixtures.placed "react" "18.2.0") (Fixtures.leaf "react" "18.2.0" []) = false
  /\ hasVersionConflict (sv := MiniSemver.semver)
       (Fixtures.placed "react" "18.2.0") (Fixtures.leaf "react" "17.0.2" []) = true
  /\ (hasVersionConflict (sv := MiniSemver.semver)
        (Fixtures.placed "react" "18.2.0") (Fixtures.leaf "react" "^18.0.0" []) = true
      <-> true = false)
  /\ (hasVersionConflict (sv := MiniSemver.semver)
        (Fixtures.placed "react" "^18.0.0") (Fixtures.leaf "react" "17.0.2" []) = true
      <-> false = false)
  /\ hasVersionConflict (sv := MiniSemver.semver)
       (Fixtures.placed "react" "^17.0.0") (Fixtures.leaf "react" "^18.0.0" []) = true
  /\ hasVersionConflict (sv := StrictSemver.semver)
       (Fixtures.placed "react" "18.2.0") (Fixtures.leaf "react" "latest" []) = true.
Proof.
  split; [|split; [|split; [|split; [|split]]]].
  - apply (hasVersionConflict_cases (sv := MiniSemver.semver)
             (Fixtures.placed "react" "18.2.0") (Fixtures.leaf "react" "18.2.0" [])).
    reflexivity.
  - apply (proj1 (proj2 (hasVersionConflict_cases (sv := MiniSemver.semver)
             (Fixtures.placed "react" "18.2.0") (Fixtures.leaf "react" "17.0.2" [])))
             "18.2.0" "17.0.2").
    + split; [reflexivity | discriminate].
    + split; [reflexivity | discriminate].
    + discriminate.
  - apply (proj1 (proj2 (proj2 (hasVersionConflict_cases (sv := MiniSemver.semver)
             (Fixtures.placed "react" "18.2.0") (Fixtures.leaf "react" "^18.0.0" []))))
             "18.2.0" (Some "18.2.0") ">=18.0.0 <19.0.0-0" true).
    + split; [reflexivity | discriminate].
    + reflexivity.
    + split; [exists None; split; reflexivity |
              split; [reflexivity | discriminate]].
    + reflexivity.
  - apply (proj1 (proj2 (proj2 (proj2 (hasVersionConflict_cases (sv := MiniSemver.semver)
             (Fixtures.placed "react" "^18.0.0") (Fixtures.leaf "react" "17.0.2" [])))))
             ">=18.0.0 <19.0.0-0" "17.0.2" (Some "17.0.2") false).
    + split; [exists None; split; reflexivity |
              split; [reflexivity | discriminate]].
    + split; [reflexivity | discriminate].
    + reflexivity.
    + reflexivity.
  - apply (proj1 (proj2 (proj2 (proj2 (proj2 (hasVersionConflict_cases
             (sv := MiniSemver.semver)
             (Fixtures.placed "react" "^17.0.0") (Fixtures.leaf "react" "^18.0.0" []))))))
             ">=17.0.0 <18.0.0-0" ">=18.0.0 <19.0.0-0").
    + discriminate.
    + split; [exists None; split; reflexivity |
              split; [reflexivity | discriminate]].
    + split; [exists None; split; reflexivity |
              split; [reflexivity | discriminate]].
  - apply (proj2 (proj2 (proj2 (proj2 (proj2 (hasVersionConflict_cases
             (sv := StrictSemver.semver)
             (Fixtures.placed "react" "18.2.0") (Fixtures.leaf "react" "latest" []))))))).
    + discriminate.
    + right. left. eexists. reflexivity.
Defined.

(** ** Hoist planner: the placement walk *)

Section PlannerFacts.
Context {sv : Semver}.

Lemma DependencyNode_induction (P : DependencyNode -> Prop) :
  (forall name version deps peers,
     Forall (fun nd => P (snd nd)) deps ->
     P (mkDependencyNode name version deps peers)) ->
  forall node, P node.
Proof.
  intros step. fix IH 1. intros [name version deps peers]. apply step.
  induction deps as [|[k d] deps IHdeps]; constructor; [apply IH | exact IHdeps].
Qed.

Lemma processNode_eq t node parentPath isRoot :
  processNode t node parentPath isRoot =
  let nodeKey := dn_name node ++ "@" ++ dn_version node in
  if isRoot then processDeps nodeKey (hoist t node) (dn_dependencies node)
  else
    t' <- placeNode t node parentPath ;;
    processDeps nodeKey t' (dn_dependencies node).
Proof. destruct node; reflexivity. Qed.

Lemma bind_ret {A B} (c : exc A) (k : A -> exc B) b :
  bind c k = Ret b -> exists a, c = Ret a /\ k a = Ret b.
Proof. destruct c; simpl; [discriminate | eauto]. Qed.

(** A property of the hoisted tree that every placement keeps is kept by
    the whole walk. *)
Section WalkInvariant.
Variable Inv : HoistedTree -> Prop.
Hypothesis place_keeps :
  forall t d p t', placeNode t d p = Ret t' -> Inv t -> Inv t'.

Lemma processNode_keeps node :
  forall t p t', processNode t node p false = Ret t' -> Inv t -> Inv t'.
Proof.
  induction node as [name version deps peers IH] using DependencyNode_induction.
  intros t p t' Hrun Ht. rewrite processNode_eq in Hrun. simpl in Hrun.
  apply bind_ret in Hrun. destruct Hrun as (t1 & Hplace & Hdeps).
  apply place_keeps in Hplace; auto. clear Ht.
  revert t1 Hplace Hdeps.
  induction IH as [|[k d] deps Hd _ IHdeps]; intros t1 Ht1 Hdeps; simpl in Hdeps.
  - now injection Hdeps as <-.
  - apply bind_ret in Hdeps. destruct Hdeps as (t2 & Hd2 & Hrest).
    eapply IHdeps; [|exact Hrest]. eapply Hd; eauto.
Qed.

Lemma processDeps_keeps key deps :
  forall t t', processDeps key t deps = Ret t' -> Inv t -> Inv t'.
Proof.
  induction deps as [|[k d] deps IH]; intros t t' Hrun Ht; simpl in Hrun.
  - now injection Hrun as <-.
  - apply bind_ret in Hrun. destruct Hrun as (t2 & Hd2 & Hrest).
    eapply IH; [exact Hrest|]. eapply processNode_keeps; eauto.
Qed.

End WalkInvariant.

(** *** What a placement does *)

Lemma nest_places t d p : nestedUnder (nest t d p) p d.
Proof.
  unfold nestedUnder, nest. simpl. eexists. split.
  - apply JsMapFacts.get_set_same.
  - apply JsMapFacts.get_set_same.
Qed.

Lemma hoist_places t d :
  JsMap.get (root (hoist t d)) (dn_name d) = Some (convertToHoistedDep d None)
  /\ nested (hoist t d) = nested t.
Proof.
  split; [apply JsMapFacts.get_set_same | reflexivity].
Qed.

Lemma placeNode_cases t d p t' :
  placeNode t d p = Ret t' ->
  (t' = nest t d p /\ (conflictsAtRoot t d \/ canBeHoisted t d = Ret false))
  \/ (~ conflictsAtRoot t d /\ canBeHoisted t d = Ret true /\
      JsMap.get (root t) (dn_name d) = None /\ t' = hoist t d)
  \/ (~ conflictsAtRoot t d /\ canBeHoisted t d = Ret true /\
      (exists existing, JsMap.get (root t) (dn_name d) = Some existing) /\ t' = t).
Proof.
  unfold placeNode, conflictsAtRoot.
  destruct (JsMap.get (root t) (dn_name d)) as [existing|] eqn:Hget.
  - destruct (hasVersionConflict existing d) eqn:Hc.
    + intros [= <-]. left. split; eauto.
    + intros H. apply bind_ret in H. destruct H as ([|] & Hcan & [= <-]).
      * right. right. repeat split; eauto.
        intros (e & [= <-] & He). congruence.
      * left. split; auto.
  - intros H. apply bind_ret in H. destruct H as ([|] & Hcan & [= <-]).
    + right. left. repeat split; auto. intros (e & He & _). discriminate.
    + left. split; auto.
Qed.

(** C4. A node that is not the root of the logical tree, reached by the
    walk with parent path [parentPath]: it goes into the bucket of its
    parent path only if the root already holds its name in a conflicting
    version or the hoisting check fails; otherwise it is set at the root
    when its name is absent there, and when its name is present the tree is
    left as it is.  [t'] is the tree once the node is placed, before its
    own dependencies are walked. *)
Theorem placement_is_minimal t d parentPath final :
  processNode t d parentPath false = Ret final ->
  exists t',
    placeNode t d parentPath = Ret t'
    /\ processDeps (dn_name d ++ "@" ++ dn_version d) t' (dn_dependencies d)
       = Ret final
    /\ ((t' = nest t d parentPath /\ nestedUnder t' parentPath d /\
         (conflictsAtRoot t d \/ canBeHoisted t d = Ret false))
        \/ (~ conflictsAtRoot t d /\ canBeHoisted t d = Ret true /\
            ((JsMap.get (root t) (dn_name d) = None /\
              JsMap.get (root t') (dn_name d) = Some (convertToHoistedDep d None) /\
              nested t' = nested t)
             \/ ((exists existing, JsMap.get (root t) (dn_name d) = Some existing) /\
                 t' = t)))).
Proof.
  rewrite processNode_eq. cbv zeta. intros H.
  apply bind_ret in H. destruct H as (t' & Hplace & Hdeps).
  exists t'. split; [exact Hplace|]. split; [exact Hdeps|].
  destruct (placeNode_cases _ _ _ Hplace)
    as [[-> Hwhy]|[(Hn & Hc & Habs & ->)|(Hn & Hc & Hex & ->)]].
  - left. split; [reflexivity|]. split; [apply nest_places | exact Hwhy].
  - right. split; [exact Hn|]. split; [exact Hc|]. left.
    split; [exact Habs|]. apply hoist_places.
  - right. split; [exact Hn|]. split; [exact Hc|]. right. split; auto.
Qed.

(** *** Peers at the root *)

Lemma rootPeersAccept_true entries dep :
  rootPeersAccept entries dep = Ret true ->
  forall k h required,
    In (k, h) entries ->
    JsMap.get (hd_peerDependencies h) (dn_name dep) = Some required ->
    satisfies (dn_version dep) required = Ret true.
Proof.
  induction entries as [|[k0 h0] entries IH]; simpl; intros Hrun k h required Hin Hget.
  - contradiction.
  - destruct Hin as [[= -> ->]|Hin].
    + rewrite Hget in Hrun. apply bind_ret in Hrun.
      destruct Hrun as ([|] & Hs & Hrest); [exact Hs | discriminate].
    + destruct (JsMap.get (hd_peerDependencies h0) (dn_name dep)).
      * apply bind_ret in Hrun. destruct Hrun as ([|] & Hs & Hrest);
          [eauto | discriminate].
      * eauto.
Qed.

Lemma ownPeersSatisfied_true rootMap peers :
  ownPeersSatisfied rootMap peers = Ret true ->
  forall peerName peerVersion e,
    In (peerName, peerVersion) peers ->
    JsMap.get rootMap peerName = Some e ->
    satisfies (hd_version e) peerVersion = Ret true.
Proof.
  induction peers as [|[n0 v0] peers IH]; simpl; intros Hrun peerName peerVersion e Hin Hget.
  - contradiction.
  - destruct Hin as [[= -> ->]|Hin].
    + rewrite Hget in Hrun. apply bind_ret in Hrun.
      destruct Hrun as ([|] & Hs & Hrest); [exact Hs | discriminate].
    + destruct (JsMap.get rootMap n0).
      * apply bind_ret in Hrun. destruct Hrun as ([|] & Hs & Hrest);
          [eauto | discriminate].
      * eauto.
Qed.

Lemma canBeHoisted_true t dep :
  canBeHoisted t dep = Ret true ->
  rootPeersAccept (root t) dep = Ret true /\
  ownPeersSatisfied (root t) (dn_peerDependencies dep) = Ret true.
Proof.
  unfold canBeHoisted. intros H. apply bind_ret in H.
  destruct H as ([|] & H1 & H2); [auto | discriminate].
Qed.

Lemma hoist_keeps_invariant t d :
  JsMap.get (root t) (dn_name d) = None ->
  canBeHoisted t d = Ret true ->
  RootInvariant t -> RootInvariant (hoist t d).
Proof.
  intros Habs Hcan [Hkey Hpeer].
  apply canBeHoisted_true in Hcan. destruct Hcan as [Hacc Hown].
  split.
  - intros k r. unfold hoist. simpl. rewrite JsMapFacts.get_set.
    destruct (String.eqb (dn_name d) k) eqn:E.
    + apply String.eqb_eq in E. intros [= <-]. exact E.
    + apply Hkey.
  - intros k r peerName peerRange Hr Hp Hne e He.
    unfold hoist in Hr, He. simpl in Hr, He.
    rewrite JsMapFacts.get_set in Hr, He.
    destruct (String.eqb (dn_name d) k) eqn:Ek.
    + injection Hr as <-. simpl in Hp, Hne.
      apply String.eqb_neq in Hne. rewrite String.eqb_sym in Hne.
      rewrite Hne in He.
      eapply ownPeersSatisfied_true; eauto.
      now apply JsMapFacts.get_In.
    + destruct (String.eqb (dn_name d) peerName) eqn:Ep.
      * injection He as <-. simpl. apply String.eqb_eq in Ep. subst peerName.
        eapply rootPeersAccept_true; eauto.
        apply JsMapFacts.get_In. exact Hr.
      * exact (Hpeer k r peerName peerRange Hr Hp Hne e He).
Qed.

Lemma placeNode_keeps_invariant t d p t' :
  placeNode t d p = Ret t' -> RootInvariant t -> RootInvariant t'.
Proof.
  intros H Hinv. destruct (placeNode_cases _ _ _ H)
    as [[-> _]|[(_ & Hc & Habs & ->)|(_ & _ & _ & ->)]]; auto.
  now apply hoist_keeps_invariant.
Qed.

Lemma placeNode_keeps_root_entry k e t d p t' :
  placeNode t d p = Ret t' ->
  JsMap.get (root t) k = Some e -> JsMap.get (root t') k = Some e.
Proof.
  intros H Hget. destruct (placeNode_cases _ _ _ H)
    as [[-> _]|[(_ & Hc & Habs & ->)|(_ & _ & _ & ->)]]; auto.
  unfold hoist. simpl. rewrite JsMapFacts.get_set.
  destruct (String.eqb (dn_name d) k) eqn:E; auto.
  apply String.eqb_eq in E. congruence.
Qed.

(** C3, as the code has it: in every tree the planner produces, a peer
    that a root entry declares on a package other than itself is satisfied
    by the root entry of that package, when there is one.  For a peer that
    an entry declares on its own name this can fail. *)
Theorem root_peers_on_others_are_satisfied node t :
  convertToHoistedTree node = Ret t -> PeerSatisfactionOfOthers t.
Proof.
  unfold convertToHoistedTree. rewrite processNode_eq. simpl. intros Hrun.
  apply (processDeps_keeps RootInvariant placeNode_keeps_invariant) in Hrun.
  - apply Hrun.
  - split.
    + intros k r. unfold hoist. simpl.
      destruct (String.eqb (dn_name node) k) eqn:E; [|discriminate].
      apply String.eqb_eq in E. intros [= <-]. exact E.
    + intros k r peerName peerRange Hr Hp Hne e He.
      unfold hoist in Hr, He. simpl in Hr, He.
      destruct (String.eqb (dn_name node) k); [|discriminate].
      injection Hr as <-. simpl in Hne.
      apply String.eqb_neq in Hne. rewrite String.eqb_sym in Hne.
      rewrite Hne in He. discriminate.
Qed.

End PlannerFacts.

Lemma root_peers_on_others_are_satisfied_witness :
  JsMap.get (root (Fixtures.planOf Fixtures.reactApp)) "A"
  = Some (convertToHoistedDep
            (Fixtures.leaf "A" "1.0.0" [("react", "^18.0.0")]) None)
  /\ JsMap.get (root (Fixtures.planOf Fixtures.reactApp)) "react"
     = Some (convertToHoistedDep (Fixtures.leaf "react" "18.2.0" []) None)
  /\ peerHolds (sv := MiniSemver.semver) (Fixtures.planOf Fixtures.reactApp)
       "react" "^18.0.0".
Proof.
  split; [reflexivity|]. split; [reflexivity|].
  apply (@root_peers_on_others_are_satisfied MiniSemver.semver Fixtures.reactApp
           (Fixtures.planOf Fixtures.reactApp) eq_refl
           "A" (convertToHoistedDep
                  (Fixtures.leaf "A" "1.0.0" [("react", "^18.0.0")]) None)
           "react" "^18.0.0" eq_refl eq_refl).
  discriminate.
Defined.

(** C3 fails on the code: a package that declares a peer on its own name,
    in a range its own version does not satisfy, is placed at the root,
    where the entry under that name is the package itself. *)
Lemma self_peer_is_not_satisfied :
  exists t,
    convertToHoistedTree (sv := MiniSemver.semver) Fixtures.selfPeer = Ret t
    /\ ~ PeerSatisfaction (sv := MiniSemver.semver) t.
Proof.
  eexists. split; [reflexivity|].
  intros H.
  specialize (H "a" _ "a" "^2.0.0" eq_refl eq_refl _ eq_refl).
  discriminate H.
Qed.

Lemma placement_is_minimal_witness :
  let t := Fixtures.beforeReact in
  let d := Fixtures.leaf "react" "17.0.2" [] in
  exists t',
    placeNode (sv := MiniSemver.semver) t d "B@1.0.0" = Ret t'
    /\ processDeps (sv := MiniSemver.semver) (dn_name d ++ "@" ++ dn_version d) t'
         (dn_dependencies d)
       = Ret (nest t d "B@1.0.0")
    /\ ((t' = nest t d "B@1.0.0" /\ nestedUnder t' "B@1.0.0" d /\
         (conflictsAtRoot (sv := MiniSemver.semver) t d \/
          canBeHoisted (sv := MiniSemver.semver) t d = Ret false))
        \/ (~ conflictsAtRoot (sv := MiniSemver.semver) t d /\
            canBeHoisted (sv := MiniSemver.semver) t d = Ret true /\
            ((JsMap.get (root t) (dn_name d) = None /\
              JsMap.get (root t') (dn_name d) = Some (convertToHoistedDep d None) /\
              nested t' = nested t)
             \/ ((exists existing, JsMap.get (root t) (dn_name d) = Some existing) /\
                 t' = t)))).
Proof.
  apply (@placement_is_minimal MiniSemver.semver Fixtures.beforeReact
           (Fixtures.leaf "react" "17.0.2" []) "B@1.0.0"
           (nest Fixtures.beforeReact (Fixtures.leaf "react" "17.0.2" []) "B@1.0.0")).
  reflexivity.
Defined.

(** ** Analyzer: the multi-package entry point *)

Section AnalyzerFacts.
Context {sv : Semver}.
Variable config : Config.
Variable reg : Registry.

Lemma virtual_root_stays deps t :
  convertToHoistedTree (virtualRoot deps) = Ret t ->
  JsMap.get (root t) "virtual-root" =
  Some (convertToHoistedDep (virtualRoot deps) None).
Proof.
  unfold convertToHoistedTree. rewrite processNode_eq. simpl. intros Hrun.
  apply (processDeps_keeps
           (fun t => JsMap.get (root t) "virtual-root" =
                     Some (convertToHoistedDep (virtualRoot deps) None))) in Hrun;
    auto.
  intros t0 d p t1 Hplace Hget.
  eapply placeNode_keeps_root_entry; eauto.
Qed.

(** C7, as the code has it: for an empty packages array the individual
    map and the combined flat map are empty, nothing is nested, and the
    root of the combined hoisted tree holds exactly one entry, the virtual
    root itself; for any packages array the virtual root is an entry of the
    combined root. *)
Theorem empty_analysis_holds_the_virtual_root fuel a :
  analyzeMultiple config reg fuel a [] =
  Some (a, Ret {| individual := JsMap.empty;
                  combined :=
                    {| co_hoistedTree :=
                         {| root :=
                              [("virtual-root",
                                {| hd_name := "virtual-root";
                                   hd_version := "0.0.0";
                                   hd_dependencies := JsMap.empty;
                                   hd_peerDependencies := JsMap.empty;
                                   hd_parent := None |})];
                            nested := JsMap.empty |};
                       co_flatDependencies := JsMap.empty |} |})
  /\ (forall packages a' r,
        analyzeMultiple config reg fuel a packages = Some (a', Ret r) ->
        exists e,
          JsMap.get (root (co_hoistedTree (combined r))) "virtual-root" = Some e
          /\ hd_name e = "virtual-root" /\ hd_version e = "0.0.0"
          /\ hd_parent e = None).
Proof.
  split; [reflexivity|].
  intros packages a' r. unfold analyzeMultiple.
  destruct (analyzeEach config reg fuel a packages JsMap.empty)
    as [[a1 [e|individual]]|]; try discriminate.
  intros [= <- Hr]. apply bind_ret in Hr. destruct Hr as (t & Ht & [= <-]).
  simpl. apply virtual_root_stays in Ht. rewrite Ht. eexists. split; [reflexivity|].
  repeat split.
Qed.

End AnalyzerFacts.

Lemma empty_analysis_holds_the_virtual_root_witness :
  exists e,
    JsMap.get (root (co_hoistedTree (combined Fixtures.expressMultiResult)))
      "virtual-root" = Some e
    /\ hd_name e = "virtual-root" /\ hd_version e = "0.0.0"
    /\ hd_parent e = None.
Proof.
  apply (proj2 (@empty_analysis_holds_the_virtual_root MiniSemver.semver
                  Fixtures.npmjs Fixtures.expressRegistry 1 newAnalyzer)
           Fixtures.expressRequest Fixtures.expressMultiAnalyzer
           Fixtures.expressMultiResult).
  reflexivity.
Defined.

(** C7 fails on the code: the combined root of the empty analysis is not
    empty, it holds the virtual root. *)
Lemma empty_analysis_root_is_not_empty :
  exists r,
    analyzeMultiple (sv := MiniSemver.semver) Fixtures.npmjs Fixtures.expressRegistry
      0 newAnalyzer [] = Some (newAnalyzer, Ret r)
    /\ JsMap.has (root (co_hoistedTree (combined r))) "virtual-root" = true
    /\ root (co_hoistedTree (combined r)) <> JsMap.empty.
Proof.
  eexists. split; [reflexivity|]. split; [reflexivity | discriminate].
Qed.

(** ** Tree builder: the flat index *)

Section FlatIndexFacts.
Context {sv : Semver}.
Variable config : Config.
Variable reg : Registry.

Lemma JsSet_add_In s x : In x (JsSet.add s x).
Proof.
  unfold JsSet.add, JsSet.has. destruct (existsb (String.eqb x) s) eqn:E.
  - apply existsb_exists in E. destruct E as (y & Hy & Heq).
    apply String.eqb_eq in Heq. now subst.
  - apply in_or_app. right. now left.
Qed.

Lemma JsSet_add_incl s x : incl s (JsSet.add s x).
Proof.
  unfold JsSet.add. destruct (JsSet.has s x).
  - apply incl_refl.
  - apply incl_appl, incl_refl.
Qed.

Lemma flatGrows_refl f : flatGrows f f.
Proof. intros k e H. exists e. split; [exact H | apply incl_refl]. Qed.

Lemma flatGrows_trans f g h : flatGrows f g -> flatGrows g h -> flatGrows f h.
Proof.
  intros Hfg Hgh k e H. destruct (Hfg _ _ H) as (e1 & H1 & I1).
  destruct (Hgh _ _ H1) as (e2 & H2 & I2).
  exists e2. split; [exact H2 | eapply incl_tran; eauto].
Qed.

Lemma requiredAt_grows f f' d q :
  flatGrows f f' -> requiredAt f d q -> requiredAt f' d q.
Proof.
  intros Hg (e & He & Hin). destruct (Hg _ _ He) as (e' & He' & Hincl).
  exists e'. split; [exact He' | now apply Hincl].
Qed.

Lemma registerFlat_grows flat name version parentPath :
  flatGrows flat (registerFlat flat name version parentPath).
Proof.
  intros k e Hk. unfold registerFlat.
  destruct (JsMap.get flat (name ++ "@" ++ version)) as [dep|] eqn:Hget;
    rewrite JsMapFacts.get_set;
    destruct (String.eqb (name ++ "@" ++ version) k) eqn:E.
  - apply String.eqb_eq in E. subst k. rewrite Hk in Hget. injection Hget as <-.
    eexists. split; [reflexivity|]. simpl. apply JsSet_add_incl.
  - exists e. split; [exact Hk | apply incl_refl].
  - apply String.eqb_eq in E. subst k. congruence.
  - exists e. split; [exact Hk | apply incl_refl].
Qed.

Lemma registerFlat_registers flat name version parentPath :
  exists e,
    JsMap.get (registerFlat flat name version parentPath) (name ++ "@" ++ version)
    = Some e
    /\ In (orRoot parentPath) (fd_requiredBy e).
Proof.
  unfold registerFlat.
  destruct (JsMap.get flat (name ++ "@" ++ version)) as [dep|];
    rewrite JsMapFacts.get_set_same; eexists; (split; [reflexivity|]); simpl.
  - apply JsSet_add_In.
  - now left.
Qed.

(** The builds of the dependencies, given what one build does. *)
Lemma buildAll_registers
    (build : string -> string -> BuildState -> option (BuildState * exc DependencyNode))
    (currentPath : string) :
  (forall n v s s' c,
     build n v s = Some (s', Ret c) ->
     flatGrows (snd s) (snd s') /\
     forall d q, OccursAt c currentPath d q -> requiredAt (snd s') d q) ->
  forall deps s s' results,
    buildAll build deps s = Some (s', Ret results) ->
    flatGrows (snd s) (snd s') /\
    forall k c, In (k, c) results ->
      forall d q, OccursAt c currentPath d q -> requiredAt (snd s') d q.
Proof.
  intros Hbuild. induction deps as [|[depName depVersion] deps IH];
    intros s s' results Hrun; simpl in Hrun.
  - injection Hrun as <- <-. split; [apply flatGrows_refl | intros k c []].
  - destruct (build depName depVersion s) as [[s1 [e|depNode]]|] eqn:Hone;
      try discriminate.
    destruct (buildAll build deps s1) as [[s2 [e|rest]]|] eqn:Hrest;
      try discriminate.
    injection Hrun as <- <-.
    destruct (Hbuild _ _ _ _ _ Hone) as [G1 R1].
    destruct (IH _ _ _ Hrest) as [G2 R2].
    split; [eapply flatGrows_trans; eauto|].
    intros k c [[= <- <-]|Hin] d q Hocc.
    + eapply requiredAt_grows; [exact G2|]. now apply R1.
    + eapply R2; eauto.
Qed.

Lemma buildDependencyTree_registers fuel :
  forall name version parentPath s s' tree,
    buildDependencyTree config reg fuel name version parentPath s
    = Some (s', Ret tree) ->
    flatGrows (snd s) (snd s') /\
    forall d q, OccursAt tree parentPath d q -> requiredAt (snd s') d q.
Proof.
  induction fuel as [|fuel IH]; intros name version parentPath s s' tree Hrun;
    simpl in Hrun; [discriminate|].
  destruct (getPackageInfo config reg (fst s) name version) as [a1 [e|info]];
    [discriminate|].
  match type of Hrun with
  | match buildAll ?b ?deps ?s0 with _ => _ end = _ =>
      destruct (buildAll b deps s0) as [[s2 [e|results]]|] eqn:Hall;
        try discriminate
  end.
  injection Hrun as <- <-.
  apply buildAll_registers with (currentPath := pathOf parentPath name (pi_version info))
    in Hall; [|intros; eapply IH; eauto].
  destruct Hall as [G R]. simpl in G.
  split.
  - eapply flatGrows_trans; [apply registerFlat_grows | exact G].
  - intros d q Hocc. inversion Hocc as [|? ? key child ? ? Hin Hsub]; subst.
    + eapply requiredAt_grows; [exact G|]. apply registerFlat_registers.
    + simpl in Hin, Hsub. apply JsMapFacts.In_of_entries in Hin. eauto.
Qed.

(** C5. Every node of the logical tree that a build returns has an
    entry in the flat index under ["name@version"], and the entry's
    [requiredBy] holds the parent path under which that occurrence was
    built, or ["root"] when that path is empty. *)
Theorem flat_index_covers_the_tree fuel name version parentPath a flatDeps a' flatDeps' tree :
  buildDependencyTree config reg fuel name version parentPath (a, flatDeps)
  = Some ((a', flatDeps'), Ret tree) ->
  forall d q,
    OccursAt tree parentPath d q ->
    exists entry,
      JsMap.get flatDeps' (dn_name d ++ "@" ++ dn_version d) = Some entry
      /\ In (if truthy_string q then q else "root") (fd_requiredBy entry).
Proof.
  intros Hrun d q Hocc.
  apply buildDependencyTree_registers in Hrun. destruct Hrun as [_ R].
  exact (R d q Hocc).
Qed.

End FlatIndexFacts.

Lemma flat_index_covers_the_tree_witness :
  exists entry,
    JsMap.get Fixtures.diamondFlat "c@1.1.0" = Some entry
    /\ In "app@1.0.0 > b@1.0.0" (fd_requiredBy entry).
Proof.
  apply (@flat_index_covers_the_tree MiniSemver.semver
           Fixtures.npmjs Fixtures.diamondRegistry 3 "app" "1.0.0" ""
           newAnalyzer JsMap.empty Fixtures.diamondAnalyzer Fixtures.diamondFlat
           Fixtures.diamondTree eq_refl
           (Fixtures.leaf "c" "1.1.0" []) "app@1.0.0 > b@1.0.0").
  eapply occurs_below; [right; left; reflexivity|].
  eapply occurs_below; [left; reflexivity|].
  apply occurs_here.
Defined.

(** ** The cache across resolutions *)

Section CacheFacts.
Context {sv : Semver}.
Variable config : Config.
Variable reg : Registry.

Lemma cacheExtends_refl a : cacheExtends a a.
Proof. intros k info H. exact H. Qed.

Lemma cacheExtends_trans a b c :
  cacheExtends a b -> cacheExtends b c -> cacheExtends a c.
Proof. intros Hab Hbc k info H. auto. Qed.

Lemma getPackageInfo_extends a name version :
  cacheExtends a (fst (getPackageInfo config reg a name version)).
Proof.
  destruct (JsMap.get (packageCache a) (cacheKey name version)) as [info|] eqn:Hc.
  - rewrite (getPackageInfo_hit _ _ _ _ _ Hc). apply cacheExtends_refl.
  - rewrite (getPackageInfo_miss _ _ _ _ _ Hc). unfold getPackageInfo_settle.
    destruct (resolveResponse name version (reg (requestUrl config name)));
      intros k info Hk; simpl in *; auto.
    rewrite JsMapFacts.get_set_other; auto. congruence.
Qed.

Lemma getPackageInfo_caches a name version a' info :
  getPackageInfo config reg a name version = (a', Ret info) ->
  JsMap.get (packageCache a') (name ++ "@" ++ version) = Some info.
Proof.
  destruct (JsMap.get (packageCache a) (cacheKey name version)) as [info0|] eqn:Hc.
  - rewrite (getPackageInfo_hit _ _ _ _ _ Hc). intros [= <- <-]. exact Hc.
  - rewrite (getPackageInfo_miss _ _ _ _ _ Hc). unfold getPackageInfo_settle.
    destruct (resolveResponse name version (reg (requestUrl config name)));
      intros [= <- <-]. simpl. apply JsMapFacts.get_set_same.
Qed.

Lemma getPackageInfo_replay a name version a' info a2 :
  getPackageInfo config reg a name version = (a', Ret info) ->
  cacheExtends a' a2 ->
  getPackageInfo config reg a2 name version = (a2, Ret info).
Proof.
  intros Hrun Hext. apply getPackageInfo_hit. apply Hext.
  eapply getPackageInfo_caches; eauto.
Qed.

(** *** The builder only adds to the cache *)

Lemma buildAll_extends
    (build : string -> string -> BuildState -> option (BuildState * exc DependencyNode)) :
  (forall n v s s' r, build n v s = Some (s', r) -> cacheExtends (fst s) (fst s')) ->
  forall deps s s' r,
    buildAll build deps s = Some (s', r) -> cacheExtends (fst s) (fst s').
Proof.
  intros Hbuild. induction deps as [|[depName depVersion] deps IH];
    intros s s' r Hrun; simpl in Hrun.
  - injection Hrun as <- <-. apply cacheExtends_refl.
  - destruct (build depName depVersion s) as [[s1 [e|depNode]]|] eqn:Hone;
      try discriminate.
    + injection Hrun as <- <-. eauto.
    + destruct (buildAll build deps s1) as [[s2 [e|rest]]|] eqn:Hrest;
        try discriminate; injection Hrun as <- <-;
        (eapply cacheExtends_trans; [eapply Hbuild; eauto | eapply IH; eauto]).
Qed.

Lemma buildDependencyTree_extends fuel :
  forall name version parentPath s s' r,
    buildDependencyTree config reg fuel name version parentPath s = Some (s', r) ->
    cacheExtends (fst s) (fst s').
Proof.
  induction fuel as [|fuel IH]; intros name version parentPath s s' r Hrun;
    simpl in Hrun; [discriminate|].
  pose proof (getPackageInfo_extends (fst s) name version) as Hext.
  destruct (getPackageInfo config reg (fst s) name version) as [a1 [e|info]];
    simpl in Hext.
  - injection Hrun as <- <-. exact Hext.
  - match type of Hrun with
    | match buildAll ?b ?deps ?s0 with _ => _ end = _ =>
        destruct (buildAll b deps s0) as [[s2 r2]|] eqn:Hall; [|discriminate];
        apply buildAll_extends in Hall; [|intros; eapply IH; eauto]
    end.
    simpl in Hall.
    destruct r2; injection Hrun as <- <-; eapply cacheExtends_trans; eauto.
Qed.

(** *** A build that succeeded, run again on a cache that holds its keys *)

Lemma buildAll_replay
    (build : string -> string -> BuildState -> option (BuildState * exc DependencyNode)) :
  (forall n v s s' r, build n v s = Some (s', r) -> cacheExtends (fst s) (fst s')) ->
  (forall n v a flat a' flat' c,
     build n v (a, flat) = Some ((a', flat'), Ret c) ->
     forall a2, cacheExtends a' a2 ->
     build n v (a2, flat) = Some ((a2, flat'), Ret c)) ->
  forall deps a flat a' flat' results,
    buildAll build deps (a, flat) = Some ((a', flat'), Ret results) ->
    forall a2, cacheExtends a' a2 ->
    buildAll build deps (a2, flat) = Some ((a2, flat'), Ret results).
Proof.
  intros Hext Hrep. induction deps as [|[depName depVersion] deps IH];
    intros a flat a' flat' results Hrun a2 Ha2; simpl in Hrun |- *.
  - injection Hrun as <- <- <-. reflexivity.
  - destruct (build depName depVersion (a, flat)) as [[[a1 f1] [e|depNode]]|] eqn:Hone;
      try discriminate.
    destruct (buildAll build deps (a1, f1)) as [[[a3 f3] [e|rest]]|] eqn:Hrest;
      try discriminate.
    injection Hrun as <- <- <-.
    pose proof (buildAll_extends build Hext _ _ Hrest) as Hmid. simpl in Hmid.
    rewrite (Hrep _ _ _ _ _ _ _ Hone a2 (cacheExtends_trans Hmid Ha2)).
    rewrite (IH _ _ _ _ _ Hrest a2 Ha2). reflexivity.
Qed.

Lemma buildDependencyTree_replay fuel :
  forall name version parentPath a flat a' flat' tree,
    buildDependencyTree config reg fuel name version parentPath (a, flat)
    = Some ((a', flat'), Ret tree) ->
    forall a2, cacheExtends a' a2 ->
    buildDependencyTree config reg fuel name version parentPath (a2, flat)
    = Some ((a2, flat'), Ret tree).
Proof.
  induction fuel as [|fuel IH];
    intros name version parentPath a flat a' flat' tree Hrun a2 Ha2;
    simpl in Hrun |- *; [discriminate|].
  destruct (getPackageInfo config reg a name version) as [a1 [e|info]] eqn:Hget;
    [discriminate|].
  match type of Hrun with
  | match buildAll ?b ?deps ?s0 with _ => _ end = _ =>
      destruct (buildAll b deps s0) as [[[a3 f3] [e|results]]|] eqn:Hall;
        try discriminate
  end.
  injection Hrun as <- <- <-.
  pose proof Hall as Hmid.
  apply buildAll_extends in Hmid;
    [|intros; eapply buildDependencyTree_extends; eauto].
  simpl in Hmid.
  rewrite (getPackageInfo_replay _ _ _ Hget (cacheExtends_trans Hmid Ha2)).
  erewrite buildAll_replay; [reflexivity | | | exact Hall | exact Ha2].
  - intros; eapply buildDependencyTree_extends; eauto.
  - intros; eapply IH; eauto.
Qed.

Lemma analyzeSingle_replay fuel a name version a' result :
  analyzeSingle config reg fuel a name version = Some (a', Ret result) ->
  forall a2, cacheExtends a' a2 ->
  analyzeSingle config reg fuel a2 name version = Some (a2, Ret result).
Proof.
  unfold analyzeSingle. intros Hrun a2 Ha2.
  destruct (buildDependencyTree config reg fuel name version "" (a, JsMap.empty))
    as [[[a1 f1] [e|tree]]|] eqn:Hbuild; try discriminate.
  injection Hrun as <- Hres.
  erewrite buildDependencyTree_replay; [|exact Hbuild|exact Ha2].
  now rewrite Hres.
Qed.

(** C9, as the code has it: an analysis that returned a result, run again
    on the same analyzer (or later, once the cache has grown further),
    returns the same result and leaves the analyzer as it finds it, so it
    issues no request; a resolved pair is cached under the name and the
    descriptor as asked; and a resolution that finds its key in the cache
    answers from it and issues no request. *)
Theorem analyze_again_hits_the_cache fuel a name version a' out :
  analyze config reg fuel a (inl name) (Some version) = Some (a', Ret out) ->
  (forall a2, cacheExtends a' a2 ->
     analyze config reg fuel a2 (inl name) (Some version) = Some (a2, Ret out))
  /\ (forall b n descriptor b' info,
        getPackageInfo config reg b n descriptor = (b', Ret info) ->
        JsMap.get (packageCache b') (n ++ "@" ++ descriptor) = Some info)
  /\ (forall b n descriptor info,
        JsMap.get (packageCache b) (n ++ "@" ++ descriptor) = Some info ->
        getPackageInfo config reg b n descriptor = (b, Ret info)).
Proof.
  intros Hrun. split; [|split].
  - intros a2 Ha2. unfold analyze in Hrun |- *.
    destruct (truthy (Some version)); [|discriminate].
    destruct (analyzeSingle config reg fuel a name (orElse (Some version) ""))
      as [[a1 [e|result]]|] eqn:Hone; try discriminate.
    injection Hrun as <- <-.
    erewrite analyzeSingle_replay; [reflexivity|exact Hone|exact Ha2].
  - intros b n descriptor b' info. apply getPackageInfo_caches.
  - intros b n descriptor info. apply getPackageInfo_hit.
Qed.

End CacheFacts.

Lemma analyze_again_hits_the_cache_witness :
  analyze (sv := MiniSemver.semver) Fixtures.npmjs Fixtures.diamondRegistry 3
    Fixtures.diamondAnalyzer (inl "app") (Some "1.0.0")
  = Some (Fixtures.diamondAnalyzer, Ret Fixtures.diamondOutput).
Proof.
  apply (proj1 (@analyze_again_hits_the_cache MiniSemver.semver
                  Fixtures.npmjs Fixtures.diamondRegistry 3 newAnalyzer
                  "app" "1.0.0" Fixtures.diamondAnalyzer Fixtures.diamondOutput
                  eq_refl)).
  apply cacheExtends_refl.
Defined.

(** C9 fails on the code: two resolutions of the same key, the second
    begun before the request of the first has settled, both miss the cache
    and each issues its own request.  In the analysis of [app] on the
    diamond, with the builds of [a] and [b] overlapping, the document of
    [c] is requested twice; with the builds in order it is requested once. *)
Lemma overlapping_resolutions_fetch_twice :
  let first := getPackageInfo_begin Fixtures.npmjs newAnalyzer "c" "^1.0.0" in
  let second := getPackageInfo_begin Fixtures.npmjs (fst first) "c" "^1.0.0" in
  snd first = inr "https://registry.npmjs.org/c"
  /\ snd second = inr "https://registry.npmjs.org/c"
  /\ requests (fst second) =
     ["https://registry.npmjs.org/c"; "https://registry.npmjs.org/c"]
  /\ requests (runTurns (sv := MiniSemver.semver) Fixtures.npmjs
                 Fixtures.diamondRegistry Fixtures.diamondOverlap newAnalyzer) =
     ["https://registry.npmjs.org/app"; "https://registry.npmjs.org/a";
      "https://registry.npmjs.org/b"; "https://registry.npmjs.org/c";
      "https://registry.npmjs.org/c"]
  /\ packageCache (runTurns (sv := MiniSemver.semver) Fixtures.npmjs
                     Fixtures.diamondRegistry Fixtures.diamondOverlap newAnalyzer) =
     [("app@1.0.0", {| pi_name := Some "app"; pi_version := "1.0.0";
                       pi_dependencies := [("a", "^1.0.0"); ("b", "^1.0.0")];
                       pi_devDependencies := []; pi_peerDependencies := [] |});
      ("a@^1.0.0", {| pi_name := Some "a"; pi_version := "1.0.0";
                      pi_dependencies := [("c", "^1.0.0")];
                      pi_devDependencies := []; pi_peerDependencies := [] |});
      ("b@^1.0.0", {| pi_name := Some "b"; pi_version := "1.0.0";
                      pi_dependencies := [("c", "^1.0.0")];
                      pi_devDependencies := []; pi_peerDependencies := [] |});
      ("c@^1.0.0", {| pi_name := Some "c"; pi_version := "1.1.0";
                      pi_dependencies := [];
                      pi_devDependencies := []; pi_peerDependencies := [] |})]
  /\ requests Fixtures.diamondAnalyzer =
     ["https://registry.npmjs.org/app"; "https://registry.npmjs.org/a";
      "https://registry.npmjs.org/c"; "https://registry.npmjs.org/b"].
Proof.
  repeat split.
Qed.

(** ** Tree builder: termination *)

Section TerminationFacts.
Context {sv : Semver}.
Variable config : Config.
Variable reg : Registry.

Lemma buildDependencyTree_S fuel name version parentPath s :
  buildDependencyTree config reg (S fuel) name version parentPath s =
  let (a1, r) := getPackageInfo config reg (fst s) name version in
  match r with
  | Throw e => Some ((a1, snd s), Throw e)
  | Ret packageInfo =>
      let currentPath := pathOf parentPath name (pi_version packageInfo) in
      let flatDeps :=
        registerFlat (snd s) name (pi_version packageInfo) parentPath in
      match buildAll
              (fun depName depVersion =>
                 buildDependencyTree config reg fuel depName depVersion currentPath)
              (pi_dependencies packageInfo) (a1, flatDeps) with
      | None => None
      | Some (s2, Throw e) => Some (s2, Throw e)
      | Some (s2, Ret results) =>
          Some (s2, Ret {| dn_name := name;
                           dn_version := pi_version packageInfo;
                           dn_dependencies := JsMap.of_entries results;
                           dn_peerDependencies :=
                             JsMap.of_entries (pi_peerDependencies packageInfo) |})
      end
  end.
Proof. reflexivity. Qed.

(** *** More fuel changes nothing *)

Lemma buildAll_covariant
    (b1 b2 : string -> string -> BuildState -> option (BuildState * exc DependencyNode)) :
  (forall n v s x, b1 n v s = Some x -> b2 n v s = Some x) ->
  forall deps s x, buildAll b1 deps s = Some x -> buildAll b2 deps s = Some x.
Proof.
  intros Hb. induction deps as [|[depName depVersion] deps IH]; intros s x Hrun;
    simpl in Hrun |- *; [exact Hrun|].
  destruct (b1 depName depVersion s) as [[s1 [e|depNode]]|] eqn:Hone;
    try discriminate; rewrite (Hb _ _ _ _ Hone); [exact Hrun|].
  destruct (buildAll b1 deps s1) as [x1|] eqn:Hrest; [|discriminate].
  now rewrite (IH _ _ Hrest).
Qed.

Lemma buildDependencyTree_more_fuel fuel :
  forall name version parentPath s x,
    buildDependencyTree config reg fuel name version parentPath s = Some x ->
    buildDependencyTree config reg (S fuel) name version parentPath s = Some x.
Proof.
  induction fuel as [|fuel IH]; intros name version parentPath s x Hrun;
    [discriminate|].
  rewrite buildDependencyTree_S in Hrun |- *.
  destruct (getPackageInfo config reg (fst s) name version) as [a1 [e|info]];
    [exact Hrun|].
  cbv zeta in Hrun |- *.
  match type of Hrun with
  | match buildAll ?b ?deps ?s0 with _ => _ end = _ =>
      destruct (buildAll b deps s0) as [x1|] eqn:Hall; [|discriminate]
  end.
  erewrite buildAll_covariant; [exact Hrun | | exact Hall].
  intros; now apply IH.
Qed.

Lemma buildDependencyTree_fuel_le fuel fuel' name version parentPath s x :
  fuel <= fuel' ->
  buildDependencyTree config reg fuel name version parentPath s = Some x ->
  buildDependencyTree config reg fuel' name version parentPath s = Some x.
Proof.
  induction 1; intros Hrun; [exact Hrun|].
  apply buildDependencyTree_more_fuel. auto.
Qed.

(** *** Ranked declarations *)

Section Ranked.
Variable rank : string -> nat.
Variable Reach : string -> Prop.
Hypothesis registry_ranked : RegistryRanked config reg rank Reach.

Lemma getPackageInfo_ranked a name version :
  Reach (cacheKey name version) ->
  CacheRanked rank Reach a ->
  CacheRanked rank Reach (fst (getPackageInfo config reg a name version))
  /\ forall info,
       snd (getPackageInfo config reg a name version) = Ret info ->
       Decreasing rank Reach (cacheKey name version) info.
Proof.
  intros Hreach Hcache.
  destruct (JsMap.get (packageCache a) (cacheKey name version)) as [info0|] eqn:Hc.
  - rewrite (getPackageInfo_hit _ _ _ _ _ Hc). simpl. split; [exact Hcache|].
    intros info [= <-]. eapply Hcache; eauto.
  - rewrite (getPackageInfo_miss _ _ _ _ _ Hc). unfold getPackageInfo_settle.
    destruct (resolveResponse name version (reg (requestUrl config name)))
      as [e|info0] eqn:Hres; simpl.
    + split; [exact Hcache | discriminate].
    + split.
      * intros k info Hk. simpl. rewrite JsMapFacts.get_set.
        destruct (String.eqb (cacheKey name version) k) eqn:E.
        -- apply String.eqb_eq in E. subst k. intros [= <-].
           now apply registry_ranked.
        -- now apply Hcache.
      * intros info [= <-]. now apply registry_ranked.
Qed.

Lemma buildAll_returns
    (build : string -> string -> BuildState -> option (BuildState * exc DependencyNode))
    (deps : Entries) :
  (forall depName depVersion, In (depName, depVersion) deps ->
     forall s, CacheRanked rank Reach (fst s) ->
       exists s' r, build depName depVersion s = Some (s', r)
                    /\ CacheRanked rank Reach (fst s')) ->
  forall s, CacheRanked rank Reach (fst s) ->
    exists s' r, buildAll build deps s = Some (s', r)
                 /\ CacheRanked rank Reach (fst s').
Proof.
  induction deps as [|[depName depVersion] deps IH]; intros Hbuild s Hs; simpl.
  - eauto.
  - destruct (Hbuild depName depVersion (or_introl eq_refl) s Hs)
      as (s1 & r1 & Hone & Hs1).
    rewrite Hone. destruct r1 as [e|depNode]; [eauto|].
    destruct (IH (fun n v Hin => Hbuild n v (or_intror Hin)) s1 Hs1)
      as (s2 & r2 & Hrest & Hs2).
    rewrite Hrest. destruct r2; eauto.
Qed.

Lemma buildDependencyTree_returns fuel :
  forall name version parentPath s,
    Reach (cacheKey name version) ->
    rank (cacheKey name version) < fuel ->
    CacheRanked rank Reach (fst s) ->
    exists s' r,
      buildDependencyTree config reg fuel name version parentPath s = Some (s', r)
      /\ CacheRanked rank Reach (fst s').
Proof.
  induction fuel as [|fuel IH]; intros name version parentPath s Hreach Hlt Hs;
    [lia|].
  rewrite buildDependencyTree_S.
  destruct (getPackageInfo_ranked name version Hreach Hs) as [Hs1 Hdec].
  destruct (getPackageInfo config reg (fst s) name version) as [a1 [e|info]];
    simpl in Hs1, Hdec.
  - eexists _, _. split; [reflexivity | exact Hs1].
  - cbv zeta.
    specialize (Hdec info eq_refl).
    match goal with
    | |- context [buildAll ?b ?deps ?s0] =>
        destruct (@buildAll_returns b deps) with (s := s0)
          as (s2 & r2 & Hall & Hs2)
    end.
    + intros depName depVersion Hin s0 Hs0.
      destruct (Hdec _ _ Hin) as [Hr Hlt0]. apply IH; [exact Hr | lia | exact Hs0].
    + exact Hs1.
    + rewrite Hall. destruct r2; eexists _, _; (split; [reflexivity | exact Hs2]).
Qed.

Lemma buildDependencyTree_terminates a name version parentPath flatDeps :
  CacheRanked rank Reach a ->
  Reach (cacheKey name version) ->
  exists outcome,
    forall fuel,
      rank (cacheKey name version) < fuel ->
      buildDependencyTree config reg fuel name version parentPath (a, flatDeps)
      = Some outcome.
Proof.
  intros Ha Hreach.
  destruct (@buildDependencyTree_returns (S (rank (cacheKey name version)))
              name version parentPath (a, flatDeps)) as (s' & r & Hrun & _);
    [exact Hreach | lia | exact Ha |].
  exists (s', r). intros fuel Hlt.
  eapply buildDependencyTree_fuel_le; [|exact Hrun]. lia.
Qed.

End Ranked.

(** *** A tree is as deep as the chains of declarations *)

Lemma buildAll_children
    (build : string -> string -> BuildState -> option (BuildState * exc DependencyNode)) :
  (forall n v s s' r, build n v s = Some (s', r) -> cacheExtends (fst s) (fst s')) ->
  forall deps s s' results,
    buildAll build deps s = Some (s', Ret results) ->
    forall n v, In (n, v) deps ->
      exists s1 s2 c,
        build n v s1 = Some (s2, Ret c) /\ cacheExtends (fst s2) (fst s').
Proof.
  intros Hext. induction deps as [|[depName depVersion] deps IH];
    intros s s' results Hrun n v Hin; [destruct Hin|].
  simpl in Hrun.
  destruct (build depName depVersion s) as [[s1 [e|depNode]]|] eqn:Hone;
    try discriminate.
  destruct (buildAll build deps s1) as [[s2 [e|rest]]|] eqn:Hrest;
    try discriminate.
  injection Hrun as <- <-.
  destruct Hin as [[= <- <-]|Hin].
  - exists s, s1, depNode. split; [exact Hone|].
    eapply buildAll_extends; eauto.
  - eapply IH; eauto.
Qed.

Lemma build_follows_every_chain fuel :
  forall name version parentPath s s' tree,
    buildDependencyTree config reg fuel name version parentPath s
    = Some (s', Ret tree) ->
    forall a, cacheExtends (fst s') a ->
      forall n, Chain a n (cacheKey name version) -> n < fuel.
Proof.
  induction fuel as [|fuel IH];
    intros name version parentPath s s' tree Hrun a Hext n Hchain;
    [discriminate|].
  rewrite buildDependencyTree_S in Hrun.
  destruct (getPackageInfo config reg (fst s) name version) as [a1 [e1|info]] eqn:Hg;
    [discriminate|].
  cbv zeta in Hrun.
  match type of Hrun with
  | match buildAll ?b ?deps ?s0 with _ => _ end = _ =>
      destruct (buildAll b deps s0) as [[s2 [e2|results]]|] eqn:Hall;
        try discriminate
  end.
  injection Hrun as <- _.
  inversion Hchain as [|key info' depName depVersion n' Hget Hin Hrest]; subst;
    [lia|].
  assert (Hsub : forall n0 v0 s0 s0' r0,
             buildDependencyTree config reg fuel n0 v0
               (pathOf parentPath name (pi_version info)) s0 = Some (s0', r0) ->
             cacheExtends (fst s0) (fst s0'))
    by (intros; eapply buildDependencyTree_extends; eauto).
  assert (Hinfo : JsMap.get (packageCache a) (cacheKey name version) = Some info).
  { apply Hext. pose proof Hall as Hext2.
    apply buildAll_extends in Hext2; [|exact Hsub].
    apply Hext2. simpl. eapply getPackageInfo_caches; eauto. }
  rewrite Hinfo in Hget. injection Hget as <-.
  pose proof Hall as Hkids.
  eapply buildAll_children in Hkids; [|exact Hsub|exact Hin].
  destruct Hkids as (s1 & s3 & c & Hb & Hext3).
  assert (n' < fuel); [|lia].
  eapply IH; [exact Hb | | exact Hrest].
  eapply cacheExtends_trans; eauto.
Qed.

End TerminationFacts.

Section TerminationClaim.
Context {sv : Semver}.
Variable config : Config.
Variable reg : Registry.


End TerminationClaim.

(** The dependencies of a resolved package are those of a record of the
    document. *)
Lemma resolveResponse_declares {sv : Semver} name version out info depName depVersion :
  resolveResponse name version out = Ret info ->
  In (depName, depVersion) (pi_dependencies info) ->
  exists metadata vs k vr,
    out = Responded true (Ret metadata)
    /\ md_versions metadata = Some vs
    /\ JsMap.get vs k = Some vr
    /\ In (depName, depVersion) (orEmpty (vr_dependencies vr)).
Proof.
  destruct out as [e|[|] [e|metadata]]; simpl; try discriminate.
  destruct (matchVersion metadata version) as [e|[mv|]]; simpl; try discriminate.
  destruct (truthy_string mv); [|discriminate].
  unfold readVersion. destruct (md_versions metadata) as [vs|] eqn:Hvs;
    [|discriminate].
  unfold readMember.
  destruct (JsMap.get vs mv) as [vr|] eqn:Hvr.
  - intros [= <-] Hin. exists metadata, vs, mv, vr. auto.
  - destruct (JsMap.get objectPrototype mv); [|discriminate].
    intros [= <-] [].
Qed.

Lemma tangled_is_ranked :
  RegistryRanked (sv := MiniSemver.semver) Fixtures.npmjs Fixtures.tangledRegistry
    Fixtures.tangledRank Fixtures.tangledReach.
Proof.
  intros name version info Hreach Hres depName depVersion Hin.
  destruct (@resolveResponse_declares MiniSemver.semver name version _ info
              depName depVersion Hres Hin)
    as (metadata & vs & k & vr & Hout & Hvs & Hvr & Hdep).
  clear Hres Hin.
  unfold Fixtures.tangledRegistry, Fixtures.document, Fixtures.notFound in Hout.
  repeat match type of Hout with
  | (if String.eqb ?u ?lit then _ else _) = _ =>
      let E := fresh "E" in
      destruct (String.eqb u lit) eqn:E;
        [apply String.eqb_eq in E;
         unfold requestUrl, Fixtures.npmjs in E; simpl in E;
         injection E as E; subst name |]
  end;
  try discriminate;
  injection Hout as <-; injection Hvs as <-; simpl in Hvr;
  repeat match type of Hvr with
  | (if ?c then _ else _) = _ => destruct c
  end;
  try discriminate; injection Hvr as <-; simpl in Hdep;
  repeat match type of Hdep with
  | _ \/ _ => destruct Hdep as [Hdep|Hdep]
  | False => contradiction
  | (_, _) = (_, _) => injection Hdep as <- <-
  end;
  unfold Fixtures.tangledReach, Fixtures.tangledRank, cacheKey in *;
  simpl in *; destruct version; simpl in *;
  intuition (try discriminate; auto).
Qed.


(** *** A cycle of declarations *)

Lemma ping_resolves a :
  Fixtures.PingPongCache a ->
  exists a1,
    getPackageInfo (sv := MiniSemver.semver) Fixtures.npmjs Fixtures.cyclicRegistry
      a "ping" "1.0.0" = (a1, Ret Fixtures.pingInfo)
    /\ Fixtures.PingPongCache a1.
Proof.
  intros [[Hping|Hping] Hpong].
  - rewrite (@getPackageInfo_miss MiniSemver.semver Fixtures.npmjs
               Fixtures.cyclicRegistry a "ping" "1.0.0" Hping). unfold getPackageInfo_settle.
    change (resolveResponse "ping" "1.0.0"
              (Fixtures.cyclicRegistry (requestUrl Fixtures.npmjs "ping")))
      with (Ret Fixtures.pingInfo).
    eexists. split; [reflexivity|]. split; simpl.
    + right. apply JsMapFacts.get_set_same.
    + rewrite JsMapFacts.get_set_other; [exact Hpong | discriminate].
  - rewrite (@getPackageInfo_hit MiniSemver.semver Fixtures.npmjs
               Fixtures.cyclicRegistry a "ping" "1.0.0" Fixtures.pingInfo Hping).
    exists a. split; [reflexivity|]. split; auto.
Qed.

Lemma pong_resolves a :
  Fixtures.PingPongCache a ->
  exists a1,
    getPackageInfo (sv := MiniSemver.semver) Fixtures.npmjs Fixtures.cyclicRegistry
      a "pong" "1.0.0" = (a1, Ret Fixtures.pongInfo)
    /\ Fixtures.PingPongCache a1.
Proof.
  intros [Hping [Hpong|Hpong]].
  - rewrite (@getPackageInfo_miss MiniSemver.semver Fixtures.npmjs
               Fixtures.cyclicRegistry a "pong" "1.0.0" Hpong). unfold getPackageInfo_settle.
    change (resolveResponse "pong" "1.0.0"
              (Fixtures.cyclicRegistry (requestUrl Fixtures.npmjs "pong")))
      with (Ret Fixtures.pongInfo).
    eexists. split; [reflexivity|]. split; simpl.
    + rewrite JsMapFacts.get_set_other; [exact Hping | discriminate].
    + right. apply JsMapFacts.get_set_same.
  - rewrite (@getPackageInfo_hit MiniSemver.semver Fixtures.npmjs
               Fixtures.cyclicRegistry a "pong" "1.0.0" Fixtures.pongInfo Hpong).
    exists a. split; [reflexivity|]. split; auto.
Qed.

Lemma cyclic_build_runs_out fuel :
  forall parentPath s,
    Fixtures.PingPongCache (fst s) ->
    buildDependencyTree (sv := MiniSemver.semver) Fixtures.npmjs
      Fixtures.cyclicRegistry fuel "ping" "1.0.0" parentPath s = None
    /\ buildDependencyTree (sv := MiniSemver.semver) Fixtures.npmjs
         Fixtures.cyclicRegistry fuel "pong" "1.0.0" parentPath s = None.
Proof.
  induction fuel as [|fuel IH]; intros parentPath s Hs; [split; reflexivity|].
  split; rewrite buildDependencyTree_S.
  - destruct (ping_resolves Hs) as (a1 & -> & H1). cbv zeta.
    unfold Fixtures.pingInfo at 2. cbn [pi_dependencies buildAll].
    match goal with
    | |- context [buildDependencyTree _ _ fuel "pong" "1.0.0" ?p ?s0] =>
        destruct (IH p s0 H1) as [_ ->]
    end.
    reflexivity.
  - destruct (pong_resolves Hs) as (a1 & -> & H1). cbv zeta.
    unfold Fixtures.pongInfo at 2. cbn [pi_dependencies buildAll].
    match goal with
    | |- context [buildDependencyTree _ _ fuel "ping" "1.0.0" ?p ?s0] =>
        destruct (IH p s0 H1) as [-> _]
    end.
    reflexivity.
Qed.


(** * Further properties of the engine *)

(** ** Version resolver *)

Section ResolverMore.
Context {sv : Semver}.
Variable config : Config.
Variable reg : Registry.

Lemma inherited_is_member (V : Type) (o : JsMap.t V) k memberName :
  JsMap.get objectPrototype k = Some memberName -> hasMember o k = true.
Proof.
  intros H. unfold hasMember, readMember. rewrite H.
  destruct (JsMap.get o k); reflexivity.
Qed.

(** X1. The order of selection, in full.  [matchedVersion] holds a
    non-empty string exactly in three cases, tried in this order: the
    descriptor is a property of [versions], an own key or a member
    inherited from [Object.prototype], and is selected itself; else a
    dist-tag of that name has a non-empty target, which is selected before
    the descriptor is ever read as a range; else the descriptor is a valid
    range and [maxSatisfying] chooses among the own keys of [versions].
    In particular a descriptor that names a member of [Object.prototype]
    is selected by every document, whatever its versions and dist-tags
    are and whatever the semver operations do. *)
Theorem matchVersion_selection_order metadata descriptor :
  (forall selected,
     matchVersion metadata descriptor = Ret (Some selected) /\ selected <> ""
     <-> Selects metadata descriptor selected)
  /\ (forall memberName,
        JsMap.get objectPrototype descriptor = Some memberName ->
        matchVersion metadata descriptor = Ret (Some descriptor)).
Proof.
  split.
  - intros selected. split.
    + intros [Hm Hne]. pose proof (matchVersion_outcome metadata descriptor) as Ho.
      rewrite Hm in Ho. apply truthy_string_true in Hne. now rewrite Hne in Ho.
    + intros Hs. destruct (matchVersion_selects Hs) as [Hm Ht].
      split; [exact Hm | now apply truthy_string_true].
  - intros memberName Hin. unfold matchVersion.
    now rewrite (inherited_is_member _ _ Hin).
Qed.

(** X2. What a resolution that had to ask the registry returns: the
    response was ok and parsed, the document has [versions], the version
    of the result is the one selected for the descriptor and is a property
    of [versions].  For an own key, name, dependencies, devDependencies and
    peers are read from the record under that key, a missing field as an
    empty object; for a member inherited from [Object.prototype] the name
    is that of the member and nothing is declared. *)
Theorem resolved_info_is_read_from_the_document a name version a' info :
  JsMap.get (packageCache a) (cacheKey name version) = None ->
  getPackageInfo config reg a name version = (a', Ret info) ->
  exists metadata vs,
    reg (requestUrl config name) = Responded true (Ret metadata)
    /\ md_versions metadata = Some vs
    /\ Selects metadata version (pi_version info)
    /\ match readMember vs (pi_version info) with
       | Own vr =>
           pi_name info = Some (vr_name vr)
           /\ pi_dependencies info = orEmpty (vr_dependencies vr)
           /\ pi_devDependencies info = orEmpty (vr_devDependencies vr)
           /\ pi_peerDependencies info = orEmpty (vr_peerDependencies vr)
       | Inherited memberName =>
           pi_name info = memberName
           /\ pi_dependencies info = []
           /\ pi_devDependencies info = []
           /\ pi_peerDependencies info = []
       | Missing => False
       end.
Proof.
  intros Hmiss Hrun. rewrite (getPackageInfo_miss _ _ _ _ _ Hmiss) in Hrun.
  unfold getPackageInfo_settle in Hrun.
  destruct (resolveResponse name version (reg (requestUrl config name)))
    as [e|info0] eqn:Hres; [discriminate|].
  injection Hrun as _ <-.
  destruct (reg (requestUrl config name)) as [e|[|] [e|metadata]];
    simpl in Hres; try discriminate.
  pose proof (matchVersion_outcome metadata version) as Hsel.
  destruct (matchVersion metadata version) as [e|[mv|]];
    simpl in Hres; try discriminate.
  destruct (truthy_string mv); [|discriminate].
  pose proof (readVersion_outcome metadata mv) as Hread. rewrite Hres in Hread.
  destruct Hread as (vs & Hvs & Hv & Hfields).
  exists metadata, vs. rewrite Hv. auto.
Qed.

(** X3. A resolution that fails stores nothing: the cache is left as it
    was and exactly one request has been issued, so the same resolution
    asked again goes to the registry again and fails with the same error. *)
Theorem failed_resolution_is_not_cached a name version a' e :
  getPackageInfo config reg a name version = (a', Throw e) ->
  packageCache a' = packageCache a
  /\ requests a' = (requests a ++ [requestUrl config name])%list
  /\ exists a'',
       getPackageInfo config reg a' name version = (a'', Throw e)
       /\ requests a'' =
          (requests a ++ [requestUrl config name; requestUrl config name])%list.
Proof.
  intros Hrun.
  destruct (JsMap.get (packageCache a) (cacheKey name version)) as [info|] eqn:Hc.
  - rewrite (getPackageInfo_hit _ _ _ _ _ Hc) in Hrun. discriminate.
  - rewrite (getPackageInfo_miss _ _ _ _ _ Hc) in Hrun.
    unfold getPackageInfo_settle in Hrun.
    destruct (resolveResponse name version (reg (requestUrl config name)))
      as [c|info] eqn:Hres; [|discriminate].
    injection Hrun as <- <-. simpl.
    split; [reflexivity|]. split; [reflexivity|].
    eexists. rewrite getPackageInfo_miss by exact Hc.
    unfold getPackageInfo_settle. rewrite Hres. simpl.
    split; [reflexivity|]. now rewrite <- app_assoc.
Qed.

End ResolverMore.

Lemma matchVersion_selection_order_witness :
  matchVersion (sv := MiniSemver.semver) Fixtures.starTagged "*" = Ret (Some "1.0.0")
  /\ maxSatisfying (Semver := MiniSemver.semver) ["1.0.0"; "1.1.0"] "*"
     = Ret (Some "1.1.0")
  /\ matchVersion (sv := Fixtures.brokenSemver) Fixtures.starTagged "constructor"
     = Ret (Some "constructor").
Proof.
  split; [|split; [reflexivity|]].
  - apply (proj2 (proj1 (@matchVersion_selection_order MiniSemver.semver
                           Fixtures.starTagged "*") "1.0.0")).
    apply selects_tag; [reflexivity | reflexivity | discriminate].
  - apply (proj2 (@matchVersion_selection_order Fixtures.brokenSemver
                    Fixtures.starTagged "constructor") (Some "Object")).
    reflexivity.
Defined.

Lemma resolved_info_is_read_from_the_document_witness :
  exists metadata vs,
    Fixtures.expressRegistry (requestUrl Fixtures.npmjs "express")
    = Responded true (Ret metadata)
    /\ md_versions metadata = Some vs
    /\ Selects (sv := MiniSemver.semver) metadata "constructor" "constructor"
    /\ match readMember vs "constructor" with
       | Own vr =>
           Some "Object" = Some (vr_name vr)
           /\ [] = orEmpty (vr_dependencies vr)
           /\ [] = orEmpty (vr_devDependencies vr)
           /\ [] = orEmpty (vr_peerDependencies vr)
       | Inherited memberName =>
           Some "Object" = memberName
           /\ @nil (string * string) = [] /\ @nil (string * string) = []
           /\ @nil (string * string) = []
       | Missing => False
       end.
Proof.
  apply (@resolved_info_is_read_from_the_document MiniSemver.semver Fixtures.npmjs
           Fixtures.expressRegistry newAnalyzer "express" "constructor"
           {| packageCache :=
                [("express@constructor",
                  {| pi_name := Some "Object"; pi_version := "constructor";
                     pi_dependencies := []; pi_devDependencies := [];
                     pi_peerDependencies := [] |})];
              requests := ["https://registry.npmjs.org/express"] |}
           {| pi_name := Some "Object"; pi_version := "constructor";
              pi_dependencies := []; pi_devDependencies := [];
              pi_peerDependencies := [] |});
    reflexivity.
Defined.

Lemma failed_resolution_is_not_cached_witness :
  packageCache
    {| packageCache := []; requests := ["https://registry.npmjs.org/express"] |}
  = packageCache newAnalyzer
  /\ requests
       {| packageCache := []; requests := ["https://registry.npmjs.org/express"] |}
     = (requests newAnalyzer ++ [requestUrl Fixtures.npmjs "express"])%list
  /\ exists a'',
       getPackageInfo (sv := MiniSemver.semver) Fixtures.npmjs
         Fixtures.expressRegistry
         {| packageCache := []; requests := ["https://registry.npmjs.org/express"] |}
         "express" "invalid-version"
       = (a'', Throw (PackageNotFoundError "express" "invalid-version"
                        (Some (PackageNotFoundError "express" "invalid-version"
                                 (Some (Error "No matching version found"))))))
       /\ requests a'' =
          (requests newAnalyzer
           ++ [requestUrl Fixtures.npmjs "express";
               requestUrl Fixtures.npmjs "express"])%list.
Proof.
  apply (@failed_resolution_is_not_cached MiniSemver.semver Fixtures.npmjs
           Fixtures.expressRegistry newAnalyzer "express" "invalid-version").
  reflexivity.
Defined.

(** ** Tree builder *)

Section BuilderMore.
Context {sv : Semver}.
Variable config : Config.
Variable reg : Registry.

Lemma analyzerGrows_refl a : analyzerGrows a a.
Proof.
  split; [apply cacheExtends_refl | exists []; now rewrite app_nil_r].
Qed.

Lemma analyzerGrows_trans a b c :
  analyzerGrows a b -> analyzerGrows b c -> analyzerGrows a c.
Proof.
  intros [Hab [m1 H1]] [Hbc [m2 H2]]. split.
  - eapply cacheExtends_trans; eauto.
  - exists (m1 ++ m2)%list. now rewrite H2, H1, app_assoc.
Qed.

Lemma getPackageInfo_grows a name version :
  analyzerGrows a (fst (getPackageInfo config reg a name version)).
Proof.
  split; [apply getPackageInfo_extends|].
  destruct (JsMap.get (packageCache a) (cacheKey name version)) as [info|] eqn:Hc.
  - rewrite (getPackageInfo_hit _ _ _ _ _ Hc). exists []. simpl.
    now rewrite app_nil_r.
  - rewrite (getPackageInfo_miss _ _ _ _ _ Hc). rewrite settle_requests. simpl.
    eauto.
Qed.

Lemma getPackageInfo_throws a name version a' e :
  getPackageInfo config reg a name version = (a', Throw e) ->
  exists c, e = PackageNotFoundError name version (Some c).
Proof.
  intros Hrun.
  destruct (JsMap.get (packageCache a) (cacheKey name version)) as [info|] eqn:Hc.
  - rewrite (getPackageInfo_hit _ _ _ _ _ Hc) in Hrun. discriminate.
  - rewrite (getPackageInfo_miss _ _ _ _ _ Hc) in Hrun.
    assert (H : snd (getPackageInfo_settle
                       {| packageCache := packageCache a;
                          requests := (requests a ++ [requestUrl config name])%list |}
                       name version (reg (requestUrl config name))) = Throw e)
      by now rewrite Hrun.
    apply settle_throw in H. destruct H as (c & _ & ->). eauto.
Qed.

(** A property of the state before and after that every build of a
    dependency has, the group of builds has. *)
Lemma buildAll_steps (P : BuildState -> BuildState -> Prop)
    (build : string -> string -> BuildState -> option (BuildState * exc DependencyNode)) :
  (forall s, P s s) ->
  (forall s1 s2 s3, P s1 s2 -> P s2 s3 -> P s1 s3) ->
  (forall n v s s' r, build n v s = Some (s', r) -> P s s') ->
  forall deps s s' r, buildAll build deps s = Some (s', r) -> P s s'.
Proof.
  intros Hrefl Htrans Hbuild. induction deps as [|[depName depVersion] deps IH];
    intros s s' r Hrun; simpl in Hrun.
  - injection Hrun as <- <-. apply Hrefl.
  - destruct (build depName depVersion s) as [[s1 [e|depNode]]|] eqn:Hone;
      try discriminate.
    + injection Hrun as <- <-. eauto.
    + destruct (buildAll build deps s1) as [[s2 [e|rest]]|] eqn:Hrest;
        try discriminate; injection Hrun as <- <-; eauto.
Qed.

Lemma buildDependencyTree_grows fuel :
  forall name version parentPath s s' r,
    buildDependencyTree config reg fuel name version parentPath s = Some (s', r) ->
    analyzerGrows (fst s) (fst s').
Proof.
  induction fuel as [|fuel IH]; intros name version parentPath s s' r Hrun;
    [discriminate|].
  rewrite buildDependencyTree_S in Hrun.
  pose proof (getPackageInfo_grows (fst s) name version) as Hg.
  destruct (getPackageInfo config reg (fst s) name version) as [a1 [e|info]];
    simpl in Hg.
  - injection Hrun as <- <-. exact Hg.
  - cbv zeta in Hrun.
    match type of Hrun with
    | match buildAll ?b ?deps ?s0 with _ => _ end = _ =>
        destruct (buildAll b deps s0) as [[s2 r2]|] eqn:Hall; [|discriminate];
        apply (buildAll_steps (fun s s' => analyzerGrows (fst s) (fst s'))) in Hall
    end.
    + simpl in Hall. destruct r2; injection Hrun as <- <-;
        eapply analyzerGrows_trans; eauto.
    + intros; apply analyzerGrows_refl.
    + intros; eapply analyzerGrows_trans; eauto.
    + intros; eapply IH; eauto.
Qed.

(** What the group of builds returns: one child per declared dependency,
    in order, each the result of the build of that dependency. *)
Lemma buildAll_results
    (build : string -> string -> BuildState -> option (BuildState * exc DependencyNode)) :
  forall deps s s' results,
    buildAll build deps s = Some (s', Ret results) ->
    map fst results = map fst deps
    /\ forall k c, In (k, c) results ->
         exists v s1 s2, In (k, v) deps /\ build k v s1 = Some (s2, Ret c).
Proof.
  induction deps as [|[depName depVersion] deps IH]; intros s s' results Hrun;
    simpl in Hrun.
  - injection Hrun as <- <-. split; [reflexivity | intros k c []].
  - destruct (build depName depVersion s) as [[s1 [e|depNode]]|] eqn:Hone;
      try discriminate.
    destruct (buildAll build deps s1) as [[s2 [e|rest]]|] eqn:Hrest;
      try discriminate.
    injection Hrun as <- <-. destruct (IH _ _ _ Hrest) as [Hkeys Hkids].
    split; [simpl; now rewrite Hkeys|].
    intros k c [[= <- <-]|Hin].
    + exists depVersion, s, s1. split; [now left | exact Hone].
    + destruct (Hkids _ _ Hin) as (v & t1 & t2 & Hv & Hb).
      exists v, t1, t2. split; [now right | exact Hb].
Qed.

Lemma buildAll_throws
    (build : string -> string -> BuildState -> option (BuildState * exc DependencyNode))
    (P : JsError -> Prop) :
  (forall n v s s' e, build n v s = Some (s', Throw e) -> P e) ->
  forall deps s s' e, buildAll build deps s = Some (s', Throw e) -> P e.
Proof.
  intros Hbuild. induction deps as [|[depName depVersion] deps IH];
    intros s s' e Hrun; simpl in Hrun; [discriminate|].
  destruct (build depName depVersion s) as [[s1 [e1|depNode]]|] eqn:Hone;
    try discriminate.
  - injection Hrun as <- <-. eauto.
  - destruct (buildAll build deps s1) as [[s2 [e2|rest]]|] eqn:Hrest;
      try discriminate.
    injection Hrun as <- <-. eauto.
Qed.

(** X5. Whatever makes a build fail, at the package asked for or at any
    depth below it, the error that comes out is a [PackageNotFoundError]
    with a cause attached; nothing else is thrown by the builder. *)
Theorem build_throws_only_package_not_found fuel :
  forall name version parentPath s s' e,
    buildDependencyTree config reg fuel name version parentPath s
    = Some (s', Throw e) ->
    exists failedName failedVersion c,
      e = PackageNotFoundError failedName failedVersion (Some c).
Proof.
  induction fuel as [|fuel IH]; intros name version parentPath s s' e Hrun;
    [discriminate|].
  rewrite buildDependencyTree_S in Hrun.
  destruct (getPackageInfo config reg (fst s) name version) as [a1 [e1|info]] eqn:Hg.
  - injection Hrun as _ <-. apply getPackageInfo_throws in Hg.
    destruct Hg as (c & ->). eauto.
  - cbv zeta in Hrun.
    match type of Hrun with
    | match buildAll ?b ?deps ?s0 with _ => _ end = _ =>
        destruct (buildAll b deps s0) as [[s2 [e2|results]]|] eqn:Hall;
          try discriminate
    end.
    injection Hrun as _ <-.
    eapply (@buildAll_throws _
              (fun e : JsError => exists failedName failedVersion c,
                 e = PackageNotFoundError failedName failedVersion (Some c)));
      [|exact Hall].
    intros n v s0 s0' e0 Hb. eapply IH. exact Hb.
Qed.

Lemma has_set (V : Type) (m : JsMap.t V) k v k' :
  JsMap.has (JsMap.set m k v) k' = (String.eqb k k' || JsMap.has m k')%bool.
Proof.
  unfold JsMap.has. rewrite JsMapFacts.get_set.
  destruct (String.eqb k k'); reflexivity.
Qed.

Lemma has_of_entries_acc (V : Type) (l : list (string * V)) m k :
  JsMap.has (fold_left (fun m kv => JsMap.set m (fst kv) (snd kv)) l m) k = true
  <-> In k (map fst l) \/ JsMap.has m k = true.
Proof.
  revert m. induction l as [|[k0 v0] l IH]; intros m; simpl.
  - tauto.
  - rewrite IH, has_set. rewrite orb_true_iff, String.eqb_eq. tauto.
Qed.

Lemma has_of_entries (V : Type) (l : list (string * V)) k :
  JsMap.has (JsMap.of_entries l) k = true <-> In k (map fst l).
Proof.
  unfold JsMap.of_entries. rewrite has_of_entries_acc.
  unfold JsMap.has, JsMap.empty. simpl. intuition discriminate.
Qed.

Lemma buildDependencyTree_shape fuel name version parentPath s s' tree :
  buildDependencyTree config reg fuel name version parentPath s
  = Some (s', Ret tree) ->
  dn_name tree = name
  /\ exists info,
       JsMap.get (packageCache (fst s')) (name ++ "@" ++ version) = Some info
       /\ dn_version tree = pi_version info
       /\ dn_peerDependencies tree = JsMap.of_entries (pi_peerDependencies info)
       /\ (forall k, JsMap.has (dn_dependencies tree) k = true
                     <-> In k (map fst (pi_dependencies info)))
       /\ (forall k child, In (k, child) (dn_dependencies tree) ->
                           dn_name child = k).
Proof.
  destruct fuel as [|fuel]; [discriminate|].
  rewrite buildDependencyTree_S.
  destruct (getPackageInfo config reg (fst s) name version) as [a1 [e1|info]] eqn:Hg;
    [discriminate|].
  cbv zeta.
  match goal with
  | |- match buildAll ?b ?deps ?s0 with _ => _ end = _ -> _ =>
      destruct (buildAll b deps s0) as [[s2 [e2|results]]|] eqn:Hall;
        try discriminate
  end.
  intros [= <- <-]. simpl. split; [reflexivity|].
  exists info.
  pose proof Hall as Hext.
  apply buildAll_extends in Hext;
    [|intros; eapply buildDependencyTree_extends; eauto].
  apply buildAll_results in Hall. destruct Hall as [Hkeys Hkids].
  split; [apply Hext; simpl; eapply getPackageInfo_caches; eauto|].
  split; [reflexivity|]. split; [reflexivity|]. split.
  - intros k. rewrite has_of_entries. now rewrite Hkeys.
  - intros k child Hin. apply JsMapFacts.In_of_entries in Hin.
    destruct (Hkids _ _ Hin) as (v & s1 & t2 & _ & Hb).
    destruct fuel as [|fuel]; [discriminate|].
    rewrite buildDependencyTree_S in Hb.
    destruct (getPackageInfo config reg (fst s1) k v) as [b1 [e1|info1]];
      [discriminate|].
    cbv zeta in Hb.
    match type of Hb with
    | match buildAll ?b ?deps ?s0 with _ => _ end = _ =>
        destruct (buildAll b deps s0) as [[s3 [e3|results3]]|];
          try discriminate
    end.
    now injection Hb as _ <-.
Qed.

(** X6. The shape of a built node: it carries the name it was asked for,
    and the version, peers and dependencies of the package information
    that the cache now holds under the name and descriptor asked; it has a
    child under a name exactly when that name is a declared dependency, and
    every child carries the name it sits under. *)
Theorem built_node_matches_its_package fuel name version parentPath s s' tree :
  buildDependencyTree config reg fuel name version parentPath s
  = Some (s', Ret tree) ->
  dn_name tree = name
  /\ exists info,
       JsMap.get (packageCache (fst s')) (name ++ "@" ++ version) = Some info
       /\ dn_version tree = pi_version info
       /\ dn_peerDependencies tree = JsMap.of_entries (pi_peerDependencies info)
       /\ (forall k, JsMap.has (dn_dependencies tree) k = true
                     <-> In k (map fst (pi_dependencies info)))
       /\ (forall k child, In (k, child) (dn_dependencies tree) ->
                           dn_name child = k).
Proof. apply buildDependencyTree_shape. Qed.


End BuilderMore.

(** ** Hoist planner *)

Section PlannerMore.
Context {sv : Semver}.

Lemma processDeps_nil key t : processDeps key t [] = Ret t.
Proof. reflexivity. Qed.

Lemma processDeps_cons key t k d rest :
  processDeps key t ((k, d) :: rest) =
  (t' <- processNode t d key false ;; processDeps key t' rest).
Proof. reflexivity. Qed.

(** *** Walks over nodes of a given kind *)

Section WalkOn.
Variable Good : DependencyNode -> string -> Prop.
Hypothesis Good_child :
  forall d p k c, Good d p -> In (k, c) (dn_dependencies d) -> Good c (nodeKey d).
Variable Inv : HoistedTree -> Prop.

Section Keeps.
Hypothesis place_keeps :
  forall t d p t', Good d p -> placeNode t d p = Ret t' -> Inv t -> Inv t'.

Lemma processNode_keeps_on node :
  forall t p t', Good node p -> processNode t node p false = Ret t' ->
                 Inv t -> Inv t'.
Proof.
  induction node as [name version deps peers IH] using DependencyNode_induction.
  intros t p t' Hgood Hrun Ht. rewrite processNode_eq in Hrun. simpl in Hrun.
  apply bind_ret in Hrun. destruct Hrun as (t1 & Hplace & Hdeps).
  apply (place_keeps Hgood) in Hplace; auto. clear Ht.
  assert (Hkids : forall k c, In (k, c) deps -> Good c (name ++ "@" ++ version))
    by (intros k c Hin;
        exact (@Good_child (mkDependencyNode name version deps peers) p k c
                 Hgood Hin)).
  clear Hgood. revert t1 Hplace Hdeps.
  induction IH as [|[k d] deps Hd _ IHdeps]; intros t1 Ht1 Hdeps; simpl in Hdeps.
  - now injection Hdeps as <-.
  - apply bind_ret in Hdeps. destruct Hdeps as (t2 & Hd2 & Hrest).
    eapply IHdeps; [| |exact Hrest].
    + intros k0 c0 Hin. apply (Hkids k0). now right.
    + eapply Hd; eauto. apply (Hkids k). now left.
Qed.

Lemma processDeps_keeps_on key deps :
  (forall k c, In (k, c) deps -> Good c key) ->
  forall t t', processDeps key t deps = Ret t' -> Inv t -> Inv t'.
Proof.
  induction deps as [|[k d] deps IH]; intros Hkids t t' Hrun Ht; simpl in Hrun.
  - now injection Hrun as <-.
  - apply bind_ret in Hrun. destruct Hrun as (t2 & Hd2 & Hrest).
    eapply IH; [|exact Hrest|].
    + intros k0 c0 Hin. apply (Hkids k0). now right.
    + eapply processNode_keeps_on; eauto. apply (Hkids k). now left.
Qed.

End Keeps.

Section Returns.
Hypothesis place_returns :
  forall t d p, Good d p -> Inv t -> exists t', placeNode t d p = Ret t' /\ Inv t'.

Lemma processNode_returns_on node :
  forall t p, Good node p -> Inv t ->
    exists t', processNode t node p false = Ret t' /\ Inv t'.
Proof.
  induction node as [name version deps peers IH] using DependencyNode_induction.
  intros t p Hgood Ht. rewrite processNode_eq. cbv zeta.
  cbn [dn_name dn_version dn_dependencies].
  destruct (place_returns Hgood Ht) as (t1 & -> & Ht1). cbn [bind]. clear Ht.
  assert (Hkids : forall k c, In (k, c) deps -> Good c (name ++ "@" ++ version))
    by (intros k c Hin;
        exact (@Good_child (mkDependencyNode name version deps peers) p k c
                 Hgood Hin)).
  clear Hgood. remember (name ++ "@" ++ version) as key eqn:Hkey. clear Hkey.
  revert t1 Ht1.
  induction IH as [|[k d] deps Hd _ IHdeps]; intros t1 Ht1.
  - rewrite processDeps_nil. eauto.
  - rewrite processDeps_cons.
    destruct (Hd t1 key) as (t2 & Hrun & Ht2); auto.
    + apply (Hkids k). now left.
    + simpl in Hrun. rewrite Hrun. cbn [bind]. apply IHdeps; auto.
      intros k0 c0 Hin. apply (Hkids k0). now right.
Qed.

Lemma processDeps_returns_on key deps :
  (forall k c, In (k, c) deps -> Good c key) ->
  forall t, Inv t -> exists t', processDeps key t deps = Ret t' /\ Inv t'.
Proof.
  induction deps as [|[k d] deps IH]; intros Hkids t Ht.
  - rewrite processDeps_nil. eauto.
  - rewrite processDeps_cons.
    destruct (@processNode_returns_on d t key) as (t2 & Hrun & Ht2); auto.
    + apply (Hkids k). now left.
    + rewrite Hrun. cbn [bind]. apply IH; auto.
      intros k0 c0 Hin. apply (Hkids k0). now right.
Qed.

End Returns.
End WalkOn.

Lemma ChildOf_child tree d p k c :
  ChildOf tree d p -> In (k, c) (dn_dependencies d) -> ChildOf tree c (nodeKey d).
Proof.
  induction 1 as [tree k0 d Hin|tree k0 c0 d p Hin Hsub IH]; intros Hc.
  - eapply child_deeper; [exact Hin|]. eapply child_direct; eauto.
  - eapply child_deeper; [exact Hin|]. auto.
Qed.

Lemma InTree_child tree d k c :
  InTree tree d -> In (k, c) (dn_dependencies d) -> InTree tree c.
Proof.
  intros [ -> |[p Hp]] Hin; right.
  - exists (nodeKey tree). eapply child_direct; eauto.
  - exists (nodeKey d). eapply ChildOf_child; eauto.
Qed.

(** *** The shape of the plan *)

Lemma placeNode_keeps_shape t d p t' :
  placeNode t d p = Ret t' -> WellFormedPlan t -> WellFormedPlan t'.
Proof.
  intros H [Hroot Hnest]. destruct (placeNode_cases _ _ _ H)
    as [[-> _]|[(_ & _ & _ & ->)|(_ & _ & _ & ->)]]; [| |split; auto].
  - split; [exact Hroot|]. intros q bucket k e. unfold nest. simpl.
    rewrite JsMapFacts.get_set.
    destruct (String.eqb p q) eqn:E; [|apply Hnest].
    apply String.eqb_eq in E. subst q. intros [= <-].
    rewrite JsMapFacts.get_set.
    destruct (String.eqb (dn_name d) k) eqn:E'.
    + apply String.eqb_eq in E'. intros [= <-]. simpl. auto.
    + destruct (JsMap.get (nested t) p) as [b|] eqn:Hb; [|discriminate].
      apply (Hnest _ _ _ _ Hb).
  - split; [|exact Hnest]. intros k e. unfold hoist. simpl.
    rewrite JsMapFacts.get_set.
    destruct (String.eqb (dn_name d) k) eqn:E; [|apply Hroot].
    apply String.eqb_eq in E. intros [= <-]. simpl. auto.
Qed.

(** X7. In every plan the planner returns, an entry sits under its own
    name; the entries of the root carry no parent, and the entries of a
    nested bucket carry the path of their bucket as parent. *)
Theorem plan_entries_are_keyed_by_name node t :
  convertToHoistedTree node = Ret t -> WellFormedPlan t.
Proof.
  unfold convertToHoistedTree. rewrite processNode_eq. simpl. intros Hrun.
  apply (processDeps_keeps WellFormedPlan placeNode_keeps_shape) in Hrun; auto.
  split.
  - intros k e. unfold hoist. simpl.
    destruct (String.eqb (dn_name node) k) eqn:E; [|discriminate].
    apply String.eqb_eq in E. intros [= <-]. simpl. auto.
  - intros p bucket k e. discriminate.
Qed.

(** *** Which placements are final *)

Lemma placeNode_keeps_nested_name q k t d p t' :
  placeNode t d p = Ret t' ->
  (exists b, JsMap.get (nested t) q = Some b /\ JsMap.has b k = true) ->
  exists b, JsMap.get (nested t') q = Some b /\ JsMap.has b k = true.
Proof.
  intros H (b & Hb & Hk). destruct (placeNode_cases _ _ _ H)
    as [[-> _]|[(_ & _ & _ & ->)|(_ & _ & _ & ->)]]; eauto.
  unfold nest. simpl. rewrite JsMapFacts.get_set.
  destruct (String.eqb p q) eqn:E; [|eauto].
  apply String.eqb_eq in E. subst q. rewrite Hb.
  eexists. split; [reflexivity|]. rewrite has_set, Hk. apply orb_true_r.
Qed.

Lemma placeNode_keeps_nested_entry q k e t d p t' :
  placeNode t d p = Ret t' ->
  NestedSince t q k e ->
  NestedSince t' q k e.
Proof.
  intros H Hn. destruct (placeNode_cases _ _ _ H)
    as [[-> _]|[(_ & _ & _ & ->)|(_ & _ & _ & ->)]]; try exact Hn.
  destruct Hn as (b & e0 & Hb & Hk & He).
  unfold NestedSince, nest. simpl.
  destruct (String.eqb p q) eqn:E.
  - apply String.eqb_eq in E. subst q. rewrite Hb.
    destruct (String.eqb (dn_name d) k) eqn:E'.
    + apply String.eqb_eq in E'. subst k.
      exists (JsMap.set b (dn_name d) (convertToHoistedDep d (Some p))),
             (convertToHoistedDep d (Some p)).
      split; [now rewrite JsMapFacts.get_set, String.eqb_refl|].
      split; [apply JsMapFacts.get_set_same|].
      right. exists d. auto.
    + exists (JsMap.set b (dn_name d) (convertToHoistedDep d (Some p))), e0.
      split; [now rewrite JsMapFacts.get_set, String.eqb_refl|].
      split; [rewrite JsMapFacts.get_set, E'; exact Hk | exact He].
  - exists b, e0. split; [now rewrite JsMapFacts.get_set, E | auto].
Qed.


Lemma logical_root_stays node t :
  convertToHoistedTree node = Ret t ->
  JsMap.get (root t) (dn_name node) = Some (convertToHoistedDep node None).
Proof.
  unfold convertToHoistedTree. rewrite processNode_eq. simpl. intros Hrun.
  apply (processDeps_keeps
           (fun t => JsMap.get (root t) (dn_name node)
                     = Some (convertToHoistedDep node None))) in Hrun; auto.
  - intros t0 d p t1 Hplace Hget. eapply placeNode_keeps_root_entry; eauto.
  - unfold hoist. simpl. now rewrite String.eqb_refl.
Qed.

(** X9. The node the planner is given is an entry of the root of the
    plan, under its own name, with its own version and an entry for each
    of its direct dependencies; no node of the same name that the walk
    meets later replaces it. *)
Theorem logical_root_is_at_the_root node t :
  convertToHoistedTree node = Ret t ->
  JsMap.get (root t) (dn_name node) = Some (convertToHoistedDep node None)
  /\ hd_version (convertToHoistedDep node None) = dn_version node
  /\ forall k c, In (k, c) (dn_dependencies node) ->
       JsMap.has (hd_dependencies (convertToHoistedDep node None)) k = true.
Proof.
  intros Hrun. split; [now apply logical_root_stays|]. split; [reflexivity|].
  intros k c Hin. unfold convertToHoistedDep. simpl.
  apply has_of_entries. rewrite map_map. simpl.
  apply in_map_iff. exists (k, c). split; [reflexivity | exact Hin].
Qed.

End PlannerMore.

Section PlannerCoverage.
Context {sv : Semver}.

(** *** Nothing is dropped *)

Lemma has_get (V : Type) (m : JsMap.t V) k e :
  JsMap.get m k = Some e -> JsMap.has m k = true.
Proof. unfold JsMap.has. now intros ->. Qed.

Lemma placeNode_keeps_placed x q t d p t' :
  placeNode t d p = Ret t' -> placedSomewhere t x q -> placedSomewhere t' x q.
Proof.
  intros H [Hroot|Hnest].
  - left. apply JsMapFacts.has_true in Hroot. destruct Hroot as [e He].
    eapply has_get. eapply placeNode_keeps_root_entry; eauto.
  - right. eapply placeNode_keeps_nested_name; eauto.
Qed.

Lemma placeNode_places t d p t' :
  placeNode t d p = Ret t' -> placedSomewhere t' d p.
Proof.
  intros H. destruct (placeNode_cases _ _ _ H)
    as [[-> _]|[(_ & _ & _ & ->)|(_ & _ & [e He] & ->)]].
  - right. destruct (nest_places t d p) as (b & Hb & He).
    exists b. split; [exact Hb | eapply has_get; eauto].
  - left. eapply has_get. apply hoist_places.
  - left. eapply has_get; eauto.
Qed.

Lemma placeNode_keeps_covered c key t d p t' :
  placeNode t d p = Ret t' -> Covered t c key -> Covered t' c key.
Proof.
  intros H [Hc Hbelow]. split.
  - eapply placeNode_keeps_placed; eauto.
  - intros x q Hx. eapply placeNode_keeps_placed; eauto.
Qed.

Lemma processDeps_covers key deps :
  Forall (fun nd => forall t p t',
            processNode t (snd nd) p false = Ret t' -> Covered t' (snd nd) p) deps ->
  forall t t', processDeps key t deps = Ret t' ->
    forall k c, In (k, c) deps -> Covered t' c key.
Proof.
  induction 1 as [|[k0 d] deps Hd _ IH]; intros t t' Hrun k c Hin.
  - contradiction.
  - rewrite processDeps_cons in Hrun. apply bind_ret in Hrun.
    destruct Hrun as (t2 & Hone & Hrest). destruct Hin as [[= <- <-]|Hin].
    + apply (processDeps_keeps (fun t => Covered t d key)
               (placeNode_keeps_covered (c := d) (key := key))) in Hrest; auto.
      apply (Hd _ _ _ Hone).
    + eapply IH; eauto.
Qed.

Lemma processNode_covers node :
  forall t p t', processNode t node p false = Ret t' -> Covered t' node p.
Proof.
  induction node as [name version deps peers IH] using DependencyNode_induction.
  intros t p t' Hrun. rewrite processNode_eq in Hrun. cbv zeta in Hrun.
  cbn [dn_name dn_version dn_dependencies] in Hrun.
  apply bind_ret in Hrun. destruct Hrun as (t1 & Hplace & Hdeps).
  split.
  - apply (processDeps_keeps
             (fun t => placedSomewhere t (mkDependencyNode name version deps peers) p))
      in Hdeps.
    + exact Hdeps.
    + intros; eapply placeNode_keeps_placed; eauto.
    + eapply placeNode_places; eauto.
  - intros x q Hx.
    inversion Hx as [? k ? Hin|? k c ? ? Hin Hsub]; subst; simpl in Hin.
    + destruct (@processDeps_covers _ _ IH _ _ Hdeps k x Hin) as [H _]. exact H.
    + destruct (@processDeps_covers _ _ IH _ _ Hdeps k c Hin) as [_ H]. now apply H.
Qed.

Lemma convertToHoistedTree_covers node t :
  convertToHoistedTree node = Ret t ->
  forall d p, ChildOf node d p -> placedSomewhere t d p.
Proof.
  unfold convertToHoistedTree. rewrite processNode_eq. cbv zeta.
  cbn [negb]. intros Hrun d p Hd.
  assert (HF : Forall (fun nd => forall t p t',
                         processNode t (snd nd) p false = Ret t' ->
                         Covered t' (snd nd) p) (dn_dependencies node)).
  { apply Forall_forall. intros [k c] _. simpl. apply processNode_covers. }
  inversion Hd as [? k ? Hin|? k c ? ? Hin Hsub]; subst.
  - destruct (@processDeps_covers _ _ HF _ _ Hrun k d Hin) as [H _]. exact H.
  - destruct (@processDeps_covers _ _ HF _ _ Hrun k c Hin) as [_ H]. now apply H.
Qed.

(** X10. The planner drops no name: for every node of the logical tree
    other than its root, the plan holds an entry for the node's name at
    the root or in the nested bucket of the key of the node's parent. *)
Theorem every_node_has_a_place node t :
  convertToHoistedTree node = Ret t ->
  forall d parentKey,
    ChildOf node d parentKey ->
    JsMap.has (root t) (dn_name d) = true
    \/ exists bucket,
         JsMap.get (nested t) parentKey = Some bucket
         /\ JsMap.has bucket (dn_name d) = true.
Proof.
  intros Hrun d parentKey Hd.
  eapply convertToHoistedTree_covers; eauto.
Qed.

(** *** Every entry is a node of the tree *)

Lemma placeNode_keeps_provenance tree t d p t' :
  ChildOf tree d p -> placeNode t d p = Ret t' ->
  PlanFromTree tree t -> PlanFromTree tree t'.
Proof.
  intros Hd H [Hroot Hnest]. destruct (placeNode_cases _ _ _ H)
    as [[-> _]|[(_ & _ & _ & ->)|(_ & _ & _ & ->)]]; [| |split; auto].
  - split; [exact Hroot|]. intros q bucket k e. unfold nest. simpl. intros Hq Hk.
    apply JsMapFacts.In_set in Hq. destruct Hq as [[-> ->]|Hq]; [|eauto].
    apply JsMapFacts.In_set in Hk. destruct Hk as [[-> ->]|Hk]; [eauto|].
    destruct (JsMap.get (nested t) p) as [b|] eqn:Hb; [|contradiction].
    apply JsMapFacts.get_In in Hb. eauto.
  - split; [|exact Hnest]. intros k e. unfold hoist. simpl. intros Hk.
    apply JsMapFacts.In_set in Hk. destruct Hk as [[-> ->]|Hk]; [|eauto].
    exists d. split; [right; eauto | auto].
Qed.

(** X11. The planner invents nothing: every entry of the root of a plan
    is the record of a node of the logical tree (its name, its version,
    the versions of its direct dependencies, its peers), and every entry
    of a nested bucket is the record of a node whose parent has the key of
    the bucket. *)
Theorem plan_entries_come_from_the_tree node t :
  convertToHoistedTree node = Ret t -> PlanFromTree node t.
Proof.
  unfold convertToHoistedTree. rewrite processNode_eq. cbv zeta. cbn [negb].
  intros Hrun.
  apply (@processDeps_keeps_on _ (fun d p => ChildOf node d p)) with
    (Inv := PlanFromTree node) in Hrun; auto.
  - intros d p k c Hd Hin. eapply ChildOf_child; eauto.
  - intros t0 d p t1 Hd. now apply placeNode_keeps_provenance.
  - intros k c Hin. eapply child_direct; eauto.
  - split.
    + intros k e [[= <- <-]|[]]. exists node. split; [now left | auto].
    + intros p bucket k e [].
Qed.

(** *** Trees without peers *)

Lemma rootPeersAccept_no_peers entries dep :
  (forall k e, In (k, e) entries -> hd_peerDependencies e = []) ->
  rootPeersAccept entries dep = Ret true.
Proof.
  induction entries as [|[k e] entries IH]; intros Hfree; simpl; [reflexivity|].
  rewrite (Hfree k e (or_introl eq_refl)). simpl.
  apply IH. intros k0 e0 Hin. apply (Hfree k0). now right.
Qed.

Lemma canBeHoisted_no_peers t d :
  RootPeerFree t -> dn_peerDependencies d = [] -> canBeHoisted t d = Ret true.
Proof.
  intros Hfree Hd. unfold canBeHoisted.
  rewrite rootPeersAccept_no_peers by exact Hfree. simpl. now rewrite Hd.
Qed.

Lemma hoist_keeps_peer_free t d :
  RootPeerFree t -> dn_peerDependencies d = [] -> RootPeerFree (hoist t d).
Proof.
  intros Hfree Hd k e. unfold hoist. simpl. intros Hin.
  apply JsMapFacts.In_set in Hin. destruct Hin as [[-> ->]|Hin]; [exact Hd|eauto].
Qed.

(** X12. On a logical tree in which no node declares a peer the planner
    always returns a plan, whatever the semver operations do, throwing
    included: the hoisting check calls none of them and the conflict
    check catches what they throw. *)
Theorem planner_returns_on_peer_free_trees node :
  PeerFree node ->
  exists t, convertToHoistedTree node = Ret t /\ RootPeerFree t.
Proof.
  intros Hfree. unfold convertToHoistedTree. rewrite processNode_eq. cbv zeta.
  cbn [negb].
  apply (@processDeps_returns_on _ (fun d p => InTree node d)) with
    (Inv := RootPeerFree).
  - intros d p k c Hd Hin. eapply InTree_child; eauto.
  - intros t d p Hd Ht. unfold placeNode.
    rewrite canBeHoisted_no_peers by (auto using Hfree). simpl.
    destruct (JsMap.get (root t) (dn_name d)) as [existing|].
    + destruct (hasVersionConflict existing d); eexists; split; eauto.
    + eexists. split; [reflexivity|]. apply hoist_keeps_peer_free; auto.
  - intros k c Hin. right. exists (nodeKey node). eapply child_direct; eauto.
  - apply hoist_keeps_peer_free; [intros k e []|]. apply Hfree. now left.
Qed.

(** *** Trees that hoist completely *)

Lemma FlatPlanOf_peer_free tree t : FlatPlanOf tree t -> RootPeerFree t.
Proof. intros [_ H] k e Hin. now destruct (H k e Hin). Qed.

Lemma placeNode_flat tree t d p :
  PeerFree tree -> OneVersionPerName tree ->
  InTree tree d -> FlatPlanOf tree t ->
  exists t', placeNode t d p = Ret t' /\ FlatPlanOf tree t'.
Proof.
  intros Hfree Hone Hd Ht. unfold placeNode.
  rewrite canBeHoisted_no_peers
    by (eauto using FlatPlanOf_peer_free).
  cbn [bind].
  destruct (JsMap.get (root t) (dn_name d)) as [existing|] eqn:Hget.
  - destruct Ht as [Hn Hroot].
    destruct (Hroot _ _ (JsMapFacts.get_In _ _ Hget)) as (_ & d' & Hd' & Hname & Hver).
    rewrite conflict_same.
    + eexists. split; [reflexivity|]. split; auto.
    + rewrite Hver. apply Hone; auto.
  - eexists. split; [reflexivity|]. destruct Ht as [Hn Hroot]. split; [exact Hn|].
    intros k e. unfold hoist. simpl. intros Hin.
    apply JsMapFacts.In_set in Hin. destruct Hin as [[-> ->]|Hin]; [|eauto].
    split; [apply Hfree; exact Hd|]. exists d. auto.
Qed.

(** X13. A logical tree without peers in which nodes of the same name
    have the same version is hoisted completely: the planner returns a
    plan, nothing is nested, and every node of the tree finds its name at
    the root with its own version, so that every package is there once. *)
Theorem consistent_trees_hoist_flat node :
  PeerFree node -> OneVersionPerName node ->
  exists t,
    convertToHoistedTree node = Ret t
    /\ nested t = []
    /\ forall d, InTree node d ->
         exists e, JsMap.get (root t) (dn_name d) = Some e
                   /\ hd_version e = dn_version d.
Proof.
  intros Hfree Hone.
  assert (Hrun : exists t, convertToHoistedTree node = Ret t /\ FlatPlanOf node t).
  { unfold convertToHoistedTree. rewrite processNode_eq. cbv zeta. cbn [negb].
    apply (@processDeps_returns_on _ (fun d p => InTree node d)) with
      (Inv := FlatPlanOf node).
    - intros d p k c Hd Hin. eapply InTree_child; eauto.
    - intros t d p Hd Ht. now apply placeNode_flat.
    - intros k c Hin. right. exists (nodeKey node). eapply child_direct; eauto.
    - split; [reflexivity|]. intros k e [[= <- <-]|[]].
      split; [apply Hfree; now left|]. exists node. split; [now left | auto]. }
  destruct Hrun as (t & Hrun & Hn & Hroot).
  exists t. split; [exact Hrun|]. split; [exact Hn|].
  intros d Hd.
  assert (Hhas : JsMap.has (root t) (dn_name d) = true).
  { destruct Hd as [ -> |[p Hp]].
    - eapply has_get. eapply logical_root_stays; eauto.
    - destruct (@convertToHoistedTree_covers node t Hrun d p Hp) as [H|(b & Hb & _)];
        [exact H|]. rewrite Hn in Hb. discriminate. }
  apply JsMapFacts.has_true in Hhas. destruct Hhas as [e He].
  exists e. split; [exact He|].
  destruct (Hroot _ _ (JsMapFacts.get_In _ _ He)) as (_ & d' & Hd' & Hname & Hver).
  rewrite Hver. apply Hone; auto.
Qed.

(** *** The conflict predicate *)

(** X14. The conflict predicate depends on the two version strings only,
    and not on which of them is the entry at the root and which the
    candidate. *)
Theorem hasVersionConflict_is_symmetric dep1 dep2 dep1' dep2' :
  hd_version dep1' = dn_version dep2 ->
  dn_version dep2' = hd_version dep1 ->
  hasVersionConflict dep1' dep2' = hasVersionConflict dep1 dep2.
Proof.
  intros H1 H2. unfold hasVersionConflict. rewrite H1, H2.
  rewrite (String.eqb_sym (dn_version dep2) (hd_version dep1)).
  destruct (String.eqb (hd_version dep1) (dn_version dep2)); [reflexivity|].
  destruct (validRange (hd_version dep1)) as [e1|r1];
    destruct (validRange (dn_version dep2)) as [e2|r2]; cbn [bind]; auto.
  destruct (valid (hd_version dep1)) as [e3|v1];
    destruct (valid (dn_version dep2)) as [e4|v2]; cbn [bind]; auto.
  destruct (truthy v1), (truthy v2); cbn [andb]; auto.
  now rewrite String.eqb_sym.
Qed.

End PlannerCoverage.

Lemma plan_entries_are_keyed_by_name_witness :
  WellFormedPlan (Fixtures.planOf Fixtures.scenarioS7).
Proof.
  apply (@plan_entries_are_keyed_by_name MiniSemver.semver Fixtures.scenarioS7
           (Fixtures.planOf Fixtures.scenarioS7)).
  reflexivity.
Defined.


Lemma logical_root_is_at_the_root_witness :
  JsMap.get (root (Fixtures.planOf Fixtures.scenarioS7)) "virtual-root"
  = Some (convertToHoistedDep Fixtures.scenarioS7 None)
  /\ hd_version (convertToHoistedDep Fixtures.scenarioS7 None) = "0.0.0"
  /\ forall k c, In (k, c) (dn_dependencies Fixtures.scenarioS7) ->
       JsMap.has (hd_dependencies (convertToHoistedDep Fixtures.scenarioS7 None)) k
       = true.
Proof.
  apply (@logical_root_is_at_the_root MiniSemver.semver Fixtures.scenarioS7
           (Fixtures.planOf Fixtures.scenarioS7)).
  reflexivity.
Defined.

Lemma every_node_has_a_place_witness :
  JsMap.has (root (Fixtures.planOf Fixtures.scenarioS7)) "react" = true
  \/ exists bucket,
       JsMap.get (nested (Fixtures.planOf Fixtures.scenarioS7)) "B@1.0.0"
       = Some bucket
       /\ JsMap.has bucket "react" = true.
Proof.
  apply (@every_node_has_a_place MiniSemver.semver Fixtures.scenarioS7
           (Fixtures.planOf Fixtures.scenarioS7) eq_refl
           (Fixtures.leaf "react" "17.0.2" []) "B@1.0.0").
  eapply child_deeper; [right; left; reflexivity|].
  apply (@child_direct
           {| dn_name := "B"; dn_version := "1.0.0";
              dn_dependencies := [("react", Fixtures.leaf "react" "17.0.2" [])];
              dn_peerDependencies := [] |} "react").
  left. reflexivity.
Defined.

Lemma plan_entries_come_from_the_tree_witness :
  PlanFromTree Fixtures.scenarioS7 (Fixtures.planOf Fixtures.scenarioS7).
Proof.
  apply (@plan_entries_come_from_the_tree MiniSemver.semver Fixtures.scenarioS7
           (Fixtures.planOf Fixtures.scenarioS7)).
  reflexivity.
Defined.

Lemma sharedTree_nodes d :
  InTree Fixtures.sharedTree d ->
  d = Fixtures.sharedTree
  \/ (dn_name d = "a" /\ dn_version d = "1.0.0" /\ dn_peerDependencies d = [])
  \/ (dn_name d = "b" /\ dn_version d = "1.0.0" /\ dn_peerDependencies d = [])
  \/ d = Fixtures.leaf "c" "1.1.0" [].
Proof.
  intros [ -> |[p Hp]]; [now left|]. right.
  repeat match goal with
  | H : False |- _ => contradiction
  | H : (_, _) = (_, _) |- _ => injection H as <- <-
  | H : _ \/ _ |- _ => destruct H as [H|H]
  | H : In _ _ |- _ => progress simpl in H
  | H : ChildOf (mkDependencyNode _ _ _ _) _ _ |- _ => inversion H; subst; clear H
  | H : ChildOf Fixtures.sharedTree _ _ |- _ => inversion H; subst; clear H
  | H : ChildOf (Fixtures.leaf _ _ _) _ _ |- _ => inversion H; subst; clear H
  end; simpl; auto 6.
Qed.

Lemma sharedTree_is_peer_free : PeerFree Fixtures.sharedTree.
Proof.
  intros d Hd. apply sharedTree_nodes in Hd.
  destruct Hd as [ -> |[(_ & _ & H)|[(_ & _ & H)| -> ]]]; auto.
Qed.

Lemma sharedTree_has_one_version_per_name : OneVersionPerName Fixtures.sharedTree.
Proof.
  intros d1 d2 H1 H2 Hname.
  apply sharedTree_nodes in H1. apply sharedTree_nodes in H2.
  destruct H1 as [ -> |[(N1 & V1 & _)|[(N1 & V1 & _)| -> ]]];
    destruct H2 as [ -> |[(N2 & V2 & _)|[(N2 & V2 & _)| -> ]]];
    simpl in *; try congruence;
    try (rewrite N1 in Hname; discriminate);
    try (rewrite N2 in Hname; discriminate).
Qed.

Lemma planner_returns_on_peer_free_trees_witness :
  exists t,
    convertToHoistedTree (sv := Fixtures.brokenSemver) Fixtures.sharedTree = Ret t
    /\ RootPeerFree t.
Proof.
  apply (@planner_returns_on_peer_free_trees Fixtures.brokenSemver
           Fixtures.sharedTree sharedTree_is_peer_free).
Defined.

Lemma consistent_trees_hoist_flat_witness :
  exists t,
    convertToHoistedTree (sv := Fixtures.brokenSemver) Fixtures.sharedTree = Ret t
    /\ nested t = []
    /\ forall d, InTree Fixtures.sharedTree d ->
         exists e, JsMap.get (root t) (dn_name d) = Some e
                   /\ hd_version e = dn_version d.
Proof.
  apply (@consistent_trees_hoist_flat Fixtures.brokenSemver Fixtures.sharedTree
           sharedTree_is_peer_free sharedTree_has_one_version_per_name).
Defined.

Lemma hasVersionConflict_is_symmetric_witness :
  hasVersionConflict (sv := MiniSemver.semver)
    (Fixtures.placed "react" "^18.0.0") (Fixtures.leaf "react" "17.0.2" [])
  = hasVersionConflict (sv := MiniSemver.semver)
      (Fixtures.placed "react" "17.0.2") (Fixtures.leaf "react" "^18.0.0" []).
Proof.
  apply (@hasVersionConflict_is_symmetric MiniSemver.semver
           (Fixtures.placed "react" "17.0.2") (Fixtures.leaf "react" "^18.0.0" [])
           (Fixtures.placed "react" "^18.0.0") (Fixtures.leaf "react" "17.0.2" []));
    reflexivity.
Defined.

(** ** Analyzer *)

Section AnalyzerMore.
Context {sv : Semver}.
Variable config : Config.
Variable reg : Registry.

(** *** The analyzer only grows *)

Lemma analyzeSingle_grows fuel a name version a' r :
  analyzeSingle config reg fuel a name version = Some (a', r) ->
  analyzerGrows a a'.
Proof.
  unfold analyzeSingle.
  destruct (buildDependencyTree config reg fuel name version "" (a, JsMap.empty))
    as [[[a1 f1] r1]|] eqn:Hb; [|discriminate].
  apply buildDependencyTree_grows in Hb. simpl in Hb.
  destruct r1; intros [= <- _]; exact Hb.
Qed.

Lemma analyzeEach_grows fuel packages :
  forall a individual a' r,
    analyzeEach config reg fuel a packages individual = Some (a', r) ->
    analyzerGrows a a'.
Proof.
  induction packages as [|pkg packages IH]; intros a individual a' r Hrun;
    simpl in Hrun.
  - injection Hrun as <- _. apply analyzerGrows_refl.
  - destruct (analyzeSingle config reg fuel a (pr_name pkg) (pr_version pkg))
      as [[a1 [e|res]]|] eqn:Hone; try discriminate.
    + injection Hrun as <- _. eapply analyzeSingle_grows; eauto.
    + eapply analyzerGrows_trans; [eapply analyzeSingle_grows; eauto|].
      eapply IH; eauto.
Qed.

(** X4. No analysis, single or multiple, returning a result or failing,
    ever removes or changes what the cache holds, or forgets a request it
    has issued: the analyzer after the call extends the analyzer before. *)
Theorem analyze_only_adds_to_the_cache fuel a input version a' r :
  analyze config reg fuel a input version = Some (a', r) ->
  (forall key info,
     JsMap.get (packageCache a) key = Some info ->
     JsMap.get (packageCache a') key = Some info)
  /\ exists more, requests a' = (requests a ++ more)%list.
Proof.
  unfold analyze. destruct input as [name|packages].
  - destruct (truthy version).
    + destruct (analyzeSingle config reg fuel a name (orElse version ""))
        as [[a1 r1]|] eqn:Hone; [|discriminate].
      intros [= <- _]. eapply analyzeSingle_grows; eauto.
    + intros [= <- _]. apply analyzerGrows_refl.
  - destruct (analyzeMultiple config reg fuel a packages) as [[a1 r1]|] eqn:Hm;
      [|discriminate].
    intros [= <- _]. unfold analyzeMultiple in Hm.
    destruct (analyzeEach config reg fuel a packages JsMap.empty)
      as [[a2 [e|individual]]|] eqn:He; try discriminate;
      injection Hm as <- _; eapply analyzeEach_grows; eauto.
Qed.

(** *** Arguments *)

(** X15. The single-package form without a version, or with the empty
    string as version, fails with the generic invalid-arguments error and
    not with a [PackageNotFoundError]; the registry is not asked and the
    analyzer is left as it was.  With a non-empty version it is the
    single-package analysis. *)
Theorem analyze_requires_a_version fuel a name :
  let invalid :=
    Error "Invalid arguments: When analyzing a single package, both name and version are required" in
  analyze config reg fuel a (inl name) None = Some (a, Throw invalid)
  /\ analyze config reg fuel a (inl name) (Some "") = Some (a, Throw invalid)
  /\ forall version, version <> "" ->
       analyze config reg fuel a (inl name) (Some version) =
       match analyzeSingle config reg fuel a name version with
       | Some (a', r) => Some (a', (x <- r ;; Ret (SingleOutput x)))
       | None => None
       end.
Proof.
  split; [reflexivity|]. split; [reflexivity|].
  intros version Hne. unfold analyze.
  rewrite (truthy_some Hne), (orElse_some _ Hne). reflexivity.
Qed.

(** *** The result of a single analysis *)

(** X16. The three parts of a single-package result belong together: the
    tree's root carries the name asked for; the hoisted tree is the plan
    of that tree and holds the package itself at its root; the flat index
    holds the package under ["name@version"] as required by ["root"]; and
    the cache holds the resolution under the name and descriptor asked. *)
Theorem single_analysis_is_coherent fuel a name version a' result :
  analyzeSingle config reg fuel a name version = Some (a', Ret result) ->
  let tree := dependencyTree result in
  dn_name tree = name
  /\ convertToHoistedTree tree = Ret (hoistedTree result)
  /\ JsMap.get (root (hoistedTree result)) name
     = Some (convertToHoistedDep tree None)
  /\ (exists entry,
        JsMap.get (flatDependencies result) (name ++ "@" ++ dn_version tree)
        = Some entry
        /\ In "root" (fd_requiredBy entry))
  /\ (exists info,
        JsMap.get (packageCache a') (name ++ "@" ++ version) = Some info
        /\ pi_version info = dn_version tree).
Proof.
  unfold analyzeSingle.
  destruct (buildDependencyTree config reg fuel name version "" (a, JsMap.empty))
    as [[[a1 f1] [e|tree]]|] eqn:Hb; try discriminate.
  intros [= <- Hres]. apply bind_ret in Hres.
  destruct Hres as (hoisted & Hplan & [= <-]). cbv zeta. simpl.
  pose proof (buildDependencyTree_shape _ _ _ _ _ _ _ Hb) as [Hname (info & Hc & Hv & _)].
  split; [exact Hname|]. split; [exact Hplan|].
  split; [rewrite <- Hname; now apply logical_root_stays|].
  split.
  - apply buildDependencyTree_registers in Hb. destruct Hb as [_ R].
    destruct (R tree "" (occurs_here tree "")) as (entry & He & Hin).
    rewrite Hname in He. eauto.
  - exists info. split; [exact Hc | now rewrite Hv].
Qed.

(** *** The multi-package analysis *)

Lemma analyzeEach_individual fuel packages :
  forall a individual0 a' individual,
    analyzeEach config reg fuel a packages individual0 = Some (a', Ret individual) ->
    (forall k, JsMap.has individual0 k = true -> JsMap.has individual k = true)
    /\ (forall pkg, In pkg packages -> JsMap.has individual (requestKey pkg) = true)
    /\ (forall k res, JsMap.get individual k = Some res ->
          JsMap.get individual0 k = Some res
          \/ exists pkg a1 a2,
               In pkg packages /\ k = requestKey pkg
               /\ analyzeSingle config reg fuel a1 (pr_name pkg) (pr_version pkg)
                  = Some (a2, Ret res)).
Proof.
  induction packages as [|pkg packages IH]; intros a individual0 a' individual Hrun;
    simpl in Hrun.
  - injection Hrun as _ <-. split; [auto|]. split; [intros pkg []|auto].
  - destruct (analyzeSingle config reg fuel a (pr_name pkg) (pr_version pkg))
      as [[a1 [e|res0]]|] eqn:Hone; try discriminate.
    destruct (IH _ _ _ _ Hrun) as (Hkeep & Hall & Hfrom).
    split; [|split].
    + intros k Hk. apply Hkeep. rewrite has_set, Hk. apply orb_true_r.
    + intros pkg0 [<-|Hin]; [|auto].
      apply Hkeep. rewrite has_set. unfold requestKey.
      now rewrite String.eqb_refl.
    + intros k res Hk. destruct (Hfrom _ _ Hk) as [Hold|(p0 & b1 & b2 & Hin & Hkey & Hs)].
      * rewrite JsMapFacts.get_set in Hold.
        match type of Hold with
        | context [String.eqb ?x k] => destruct (String.eqb x k) eqn:E
        end; [|now left].
        injection Hold as <-. apply String.eqb_eq in E. right.
        exists pkg, a, a1. split; [now left|].
        split; [now rewrite <- E | exact Hone].
      * right. exists p0, b1, b2. split; [now right | auto].
Qed.

(** X17. In the result of a multi-package analysis, [individual] has an
    entry under ["name@descriptor"] for every request, and every entry it
    has is the result of the single-package analysis of a request with
    that key. *)
Theorem individual_results_are_keyed_by_request fuel a packages a' r :
  analyzeMultiple config reg fuel a packages = Some (a', Ret r) ->
  (forall pkg, In pkg packages ->
     exists res, JsMap.get (individual r) (requestKey pkg) = Some res)
  /\ (forall k res, JsMap.get (individual r) k = Some res ->
        exists pkg a1 a2,
          In pkg packages /\ k = requestKey pkg
          /\ analyzeSingle config reg fuel a1 (pr_name pkg) (pr_version pkg)
             = Some (a2, Ret res)).
Proof.
  unfold analyzeMultiple.
  destruct (analyzeEach config reg fuel a packages JsMap.empty)
    as [[a1 [e|individual]]|] eqn:He; try discriminate.
  intros [= <- Hr]. apply bind_ret in Hr. destruct Hr as (t & _ & [= <-]). simpl.
  destruct (analyzeEach_individual _ _ _ _ He) as (_ & Hall & Hfrom).
  split.
  - intros pkg Hin. apply JsMapFacts.has_true. auto.
  - intros k res Hk. destruct (Hfrom _ _ Hk) as [Hold|H]; [discriminate | exact H].
Qed.

(** X18. A multi-package analysis is all or nothing: when the analysis of
    one request fails, after the requests before it succeeded, the whole
    call fails with that error, in the state that failure left, and the
    requests after it are not analysed. *)
Theorem first_failure_fails_the_whole_analysis fuel before pkg after :
  forall a a1 individual a2 e,
    analyzeEach config reg fuel a before JsMap.empty = Some (a1, Ret individual) ->
    analyzeSingle config reg fuel a1 (pr_name pkg) (pr_version pkg)
    = Some (a2, Throw e) ->
    analyzeMultiple config reg fuel a (before ++ pkg :: after) = Some (a2, Throw e).
Proof.
  intros a a1 individual a2 e Hbefore Hfail. unfold analyzeMultiple.
  assert (Hgen : forall prefix b ind0 b1 ind1,
             analyzeEach config reg fuel b prefix ind0 = Some (b1, Ret ind1) ->
             analyzeEach config reg fuel b (prefix ++ pkg :: after) ind0 =
             analyzeEach config reg fuel b1 (pkg :: after) ind1).
  { induction prefix as [|p0 prefix IH]; intros b ind0 b1 ind1 Hrun;
      simpl in Hrun.
    - injection Hrun as <- <-. reflexivity.
    - simpl. destruct (analyzeSingle config reg fuel b (pr_name p0) (pr_version p0))
        as [[b2 [e0|res0]]|]; try discriminate. now apply IH. }
  rewrite (Hgen _ _ _ _ _ Hbefore). simpl. now rewrite Hfail.
Qed.

Lemma fold_add_incl (xs : list string) :
  forall s, incl s (fold_left JsSet.add xs s) /\ incl xs (fold_left JsSet.add xs s).
Proof.
  induction xs as [|x xs IH]; intros s; simpl.
  - split; [apply incl_refl | intros y []].
  - destruct (IH (JsSet.add s x)) as [H1 H2]. split.
    + eapply incl_tran; [apply JsSet_add_incl | exact H1].
    + intros y [<-|Hy]; [apply H1, JsSet_add_In | auto].
Qed.

Lemma mergeFlat_spec flat :
  forall c,
    flatGrows c (mergeFlat c flat)
    /\ (forall k e, In (k, e) flat ->
          exists e', JsMap.get (mergeFlat c flat) k = Some e'
                     /\ incl (fd_requiredBy e) (fd_requiredBy e'))
    /\ (forall k, JsMap.has (mergeFlat c flat) k = true ->
          JsMap.has c k = true \/ In k (map fst flat)).
Proof.
  unfold mergeFlat. induction flat as [|[k0 e0] flat IH]; intros c; simpl.
  - split; [apply flatGrows_refl|]. split; [intros k e []|auto].
  - match goal with
    | |- context [fold_left ?f flat ?c1] =>
        destruct (IH c1) as (Hg & Hin & Hkeys); set (c' := c1) in *
    end.
    assert (Hstep : flatGrows c c'
                    /\ exists e', JsMap.get c' k0 = Some e'
                                  /\ incl (fd_requiredBy e0) (fd_requiredBy e')).
    { subst c'. destruct (JsMap.get c k0) as [e|] eqn:Hc.
      - split.
        + intros k e1 Hk. rewrite JsMapFacts.get_set.
          destruct (String.eqb k0 k) eqn:E; [|exists e1; split; auto using incl_refl].
          apply String.eqb_eq in E. subst k. rewrite Hk in Hc. injection Hc as ->.
          eexists. split; [reflexivity|]. simpl. apply fold_add_incl.
        + eexists. split; [apply JsMapFacts.get_set_same|]. simpl.
          apply fold_add_incl.
      - split.
        + intros k e1 Hk. rewrite JsMapFacts.get_set.
          destruct (String.eqb k0 k) eqn:E; [|exists e1; split; auto using incl_refl].
          apply String.eqb_eq in E. subst k. congruence.
        + eexists. split; [apply JsMapFacts.get_set_same|]. simpl.
          apply incl_refl. }
    destruct Hstep as [Hgc (e1 & He1 & Hi1)].
    split; [eapply flatGrows_trans; eauto|]. split.
    + intros k e [[= <- <-]|Hk]; [|auto].
      destruct (Hg _ _ He1) as (e2 & He2 & Hi2).
      exists e2. split; [exact He2 | eapply incl_tran; eauto].
    + intros k Hk. destruct (Hkeys _ Hk) as [Hc'|Hl]; [|auto].
      subst c'. destruct (JsMap.get c k0);
        rewrite has_set in Hc'; apply orb_true_iff in Hc';
        (destruct Hc' as [E|Hc']; [apply String.eqb_eq in E; subst; auto | auto]).
Qed.

Lemma merged_flat_spec (individual : JsMap.t AnalysisResult) :
  forall acc,
    let merged :=
      fold_left
        (fun acc kr =>
           (JsMap.set (fst acc) (fst kr) (dependencyTree (snd kr)),
            mergeFlat (snd acc) (flatDependencies (snd kr))))
        individual acc in
    flatGrows (snd acc) (snd merged)
    /\ (forall key res k e,
          In (key, res) individual -> In (k, e) (flatDependencies res) ->
          exists e', JsMap.get (snd merged) k = Some e'
                     /\ incl (fd_requiredBy e) (fd_requiredBy e'))
    /\ (forall k, JsMap.has (snd merged) k = true ->
          JsMap.has (snd acc) k = true
          \/ exists key res, In (key, res) individual
                             /\ In k (map fst (flatDependencies res))).
Proof.
  induction individual as [|[key0 res0] individual IH]; intros acc; simpl.
  - split; [apply flatGrows_refl|]. split; [intros ? ? ? ? []|auto].
  - match goal with
    | |- context [fold_left ?f individual ?acc1] =>
        destruct (IH acc1) as (Hg & Hin & Hkeys)
    end.
    simpl in Hg, Hkeys.
    destruct (mergeFlat_spec (flatDependencies res0) (snd acc)) as (Mg & Min & Mkeys).
    split; [eapply flatGrows_trans; eauto|]. split.
    + intros key res k e [[= <- <-]|Hk] He; [|eauto].
      destruct (Min _ _ He) as (e1 & He1 & Hi1).
      destruct (Hg _ _ He1) as (e2 & He2 & Hi2).
      exists e2. split; [exact He2 | eapply incl_tran; eauto].
    + intros k Hk. destruct (Hkeys _ Hk) as [Hc|(key & res & Hin0 & Hk0)].
      * destruct (Mkeys _ Hc) as [H0|H0]; [auto|].
        right. exists key0, res0. split; [now left | exact H0].
      * right. exists key, res. split; [now right | exact Hk0].
Qed.

(** X19. The combined flat index of a multi-package analysis is the union
    of the individual ones: every key of an individual flat index is a key
    of the combined one, whose [requiredBy] holds every path of the
    individual entry, and the combined index has no key that none of the
    individual ones has. *)
Theorem combined_flat_is_the_union fuel a packages a' r :
  analyzeMultiple config reg fuel a packages = Some (a', Ret r) ->
  (forall key res k e,
     In (key, res) (individual r) -> In (k, e) (flatDependencies res) ->
     exists e', JsMap.get (co_flatDependencies (combined r)) k = Some e'
                /\ incl (fd_requiredBy e) (fd_requiredBy e'))
  /\ (forall k, JsMap.has (co_flatDependencies (combined r)) k = true ->
        exists key res, In (key, res) (individual r)
                        /\ In k (map fst (flatDependencies res))).
Proof.
  unfold analyzeMultiple.
  destruct (analyzeEach config reg fuel a packages JsMap.empty)
    as [[a1 [e|individual]]|] eqn:He; try discriminate.
  intros [= <- Hr]. apply bind_ret in Hr. destruct Hr as (t & _ & [= <-]). simpl.
  destruct (merged_flat_spec individual (JsMap.empty, JsMap.empty))
    as (_ & Hin & Hkeys).
  split; [exact Hin|].
  intros k Hk. destruct (Hkeys _ Hk) as [H0|H0]; [discriminate | exact H0].
Qed.

End AnalyzerMore.

Lemma build_throws_only_package_not_found_witness :
  exists failedName failedVersion c,
    PackageNotFoundError "pkg" "next"
      (Some (Error "Cannot read properties of undefined (reading 'name')"))
    = PackageNotFoundError failedName failedVersion (Some c).
Proof.
  apply (@build_throws_only_package_not_found MiniSemver.semver Fixtures.npmjs
           Fixtures.danglingRegistry 2 "pkg" "next" ""
           (newAnalyzer, JsMap.empty)
           ({| packageCache := [];
               requests := ["https://registry.npmjs.org/pkg"] |}, [])).
  reflexivity.
Defined.

Lemma built_node_matches_its_package_witness :
  dn_name Fixtures.diamondTree = "app"
  /\ exists info,
       JsMap.get (packageCache Fixtures.diamondAnalyzer) "app@1.0.0" = Some info
       /\ dn_version Fixtures.diamondTree = pi_version info
       /\ dn_peerDependencies Fixtures.diamondTree
          = JsMap.of_entries (pi_peerDependencies info)
       /\ (forall k, JsMap.has (dn_dependencies Fixtures.diamondTree) k = true
                     <-> In k (map fst (pi_dependencies info)))
       /\ (forall k child, In (k, child) (dn_dependencies Fixtures.diamondTree) ->
                           dn_name child = k).
Proof.
  apply (@built_node_matches_its_package MiniSemver.semver Fixtures.npmjs
           Fixtures.diamondRegistry 3 "app" "1.0.0" ""
           (newAnalyzer, JsMap.empty)
           (Fixtures.diamondAnalyzer, Fixtures.diamondFlat) Fixtures.diamondTree).
  reflexivity.
Defined.

Lemma analyze_only_adds_to_the_cache_witness :
  (forall key info,
     JsMap.get (packageCache Fixtures.twoMultiAnalyzer) key = Some info ->
     JsMap.get (packageCache Fixtures.afterTwoAnalyzer) key = Some info)
  /\ exists more,
       requests Fixtures.afterTwoAnalyzer
       = (requests Fixtures.twoMultiAnalyzer ++ more)%list.
Proof.
  apply (@analyze_only_adds_to_the_cache MiniSemver.semver Fixtures.npmjs
           Fixtures.diamondRegistry 3 Fixtures.twoMultiAnalyzer
           (inl "app") (Some "1.0.0")
           Fixtures.afterTwoAnalyzer (Ret Fixtures.diamondOutput)).
  reflexivity.
Defined.

Lemma single_analysis_is_coherent_witness :
  exists a' result,
    analyzeSingle (sv := MiniSemver.semver) Fixtures.npmjs Fixtures.diamondRegistry
      3 newAnalyzer "app" "latest" = Some (a', Ret result)
    /\ dn_name (dependencyTree result) = "app"
    /\ convertToHoistedTree (sv := MiniSemver.semver) (dependencyTree result)
       = Ret (hoistedTree result)
    /\ JsMap.get (root (hoistedTree result)) "app"
       = Some (convertToHoistedDep (dependencyTree result) None)
    /\ (exists entry,
          JsMap.get (flatDependencies result)
            ("app" ++ "@" ++ dn_version (dependencyTree result)) = Some entry
          /\ In "root" (fd_requiredBy entry))
    /\ (exists info,
          JsMap.get (packageCache a') "app@latest" = Some info
          /\ pi_version info = dn_version (dependencyTree result)).
Proof.
  eexists. eexists. split; [vm_compute; reflexivity|].
  apply (@single_analysis_is_coherent MiniSemver.semver Fixtures.npmjs
           Fixtures.diamondRegistry 3 newAnalyzer "app" "latest").
  reflexivity.
Defined.

Lemma individual_results_are_keyed_by_request_witness :
  (forall pkg, In pkg Fixtures.twoRequests ->
     exists res,
       JsMap.get (individual Fixtures.twoMultiResult) (requestKey pkg) = Some res)
  /\ (forall k res, JsMap.get (individual Fixtures.twoMultiResult) k = Some res ->
        exists pkg a1 a2,
          In pkg Fixtures.twoRequests /\ k = requestKey pkg
          /\ analyzeSingle (sv := MiniSemver.semver) Fixtures.npmjs
               Fixtures.diamondRegistry 2 a1 (pr_name pkg) (pr_version pkg)
             = Some (a2, Ret res)).
Proof.
  apply (@individual_results_are_keyed_by_request MiniSemver.semver
           Fixtures.npmjs Fixtures.diamondRegistry 2 newAnalyzer
           Fixtures.twoRequests Fixtures.twoMultiAnalyzer Fixtures.twoMultiResult).
  reflexivity.
Defined.

Lemma first_failure_fails_the_whole_analysis_witness :
  analyzeMultiple (sv := MiniSemver.semver) Fixtures.npmjs Fixtures.diamondRegistry
    2 newAnalyzer
    ([{| pr_name := "a"; pr_version := "^1.0.0" |}]
     ++ {| pr_name := "zzz"; pr_version := "1.0.0" |}
        :: [{| pr_name := "b"; pr_version := "^1.0.0" |}])%list
  = Some ({| packageCache := packageCache Fixtures.aloneAnalyzer;
             requests := ["https://registry.npmjs.org/a";
                          "https://registry.npmjs.org/c";
                          "https://registry.npmjs.org/zzz"] |},
          Throw (PackageNotFoundError "zzz" "1.0.0"
                   (Some (PackageNotFoundError "zzz" "1.0.0" None)))).
Proof.
  apply (@first_failure_fails_the_whole_analysis MiniSemver.semver
           Fixtures.npmjs Fixtures.diamondRegistry 2
           [{| pr_name := "a"; pr_version := "^1.0.0" |}]
           {| pr_name := "zzz"; pr_version := "1.0.0" |}
           [{| pr_name := "b"; pr_version := "^1.0.0" |}]
           newAnalyzer Fixtures.aloneAnalyzer Fixtures.aloneIndividual);
    reflexivity.
Defined.

Lemma combined_flat_is_the_union_witness :
  (forall key res k e,
     In (key, res) (individual Fixtures.twoMultiResult) ->
     In (k, e) (flatDependencies res) ->
     exists e',
       JsMap.get (co_flatDependencies (combined Fixtures.twoMultiResult)) k = Some e'
       /\ incl (fd_requiredBy e) (fd_requiredBy e'))
  /\ (forall k,
        JsMap.has (co_flatDependencies (combined Fixtures.twoMultiResult)) k = true ->
        exists key res, In (key, res) (individual Fixtures.twoMultiResult)
                        /\ In k (map fst (flatDependencies res))).
Proof.
  apply (@combined_flat_is_the_union MiniSemver.semver Fixtures.npmjs
           Fixtures.diamondRegistry 2 newAnalyzer Fixtures.twoRequests
           Fixtures.twoMultiAnalyzer Fixtures.twoMultiResult).
  reflexivity.
Defined.

(** ** Flat index *)

Section FlatMore.
Context {sv : Semver}.
Variable config : Config.
Variable reg : Registry.

Lemma orRoot_nonempty p : orRoot p <> "".
Proof. unfold orRoot, truthy_string. destruct p; simpl; discriminate. Qed.

Lemma JsSet_add_inv s x y : In y (JsSet.add s x) -> y = x \/ In y s.
Proof.
  unfold JsSet.add. destruct (JsSet.has s x); [auto|].
  intros H. apply in_app_or in H. destruct H as [H|[<-|[]]]; auto.
Qed.

Lemma JsSet_add_NoDup s x : NoDup s -> NoDup (JsSet.add s x).
Proof.
  intros Hs. unfold JsSet.add, JsSet.has.
  destruct (existsb (String.eqb x) s) eqn:E; [exact Hs|].
  apply NoDup_app; [exact Hs | repeat constructor; intros [] |].
  intros y Hy [Heq|[]]. subst y.
  assert (existsb (String.eqb x) s = true); [|congruence].
  apply existsb_exists. exists x. split; [exact Hy | apply String.eqb_refl].
Qed.

Lemma JsSet_add_nonempty s x : JsSet.add s x <> [].
Proof.
  intros H. pose proof (JsSet_add_In s x) as Hin. rewrite H in Hin. destruct Hin.
Qed.

Lemma fold_add_inv xs :
  forall s y, In y (fold_left JsSet.add xs s) -> In y xs \/ In y s.
Proof.
  induction xs as [|x xs IH]; intros s y Hy; simpl in *; [auto|].
  destruct (IH _ _ Hy) as [H|H]; [auto|].
  destruct (JsSet_add_inv _ _ _ H) as [->|H']; auto.
Qed.

Lemma fold_add_NoDup xs :
  forall s, NoDup s -> NoDup (fold_left JsSet.add xs s).
Proof.
  induction xs as [|x xs IH]; intros s Hs; simpl; [exact Hs|].
  apply IH, JsSet_add_NoDup, Hs.
Qed.

Lemma registerFlat_well_formed flat name version parentPath :
  FlatWellFormed flat ->
  FlatWellFormed (registerFlat flat name version parentPath).
Proof.
  intros Hwf k e Hin. unfold registerFlat in Hin.
  destruct (JsMap.get flat (name ++ "@" ++ version)) as [dep|] eqn:Hget;
    apply JsMapFacts.In_set in Hin; destruct Hin as [[-> ->]|Hin]; auto.
  - destruct (Hwf _ _ (JsMapFacts.get_In _ _ Hget)) as (Hk & Hne & Hnd & Hno).
    repeat split; simpl.
    + exact Hk.
    + apply JsSet_add_nonempty.
    + now apply JsSet_add_NoDup.
    + intros H. apply JsSet_add_inv in H. destruct H as [H|H]; [|auto].
      symmetry in H. now apply orRoot_nonempty in H.
  - repeat split; simpl.
    + discriminate.
    + repeat constructor. intros [].
    + intros [H|[]]. now apply orRoot_nonempty in H.
Qed.

Lemma buildDependencyTree_well_formed fuel :
  forall name version parentPath s s' r,
    FlatWellFormed (snd s) ->
    buildDependencyTree config reg fuel name version parentPath s = Some (s', r) ->
    FlatWellFormed (snd s').
Proof.
  induction fuel as [|fuel IH]; intros name version parentPath s s' r Hwf Hrun;
    [discriminate|].
  rewrite buildDependencyTree_S in Hrun.
  destruct (getPackageInfo config reg (fst s) name version) as [a1 [e|info]].
  - injection Hrun as <- _. exact Hwf.
  - cbv zeta in Hrun.
    match type of Hrun with
    | match buildAll ?b ?deps ?s0 with _ => _ end = _ =>
        destruct (buildAll b deps s0) as [[s2 r2]|] eqn:Hall; [|discriminate];
        apply (buildAll_steps
                 (fun s s' => FlatWellFormed (snd s) -> FlatWellFormed (snd s')))
          in Hall
    end.
    + destruct r2; injection Hrun as <- _; exact Hall.
    + auto.
    + auto.
    + intros n v s0 s0' r0 Hb Hwf0. eapply IH; eauto.
    + simpl. now apply registerFlat_well_formed.
Qed.

(** X20. The builder keeps the flat index well formed: if, before a build,
    every entry sits under the key ["name@version"] of its own name and
    version and has a non-empty [requiredBy] without the empty path and
    without repetition, then so it is after the build, whether the build
    returned a node or failed. *)
Theorem build_keeps_the_flat_index_well_formed fuel name version parentPath s s' r :
  FlatWellFormed (snd s) ->
  buildDependencyTree config reg fuel name version parentPath s = Some (s', r) ->
  FlatWellFormed (snd s').
Proof. apply buildDependencyTree_well_formed. Qed.

Lemma mergeFlat_well_formed flat :
  forall c, FlatWellFormed c -> FlatWellFormed flat ->
            FlatWellFormed (mergeFlat c flat).
Proof.
  unfold mergeFlat. induction flat as [|[k0 e0] flat IH]; intros c Hc Hflat; simpl;
    [exact Hc|].
  apply IH; [|intros k e Hin; apply Hflat; now right].
  destruct (Hflat k0 e0 (or_introl eq_refl)) as (Hk0 & Hne0 & Hnd0 & Hno0).
  intros k e Hin.
  destruct (JsMap.get c k0) as [e1|] eqn:Hget;
    apply JsMapFacts.In_set in Hin; destruct Hin as [[-> ->]|Hin]; auto.
  - destruct (Hc _ _ (JsMapFacts.get_In _ _ Hget)) as (Hk & Hne & Hnd & Hno).
    repeat split; simpl.
    + exact Hk.
    + intros H. destruct (fd_requiredBy e1) as [|p ps] eqn:E; [now apply Hne|].
      assert (Hp : In p (fold_left JsSet.add (fd_requiredBy e0) (p :: ps)))
        by (apply (proj1 (fold_add_incl (fd_requiredBy e0) (p :: ps))); now left).
      rewrite H in Hp. destruct Hp.
    + now apply fold_add_NoDup.
    + intros H. apply fold_add_inv in H. destruct H; auto.
  - repeat split; simpl; auto.
Qed.

Lemma analyzeSingle_well_formed fuel a name version a' res :
  analyzeSingle config reg fuel a name version = Some (a', Ret res) ->
  FlatWellFormed (flatDependencies res).
Proof.
  unfold analyzeSingle.
  destruct (buildDependencyTree config reg fuel name version "" (a, JsMap.empty))
    as [[[a1 f1] [e|tree]]|] eqn:Hb; try discriminate.
  intros [= _ Hres]. apply bind_ret in Hres.
  destruct Hres as (hoisted & _ & [= <-]). simpl.
  apply buildDependencyTree_well_formed in Hb; [exact Hb|].
  intros k e [].
Qed.

Lemma analyzeEach_all (P : AnalysisResult -> Prop) fuel :
  (forall a name version a' res,
     analyzeSingle config reg fuel a name version = Some (a', Ret res) -> P res) ->
  forall packages a individual0 a' individual,
    (forall k res, In (k, res) individual0 -> P res) ->
    analyzeEach config reg fuel a packages individual0 = Some (a', Ret individual) ->
    forall k res, In (k, res) individual -> P res.
Proof.
  intros Hone. induction packages as [|pkg packages IH];
    intros a individual0 a' individual H0 Hrun; simpl in Hrun.
  - now injection Hrun as _ <-.
  - destruct (analyzeSingle config reg fuel a (pr_name pkg) (pr_version pkg))
      as [[a1 [e|res0]]|] eqn:Hs; try discriminate.
    eapply IH; [|exact Hrun].
    intros k res Hin. apply JsMapFacts.In_set in Hin.
    destruct Hin as [[_ ->]|Hin]; eauto.
Qed.

Lemma merged_flat_well_formed (individual : JsMap.t AnalysisResult) :
  (forall k res, In (k, res) individual -> FlatWellFormed (flatDependencies res)) ->
  forall acc,
    FlatWellFormed (snd acc) ->
    FlatWellFormed
      (snd (fold_left
              (fun acc kr =>
                 (JsMap.set (fst acc) (fst kr) (dependencyTree (snd kr)),
                  mergeFlat (snd acc) (flatDependencies (snd kr))))
              individual acc)).
Proof.
  induction individual as [|[key0 res0] individual IH]; intros Hall acc Hacc; simpl;
    [exact Hacc|].
  apply IH; [intros k res Hin; eapply Hall; right; exact Hin|]. simpl.
  apply mergeFlat_well_formed; [exact Hacc|].
  eapply Hall. left. reflexivity.
Qed.

(** X21. Every flat index an analysis returns is well formed: the one of
    a single-package result, each of the individual ones of a
    multi-package result, and the combined one, in which the merge keeps
    the [requiredBy] sets non-empty and free of repetition. *)
Theorem analysis_flat_indexes_are_well_formed fuel a input version a' out :
  analyze config reg fuel a input version = Some (a', Ret out) ->
  match out with
  | SingleOutput r => FlatWellFormed (flatDependencies r)
  | MultiOutput r =>
      FlatWellFormed (co_flatDependencies (combined r))
      /\ forall k res, In (k, res) (individual r) ->
                       FlatWellFormed (flatDependencies res)
  end.
Proof.
  unfold analyze. destruct input as [name|packages].
  - destruct (truthy version); [|discriminate].
    destruct (analyzeSingle config reg fuel a name (orElse version ""))
      as [[a1 [e|res]]|] eqn:Hone; try discriminate.
    intros [= _ <-]. eapply analyzeSingle_well_formed; eauto.
  - destruct (analyzeMultiple config reg fuel a packages) as [[a1 [e|r]]|] eqn:Hm;
      try discriminate.
    intros [= _ <-]. unfold analyzeMultiple in Hm.
    destruct (analyzeEach config reg fuel a packages JsMap.empty)
      as [[a2 [e|individual]]|] eqn:He; try discriminate.
    injection Hm as _ Hr. apply bind_ret in Hr. destruct Hr as (t & _ & [= <-]).
    simpl.
    assert (Hall : forall k res, In (k, res) individual ->
                                 FlatWellFormed (flatDependencies res)).
    { eapply (analyzeEach_all (fun res => FlatWellFormed (flatDependencies res)));
        [|idtac|exact He].
      - intros; eapply analyzeSingle_well_formed; eauto.
      - intros k res []. }
    split; [|exact Hall].
    apply merged_flat_well_formed; [exact Hall|]. intros k e [].
Qed.

End FlatMore.

Lemma build_keeps_the_flat_index_well_formed_witness :
  FlatWellFormed Fixtures.diamondFlat.
Proof.
  apply (@build_keeps_the_flat_index_well_formed MiniSemver.semver Fixtures.npmjs
           Fixtures.diamondRegistry 3 "app" "1.0.0" ""
           (newAnalyzer, JsMap.empty)
           (Fixtures.diamondAnalyzer, Fixtures.diamondFlat)
           (Ret Fixtures.diamondTree)).
  - intros k e [].
  - reflexivity.
Defined.

Lemma analysis_flat_indexes_are_well_formed_witness :
  FlatWellFormed (co_flatDependencies (combined Fixtures.twoMultiResult))
  /\ forall k res, In (k, res) (individual Fixtures.twoMultiResult) ->
                   FlatWellFormed (flatDependencies res).
Proof.
  apply (@analysis_flat_indexes_are_well_formed MiniSemver.semver Fixtures.npmjs
           Fixtures.diamondRegistry 2 newAnalyzer (inr Fixtures.twoRequests) None
           Fixtures.twoMultiAnalyzer (MultiOutput Fixtures.twoMultiResult)).
  reflexivity.
Defined.

(** ** The flat index holds nothing but the tree *)

Section FlatSoundness.
Context {sv : Semver}.
Variable config : Config.
Variable reg : Registry.

Lemma set_fresh (V : Type) (m : JsMap.t V) k v :
  ~ In k (map fst m) -> JsMap.set m k v = (m ++ [(k, v)])%list.
Proof.
  induction m as [|[k0 v0] m IH]; simpl; intros Hk; [reflexivity|].
  destruct (String.eqb k0 k) eqn:E.
  - apply String.eqb_eq in E. tauto.
  - rewrite IH; tauto.
Qed.

Lemma of_entries_acc_unique (V : Type) (l : list (string * V)) :
  forall m, NoDup (map fst (m ++ l)) ->
            fold_left (fun m kv => JsMap.set m (fst kv) (snd kv)) l m = (m ++ l)%list.
Proof.
  induction l as [|[k v] l IH]; intros m Hnd; simpl.
  - now rewrite app_nil_r.
  - rewrite set_fresh.
    + rewrite IH; rewrite <- app_assoc; [reflexivity | exact Hnd].
    + rewrite map_app in Hnd. simpl in Hnd. apply NoDup_remove_2 in Hnd.
      intros Hin. apply Hnd. apply in_or_app. now left.
Qed.

Lemma of_entries_unique (V : Type) (l : list (string * V)) :
  NoDup (map fst l) -> JsMap.of_entries l = l.
Proof. intros Hnd. unfold JsMap.of_entries. now rewrite of_entries_acc_unique. Qed.

Lemma RequirersFrom_refl occ f : RequirersFrom occ f f.
Proof. intros k e p Hk Hp. left. eauto. Qed.

Lemma RequirersFrom_trans (occ1 occ2 occ : string -> string -> Prop) f g h :
  (forall k p, occ1 k p -> occ k p) ->
  (forall k p, occ2 k p -> occ k p) ->
  RequirersFrom occ1 f g -> RequirersFrom occ2 g h -> RequirersFrom occ f h.
Proof.
  intros H1 H2 Hfg Hgh k e p Hk Hp.
  destruct (Hgh _ _ _ Hk Hp) as [(e1 & Hk1 & Hp1)|Ho]; [|auto].
  destruct (Hfg _ _ _ Hk1 Hp1) as [Hold|Ho]; auto.
Qed.

Lemma registerFlat_requirers flat name version parentPath :
  RequirersFrom
    (fun k p => k = name ++ "@" ++ version /\ p = orRoot parentPath)
    flat (registerFlat flat name version parentPath).
Proof.
  intros k e' p Hget Hin. unfold registerFlat in Hget.
  destruct (JsMap.get flat (name ++ "@" ++ version)) as [dep|] eqn:Hold;
    rewrite JsMapFacts.get_set in Hget;
    destruct (String.eqb (name ++ "@" ++ version) k) eqn:E;
    try (left; now eauto);
    apply String.eqb_eq in E; injection Hget as <-; simpl in Hin.
  - apply JsSet_add_inv in Hin. destruct Hin as [->|Hin]; [now right|].
    left. exists dep. now rewrite <- E.
  - destruct Hin as [<-|[]]. now right.
Qed.

Lemma UniqueDeclarations_before a a' :
  cacheExtends a a' -> UniqueDeclarations a' -> UniqueDeclarations a.
Proof. intros Hext Hu key info Hget. eapply Hu, Hext, Hget. Qed.

Lemma buildAll_requirers
    (build : string -> string -> BuildState -> option (BuildState * exc DependencyNode))
    (currentPath : string) :
  (forall n v s s' r, build n v s = Some (s', r) -> cacheExtends (fst s) (fst s')) ->
  (forall n v s s' c,
     build n v s = Some (s', Ret c) -> UniqueDeclarations (fst s') ->
     RequirersFrom (occursUnder c currentPath) (snd s) (snd s')) ->
  forall deps s s' results,
    buildAll build deps s = Some (s', Ret results) ->
    UniqueDeclarations (fst s') ->
    RequirersFrom
      (fun k p => exists key c, In (key, c) results /\ occursUnder c currentPath k p)
      (snd s) (snd s').
Proof.
  intros Hext Hbuild. induction deps as [|[depName depVersion] deps IH];
    intros s s' results Hrun Hu; simpl in Hrun.
  - injection Hrun as <- <-. apply RequirersFrom_refl.
  - destruct (build depName depVersion s) as [[s1 [e|depNode]]|] eqn:Hone;
      try discriminate.
    destruct (buildAll build deps s1) as [[s2 [e|rest]]|] eqn:Hrest;
      try discriminate.
    injection Hrun as <- <-.
    pose proof (buildAll_extends _ Hext _ _ Hrest) as Hext2.
    eapply RequirersFrom_trans;
      [| |eapply Hbuild; [exact Hone | eapply UniqueDeclarations_before; eauto]
       |eapply IH; [exact Hrest | exact Hu]].
    + intros k p Ho. exists depName, depNode. split; [now left | exact Ho].
    + intros k p (key & c & Hin & Ho). exists key, c. split; [now right | exact Ho].
Qed.

(** X22. The flat index holds nothing but the tree.  When every cached
    package declares each dependency once, every requirer that an entry of
    the flat index has after a build was already a requirer of that entry
    before the build, or the tree returned has a node with the entry's key
    that was built under that path (["root"] for the empty path).  With
    C5 this makes the flat index of a build from an empty index exactly
    the set of occurrences in its tree. *)
Theorem flat_requirers_come_from_the_tree fuel :
  forall name version parentPath s s' tree,
    UniqueDeclarations (fst s') ->
    buildDependencyTree config reg fuel name version parentPath s
    = Some (s', Ret tree) ->
    forall k e p,
      JsMap.get (snd s') k = Some e -> In p (fd_requiredBy e) ->
      (exists e0, JsMap.get (snd s) k = Some e0 /\ In p (fd_requiredBy e0))
      \/ exists d q,
           OccursAt tree parentPath d q
           /\ k = dn_name d ++ "@" ++ dn_version d
           /\ p = (if truthy_string q then q else "root").
Proof.
  induction fuel as [|fuel IH]; intros name version parentPath s s' tree Hu Hrun;
    [discriminate|].
  rewrite buildDependencyTree_S in Hrun.
  destruct (getPackageInfo config reg (fst s) name version) as [a1 [e1|info]] eqn:Hg;
    [discriminate|].
  cbv zeta in Hrun.
  match type of Hrun with
  | match buildAll ?b ?deps ?s0 with _ => _ end = _ =>
      destruct (buildAll b deps s0) as [[s2 [e2|results]]|] eqn:Hall;
        try discriminate
  end.
  injection Hrun as <- <-.
  pose proof Hall as Hext.
  apply buildAll_extends in Hext;
    [|intros; eapply buildDependencyTree_extends; eauto].
  assert (Hnd : NoDup (map fst (pi_dependencies info))).
  { eapply Hu, Hext. simpl. eapply getPackageInfo_caches; eauto. }
  pose proof (buildAll_results _ _ _ Hall) as [Hkeys _].
  rewrite <- Hkeys in Hnd.
  apply buildAll_requirers
    with (currentPath := pathOf parentPath name (pi_version info)) in Hall;
    [ | intros; eapply buildDependencyTree_extends; eauto
      | intros n v s0 s0' c Hb Hu0; exact (IH _ _ _ _ _ _ Hu0 Hb)
      | exact Hu ].
  simpl in Hall.
  intros k e p Hk Hp.
  destruct (Hall _ _ _ Hk Hp)
    as [(e1 & Hk1 & Hp1)|(key & c & Hin & d & q & Hocc & -> & ->)].
  - destruct (@registerFlat_requirers (snd s) name (pi_version info) parentPath
                 k e1 p Hk1 Hp1) as [Hold|[-> ->]].
    + left. exact Hold.
    + right. eexists. exists parentPath.
      split; [apply occurs_here | split; reflexivity].
  - right. exists d, q. split; [|split; reflexivity].
    eapply occurs_below; [|exact Hocc]. simpl.
    rewrite of_entries_unique by exact Hnd. exact Hin.
Qed.

End FlatSoundness.

Lemma diamond_declarations_are_unique : UniqueDeclarations Fixtures.diamondAnalyzer.
Proof.
  intros key info Hget. simpl in Hget.
  repeat match type of Hget with
         | (if ?c then _ else _) = _ => destruct c
         end;
    try discriminate; injection Hget as <-; simpl;
    repeat constructor; simpl; intuition discriminate.
Qed.

Lemma flat_requirers_come_from_the_tree_witness :
  (exists e0,
     JsMap.get (JsMap.empty : FlatDeps) "c@1.1.0" = Some e0
     /\ In "app@1.0.0 > b@1.0.0" (fd_requiredBy e0))
  \/ exists d q,
       OccursAt Fixtures.diamondTree "" d q
       /\ "c@1.1.0" = dn_name d ++ "@" ++ dn_version d
       /\ "app@1.0.0 > b@1.0.0" = (if truthy_string q then q else "root").
Proof.
  apply (@flat_requirers_come_from_the_tree MiniSemver.semver Fixtures.npmjs
           Fixtures.diamondRegistry 3 "app" "1.0.0" ""
           (newAnalyzer, JsMap.empty)
           (Fixtures.diamondAnalyzer, Fixtures.diamondFlat) Fixtures.diamondTree
           diamond_declarations_are_unique eq_refl
           "c@1.1.0"
           {| fd_name := "c"; fd_version := "1.1.0";
              fd_requiredBy := ["app@1.0.0 > a@1.0.0"; "app@1.0.0 > b@1.0.0"] |}
           "app@1.0.0 > b@1.0.0").
  - reflexivity.
  - simpl. auto.
Defined.

(** ** Configuration *)

Section ConfigMore.

Lemma get_fold_set_other (V : Type) (l : list (string * V)) k :
  forall m, ~ In k (map fst l) ->
            JsMap.get (fold_left (fun m kv => JsMap.set m (fst kv) (snd kv)) l m) k
            = JsMap.get m k.
Proof.
  induction l as [|[k0 v0] l IH]; intros m Hk; simpl in *; [reflexivity|].
  rewrite IH by tauto. apply JsMapFacts.get_set_other. tauto.
Qed.

Lemma get_fold_set_unique (V : Type) (l : list (string * V)) k v :
  forall m, NoDup (map fst l) -> In (k, v) l ->
            JsMap.get (fold_left (fun m kv => JsMap.set m (fst kv) (snd kv)) l m) k
            = Some v.
Proof.
  induction l as [|[k0 v0] l IH]; intros m Hnd Hin; simpl in *; [destruct Hin|].
  inversion Hnd as [|? ? Hk0 Hnd']; subst.
  destruct Hin as [[= -> ->]|Hin]; [|auto].
  rewrite get_fold_set_other by exact Hk0. apply JsMapFacts.get_set_same.
Qed.

(** X23. Whatever the caller passes, the configuration the analyzer works
    with is complete: the registry URL is not empty, the timeout is a
    truthy number and an [Accept] header is present.  A registry that is
    absent or empty is replaced by the default and any other is kept; a
    timeout that is absent or falsy ([0], [-0], [NaN]) is replaced by the
    default and any other number is kept, negative, fractional and
    infinite ones included. *)
Theorem config_is_complete (c : NpmRegistryConfig) :
  cfg_registry (makeConfig c) <> ""
  /\ truthy_number (cfg_timeout (makeConfig c)) = true
  /\ JsMap.has (cfg_headers (makeConfig c)) "Accept" = true
  /\ (forall r, registry c = Some r -> r <> "" -> cfg_registry (makeConfig c) = r)
  /\ (registry c = None \/ registry c = Some "" ->
      cfg_registry (makeConfig c) = "https://registry.npmjs.org")
  /\ (forall t, timeout c = Some t -> truthy_number t = true ->
                cfg_timeout (makeConfig c) = t)
  /\ (timeout c = None
      \/ (exists t, timeout c = Some t /\ truthy_number t = false) ->
      cfg_timeout (makeConfig c) = Finite 30000 1).
Proof.
  destruct c as [r t h]. unfold makeConfig. cbn [registry timeout headers
    cfg_registry cfg_timeout cfg_headers].
  split; [|split; [|split; [|split; [|split; [|split]]]]].
  - destruct r as [[|ch r]|]; simpl; discriminate.
  - destruct t as [t|]; [|reflexivity].
    destruct (truthy_number t) eqn:E; [exact E | reflexivity].
  - apply has_of_entries_acc. now right.
  - intros r0 -> Hne. destruct r0; [now elim Hne | reflexivity].
  - intros [->| ->]; reflexivity.
  - intros t0 -> Ht. now rewrite Ht.
  - intros [->|(t0 & -> & Ht)]; [reflexivity | now rewrite Ht].
Qed.

(** X24. The caller's headers win over the default: every header the
    caller gives is in the configuration with the caller's value,
    [Accept] included; [Accept] has the value [application/json] when the
    caller gives no [Accept] header; and the configuration has no header
    besides these. *)
Theorem caller_headers_override_the_default (c : NpmRegistryConfig) given :
  headers c = Some given ->
  NoDup (map fst given) ->
  (forall k v, In (k, v) given -> JsMap.get (cfg_headers (makeConfig c)) k = Some v)
  /\ (~ In "Accept" (map fst given) ->
      JsMap.get (cfg_headers (makeConfig c)) "Accept" = Some "application/json")
  /\ (forall k, JsMap.has (cfg_headers (makeConfig c)) k = true ->
                k = "Accept" \/ In k (map fst given)).
Proof.
  intros Hh Hnd. unfold makeConfig. cbn [cfg_headers]. rewrite Hh.
  split; [|split].
  - intros k v Hin. now apply get_fold_set_unique.
  - intros Hno. rewrite get_fold_set_other by exact Hno. reflexivity.
  - intros k Hk. apply has_of_entries_acc in Hk. destruct Hk as [Hk|Hk]; [auto|].
    left.
    change (JsMap.has (JsMap.set JsMap.empty "Accept" "application/json") k = true)
      in Hk.
    rewrite has_set in Hk. apply orb_true_iff in Hk.
    destruct Hk as [E|Hk]; [|discriminate].
    apply String.eqb_eq in E. now subst.
Qed.

End ConfigMore.

Lemma caller_headers_override_the_default_witness :
  (forall k v,
     In (k, v) [("User-Agent", "npm-dependency-analyzer-test");
                ("Accept", "application/vnd.npm.install-v1+json")] ->
     JsMap.get (cfg_headers (makeConfig Fixtures.mirrorConfig)) k = Some v)
  /\ (~ In "Accept" (map fst [("User-Agent", "npm-dependency-analyzer-test");
                              ("Accept", "application/vnd.npm.install-v1+json")]) ->
      JsMap.get (cfg_headers (makeConfig Fixtures.mirrorConfig)) "Accept"
      = Some "application/json")
  /\ (forall k, JsMap.has (cfg_headers (makeConfig Fixtures.mirrorConfig)) k = true ->
                k = "Accept"
                \/ In k (map fst [("User-Agent", "npm-dependency-analyzer-test");
                                  ("Accept", "application/vnd.npm.install-v1+json")])).
Proof.
  apply (@caller_headers_override_the_default Fixtures.mirrorConfig
           [("User-Agent", "npm-dependency-analyzer-test");
            ("Accept", "application/vnd.npm.install-v1+json")]).
  - reflexivity.
  - repeat constructor; simpl; intuition discriminate.
Defined.

(** ** Printing *)

Section PrintingMore.
Context {sv : Semver}.

Lemma append_assoc (a b c : string) : ((a ++ b) ++ c = a ++ (b ++ c))%string.
Proof. induction a as [|ch a IH]; simpl; [reflexivity | now rewrite IH]. Qed.

Lemma printDependencyTree_eq node prefix :
  printDependencyTree node prefix =
  ((prefix ++ dn_name node ++ "@" ++ dn_version node)%string
   :: (if Nat.ltb 0 (JsMap.size (dn_peerDependencies node))
       then (prefix ++ "├── [peer dependencies]")%string
            :: map (fun nv =>
                      (prefix ++ "│   └── " ++ fst nv ++ "@" ++ snd nv)%string)
                 (dn_peerDependencies node)
       else [])
   ++ printChildren prefix (dn_dependencies node))%list.
Proof. destruct node; reflexivity. Qed.

Lemma printChildren_child prefix deps k c :
  In (k, c) deps ->
  exists m, (m = "├── " \/ m = "└── ")
            /\ incl (printDependencyTree c (prefix ++ m)) (printChildren prefix deps).
Proof.
  induction deps as [|[k0 c0] deps IH]; intros Hin; [destruct Hin|].
  destruct Hin as [[= -> ->]|Hin].
  - exists (if match deps with [] => true | _ :: _ => false end
            then "└── " else "├── ").
    split; [destruct deps; auto|].
    cbn [printChildren]. apply incl_appl, incl_refl.
  - destruct (IH Hin) as (m & Hm & Hincl). exists m. split; [exact Hm|].
    cbn [printChildren]. apply incl_appr. exact Hincl.
Qed.

(** X25. Every node of a tree is printed: a node [n] levels below the
    root has a line made of the prefix, [n] branch markers and its
    ["name@version"].  The markers of its ancestors are kept as they are;
    no continuation bar or blank takes their place. *)
Theorem every_node_is_printed_at_its_depth tree n d :
  AtDepth tree n d ->
  forall prefix,
  exists indent,
    Markers n indent
    /\ In (prefix ++ indent ++ dn_name d ++ "@" ++ dn_version d)
          (printDependencyTree tree prefix).
Proof.
  induction 1 as [tree|tree k child n d Hin Hat IH]; intros prefix.
  - exists "". split; [constructor|]. rewrite printDependencyTree_eq. now left.
  - destruct (printChildren_child prefix _ _ _ Hin) as (m & Hm & Hincl).
    destruct (IH (prefix ++ m)) as (indent & Hind & Hline).
    exists (m ++ indent). split; [now constructor|].
    rewrite printDependencyTree_eq. right. apply in_or_app. right.
    apply Hincl. rewrite <- append_assoc, <- (append_assoc prefix m indent).
    rewrite <- append_assoc in Hline. exact Hline.
Qed.

(** X26. A well-formed flat index is printed in full: after the heading,
    every entry gives its ["name@version"], the line [Required by:] and
    one line per requirer; the guard on an empty [requiredBy] skips
    nothing. *)
Theorem well_formed_index_is_printed_in_full flatDeps :
  FlatWellFormed flatDeps ->
  printFlatDependencies flatDeps =
  ((newline ++ "Flat Dependencies:")%string
   :: flat_map
        (fun kd =>
           (newline ++ fd_name (snd kd) ++ "@" ++ fd_version (snd kd) ++ ":")%string
           :: "  Required by:"%string
           :: map (fun parent => ("    - " ++ parent)%string)
                (fd_requiredBy (snd kd)))
        flatDeps)%list.
Proof.
  intros Hwf. unfold printFlatDependencies. f_equal.
  induction flatDeps as [|[k e] flatDeps IH]; [reflexivity|].
  cbn [flat_map fst snd].
  destruct (Hwf k e (or_introl eq_refl)) as (Hk & Hne & _ & _).
  rewrite IH by (intros k0 e0 Hin; apply Hwf; now right).
  f_equal. destruct (fd_requiredBy e) as [|p ps]; [now elim Hne|].
  cbn [length Nat.ltb Nat.leb]. rewrite Hk, !append_assoc. reflexivity.
Qed.

Lemma andThen_ret {A B : Type} (c : Console A) (k : A -> Console B) lines b :
  andThen c k = (lines, Ret b) ->
  exists l1 a l2,
    c = (l1, Ret a) /\ k a = (l2, Ret b) /\ lines = (l1 ++ l2)%list.
Proof.
  unfold andThen. destruct c as [l1 [e|a]]; simpl; [discriminate|].
  destruct (k a) as [l2 r2] eqn:Hk. simpl. intros [= <- ->]. eauto 6.
Qed.

Lemma forEach_ret {A : Type} (l : list A) (body : A -> Console unit) :
  forall lines,
    forEach l body = (lines, Ret tt) ->
    forall x, In x l -> exists lx, body x = (lx, Ret tt) /\ incl lx lines.
Proof.
  induction l as [|y l IH]; intros lines Hrun x Hin; [destruct Hin|].
  cbn [forEach] in Hrun. apply andThen_ret in Hrun.
  destruct Hrun as (l1 & [] & l2 & Hy & Hrest & ->).
  destruct Hin as [<-|Hin].
  - exists l1. split; [exact Hy | apply incl_appl, incl_refl].
  - destruct (IH _ Hrest _ Hin) as (lx & Hx & Hincl).
    exists lx. split; [exact Hx | apply incl_appr, Hincl].
Qed.

Lemma planner_root_invariant node t :
  convertToHoistedTree node = Ret t -> RootInvariant t.
Proof.
  unfold convertToHoistedTree. rewrite processNode_eq. simpl. intros Hrun.
  apply (processDeps_keeps RootInvariant placeNode_keeps_invariant) in Hrun;
    [exact Hrun|].
  split.
  - intros k r. unfold hoist. simpl.
    destruct (String.eqb (dn_name node) k) eqn:E; [|discriminate].
    apply String.eqb_eq in E. intros [= <-]. exact E.
  - intros k r peerName peerRange Hr Hp Hne e He.
    unfold hoist in Hr, He. simpl in Hr, He.
    destruct (String.eqb (dn_name node) k); [|discriminate].
    injection Hr as <-. simpl in Hne.
    apply String.eqb_neq in Hne. rewrite String.eqb_sym in Hne.
    rewrite Hne in He. discriminate.
Qed.

Lemma printEntry_peer check name dep lines peerName peerRange :
  printEntry check name dep = (lines, Ret tt) ->
  In (peerName, peerRange) (hd_peerDependencies dep) ->
  exists isSatisfied,
    check peerName peerRange = Ret isSatisfied
    /\ In ("│   │   ├── " ++ peerName ++ "@" ++ peerRange ++ " "
           ++ peerStatus isSatisfied)%string lines.
Proof.
  intros Hrun Hin. unfold printEntry in Hrun.
  apply andThen_ret in Hrun. destruct Hrun as (l1 & [] & l2 & _ & Hrun & ->).
  apply andThen_ret in Hrun. destruct Hrun as (l3 & [] & l4 & _ & Hrun & ->).
  destruct (hd_peerDependencies dep) as [|pv peers] eqn:Hpeers; [destruct Hin|].
  cbn [JsMap.size length Nat.ltb Nat.leb] in Hrun.
  apply andThen_ret in Hrun. destruct Hrun as (l5 & [] & l6 & _ & Hrun & ->).
  destruct (forEach_ret _ _ Hrun _ Hin) as (lx & Hbody & Hincl).
  cbn [fst snd] in Hbody. apply andThen_ret in Hbody.
  destruct Hbody as (l7 & isSatisfied & l8 & Hcheck & Hlog & ->).
  exists isSatisfied. unfold evaluate in Hcheck. injection Hcheck as <- Hcheck.
  split; [exact Hcheck|].
  apply in_or_app. right. apply in_or_app. right. apply in_or_app. right.
  apply Hincl. unfold log in Hlog. injection Hlog as <-. now left.
Qed.

(** X27. What the planner guarantees is what the printer shows: when the
    hoisted tree of a plan is printed to the end, the peer that a root
    entry declares on another package that is at the root is printed as
    satisfied. *)
Theorem planned_root_peers_are_printed_satisfied node t lines :
  convertToHoistedTree node = Ret t ->
  printHoistedTree t = (lines, Ret tt) ->
  forall k r peerName peerRange,
    JsMap.get (root t) k = Some r ->
    JsMap.get (hd_peerDependencies r) peerName = Some peerRange ->
    peerName <> k ->
    JsMap.has (root t) peerName = true ->
    In ("│   │   ├── " ++ peerName ++ "@" ++ peerRange ++ " ✓")%string lines.
Proof.
  intros Hplan Hprint k r peerName peerRange Hr Hp Hne Hhas.
  destruct (planner_root_invariant _ Hplan) as [Hkeyed Hpeers].
  unfold printHoistedTree in Hprint.
  apply andThen_ret in Hprint. destruct Hprint as (l1 & [] & l2 & _ & Hprint & ->).
  apply andThen_ret in Hprint. destruct Hprint as (l3 & [] & l4 & _ & Hprint & ->).
  apply andThen_ret in Hprint. destruct Hprint as (l5 & [] & l6 & Hroot & _ & ->).
  destruct (forEach_ret _ _ Hroot _ (JsMapFacts.get_In _ _ Hr)) as (lx & Hentry & Hincl).
  cbn [fst snd] in Hentry.
  pose proof (JsMapFacts.get_In _ _ Hp) as HpIn.
  destruct (@printEntry_peer _ _ _ _ peerName peerRange Hentry HpIn)
    as (isSatisfied & Hcheck & Hline).
  apply JsMapFacts.has_true in Hhas. destruct Hhas as [e He].
  unfold rootPeerSatisfied, satisfiedBy in Hcheck. rewrite He in Hcheck.
  assert (Hsat : satisfies (hd_version e) peerRange = Ret true).
  { apply (Hpeers k r peerName peerRange Hr Hp); [|exact He].
    rewrite (Hkeyed _ _ Hr). exact Hne. }
  rewrite Hsat in Hcheck. injection Hcheck as <-.
  apply in_or_app. right. apply in_or_app. right. apply in_or_app. left.
  apply Hincl. exact Hline.
Qed.

End PrintingMore.

Lemma every_node_is_printed_at_its_depth_witness :
  exists indent,
    Markers 2 indent
    /\ In (">> " ++ indent ++ "c" ++ "@" ++ "1.1.0")%string
          (printDependencyTree Fixtures.diamondTree ">> ").
Proof.
  apply (@every_node_is_printed_at_its_depth Fixtures.diamondTree 2
           (Fixtures.leaf "c" "1.1.0" [])).
  eapply at_child; [right; left; reflexivity|].
  eapply at_child; [left; reflexivity|].
  apply at_top.
Defined.

Lemma diamondFlat_is_well_formed : FlatWellFormed Fixtures.diamondFlat.
Proof.
  apply (@buildDependencyTree_well_formed MiniSemver.semver Fixtures.npmjs
           Fixtures.diamondRegistry 3 "app" "1.0.0" ""
           (newAnalyzer, JsMap.empty)
           (Fixtures.diamondAnalyzer, Fixtures.diamondFlat)
           (Ret Fixtures.diamondTree)).
  - intros k e [].
  - reflexivity.
Qed.

Lemma well_formed_index_is_printed_in_full_witness :
  printFlatDependencies Fixtures.diamondFlat =
  ((newline ++ "Flat Dependencies:")%string
   :: flat_map
        (fun kd =>
           (newline ++ fd_name (snd kd) ++ "@" ++ fd_version (snd kd) ++ ":")%string
           :: "  Required by:"%string
           :: map (fun parent => ("    - " ++ parent)%string)
                (fd_requiredBy (snd kd)))
        Fixtures.diamondFlat)%list.
Proof.
  apply (@well_formed_index_is_printed_in_full Fixtures.diamondFlat).
  exact diamondFlat_is_well_formed.
Defined.

Lemma planned_root_peers_are_printed_satisfied_witness :
  In "│   │   ├── react@^18.0.0 ✓"
     (fst (printHoistedTree (sv := MiniSemver.semver)
             (Fixtures.planOf Fixtures.reactApp))).
Proof.
  apply (@planned_root_peers_are_printed_satisfied MiniSemver.semver
           Fixtures.reactApp (Fixtures.planOf Fixtures.reactApp)
           (fst (printHoistedTree (sv := MiniSemver.semver)
                   (Fixtures.planOf Fixtures.reactApp)))
           eq_refl eq_refl
           "A" (convertToHoistedDep (Fixtures.leaf "A" "1.0.0" [("react", "^18.0.0")]) None)
           "react" "^18.0.0" eq_refl eq_refl).
  - discriminate.
  - reflexivity.
Defined.
